(** * Credential-protection subsystem of the OrangeHRM Playwright framework

    A shallow embedding of
      - [SecureKeyGenerator]          (secureKeyGenerator.ts)
      - [EncryptionService]           (encryptionService.ts)
      - [EncryptionServiceUtils]      (encryptionServiceUtils.ts)
      - [EnvironmentFileManager]      (environmentFileManager.ts)
      - [FileManager.writeFile]       (fileManager.ts)
    together with the properties of the specification that concern them.

    Conventions.  A JavaScript string is the list of its UTF-16 code units.
    A [Buffer]/[Uint8Array] is a list of bytes.  Code that throws, logs, reads
    or writes files or draws random bytes lives in the monad [M]: a state
    transformer over [World] whose result is [Ok v] or [Throw e].  Whatever
    the repository imports from the platform (Argon2, AES-GCM, base64, JSON,
    regular expressions outside a small fragment) and the constants of
    [CRYPTO_CONFIG], whose file is not part of the sources, are fields of a
    [Platform] record; what the proofs need to know about them is collected in
    [PlatformOk]. *)

From Stdlib Require Import String Ascii Bool Arith NArith ZArith Lia List Permutation.
From Stdlib.Strings Require Import Byte.
Import ListNotations.

Ltac Zify.zify_post_hook ::= Z.to_euclidean_division_equations.

(* ================================================================== *)
(** * Part I.  The model                                               *)
(* ================================================================== *)

(** ** JavaScript strings *)

Module JsString.

(** A string is the list of its UTF-16 code units. *)
Abbreviation jsstring := (list N) (only parsing).

(** An ASCII literal as a JavaScript string. *)
Definition js (s : string) : jsstring := map N_of_ascii (list_ascii_of_string s).
Arguments js s%_string.

Definition EQUALS : N := 0x3D.       (* '=' *)
Definition NEWLINE : N := 0x0A.      (* '\n' *)
Definition LBRACE : N := 0x7B.       (* '{' *)
Definition RBRACE : N := 0x7D.       (* '}' *)
Definition DQUOTE : N := 0x22.       (* the double quote *)
Definition BACKSLASH : N := 0x5C.

Fixpoint eqb (a b : jsstring) : bool :=
  match a, b with
  | [], [] => true
  | x :: a', y :: b' => (x =? y)%N && eqb a' b'
  | _, _ => false
  end.

(** ToBoolean of a string: [!s] is true exactly for the empty string. *)
Definition truthy (s : jsstring) : bool :=
  match s with [] => false | _ :: _ => true end.

(** ECMAScript WhiteSpace and LineTerminator code points, the set
    [String.prototype.trim] strips. *)
Definition isLineTerminator (c : N) : bool :=
  ((c =? 0x0A) || (c =? 0x0D) || (c =? 0x2028) || (c =? 0x2029))%N.

Definition isWhiteSpace (c : N) : bool :=
  ((c =? 0x09) || (c =? 0x0B) || (c =? 0x0C) || (c =? 0x20) || (c =? 0xA0)
   || (c =? 0x1680) || ((0x2000 <=? c) && (c <=? 0x200A))
   || (c =? 0x202F) || (c =? 0x205F) || (c =? 0x3000) || (c =? 0xFEFF)
   || isLineTerminator c)%N.

Fixpoint trimStart (s : jsstring) : jsstring :=
  match s with
  | [] => []
  | c :: rest => if isWhiteSpace c then trimStart rest else s
  end.

Definition trimEnd (s : jsstring) : jsstring := rev (trimStart (rev s)).

Definition trim (s : jsstring) : jsstring := trimEnd (trimStart s).

Fixpoint startsWith (s prefix : jsstring) {struct prefix} : bool :=
  match prefix, s with
  | [], _ => true
  | p :: prefix', c :: s' => (c =? p)%N && startsWith s' prefix'
  | _ :: _, [] => false
  end.

Definition endsWith (s suffix : jsstring) : bool :=
  startsWith (rev s) (rev suffix).

(** [s.includes(c)] for a one-character needle. *)
Definition includes (s : jsstring) (c : N) : bool :=
  existsb (fun x => (x =? c)%N) s.

(** [s.split(sep)] for a one-character separator: never the empty array. *)
Fixpoint split (s : jsstring) (sep : N) : list jsstring :=
  match s with
  | [] => [[]]
  | c :: rest =>
      if (c =? sep)%N then [] :: split rest sep
      else match split rest sep with
           | [] => [[c]]
           | piece :: pieces => (c :: piece) :: pieces
           end
  end.

(** [parts.join(sep)]. *)
Fixpoint join (parts : list jsstring) (sep : N) : jsstring :=
  match parts with
  | [] => []
  | [p] => p
  | p :: rest => p ++ sep :: join rest sep
  end.

End JsString.
Export JsString.

(** ** Outcomes, the world and the monad *)

Record JsError := mkError { errName : string; errMessage : jsstring }.

Inductive Outcome (A : Type) : Type :=
| Ok (a : A)
| Throw (e : JsError).
Arguments Ok {A} a.
Arguments Throw {A} e.

Inductive LogLevel := LInfo | LWarn | LError | LDebug.

Record LogEntry := mkLog { level : LogLevel; text : jsstring }.

(** The file system maps a path to the content of the file there, the log is
    what [logger] and [ErrorHandler] have written (newest first), and the
    operating system's randomness is a tape of bytes of which [entropyUsed]
    have been consumed.  [randomCalls] counts the requests made to the random
    generator, whether they succeeded or not. *)
Record World := mkWorld {
  files : jsstring -> option jsstring;
  logs : list LogEntry;
  entropy : nat -> byte;
  entropyUsed : nat;
  randomCalls : nat
}.

Definition M (A : Type) : Type := World -> Outcome A * World.

Definition ret {A} (a : A) : M A := fun w => (Ok a, w).

Definition bind {A B} (m : M A) (k : A -> M B) : M B :=
  fun w =>
    match m w with
    | (Ok a, w') => k a w'
    | (Throw e, w') => (Throw e, w')
    end.

Definition throw {A} (e : JsError) : M A := fun w => (Throw e, w).

(** [try { body } catch (error) { handler(error) }]. *)
Definition tryCatch {A} (body : M A) (handler : JsError -> M A) : M A :=
  fun w =>
    match body w with
    | (Ok a, w') => (Ok a, w')
    | (Throw e, w') => handler e w'
    end.

Declare Scope monad_scope.
Delimit Scope monad_scope with monad.
Notation "x <- m ;; k" := (bind m (fun x => k))
  (at level 100, m at next level, right associativity) : monad_scope.
Notation "m ;;; k" := (bind m (fun _ => k))
  (at level 100, right associativity) : monad_scope.
Open Scope monad_scope.

(** *** logger and ErrorHandler (external collaborators: they only log) *)

Definition logMessage (l : LogLevel) (msg : jsstring) : M unit :=
  fun w => (Ok tt, mkWorld (files w) (mkLog l msg :: logs w)
                           (entropy w) (entropyUsed w) (randomCalls w)).

Definition logger_info := logMessage LInfo.
Definition logger_warn := logMessage LWarn.
Definition logger_error := logMessage LError.
Definition logger_debug := logMessage LDebug.

(** [ErrorHandler.captureError(error, source, context)]. *)
Definition captureError (e : JsError) (source context : jsstring) : M unit :=
  logger_error (source ++ js ": " ++ context).

(** [ErrorHandler.logAndThrow(message, source)]. *)
Definition logAndThrow {A} (message source : jsstring) : M A :=
  logger_error (source ++ js ": " ++ message) ;;;
  throw (mkError "Error" message).

(** The idiom of every method of the repository:
    [try { body } catch (error) { ErrorHandler.captureError(error, source,
    context); throw error; }]. *)
Definition rethrowing {A} (source context : string) (body : M A) : M A :=
  tryCatch body (fun e => captureError e (js source) (js context) ;;; throw e).

Definition lift {A} (o : Outcome A) : M A := fun w => (o, w).

(** ** TextEncoder and TextDecoder (WHATWG Encoding Standard, UTF-8) *)

Module TextCodec.

Definition isHighSurrogate (c : N) : bool := ((0xD800 <=? c) && (c <=? 0xDBFF))%N.
Definition isLowSurrogate (c : N) : bool := ((0xDC00 <=? c) && (c <=? 0xDFFF))%N.

Definition REPLACEMENT : N := 0xFFFD.
Definition BOM : N := 0xFEFF.

(** The code points of a string as [TextEncoder.encode] reads it: surrogate
    pairs are combined and an unpaired surrogate is replaced by U+FFFD. *)
Fixpoint codePoints (s : jsstring) : list N :=
  match s with
  | [] => []
  | c :: rest =>
      if isHighSurrogate c then
        match rest with
        | d :: rest' =>
            if isLowSurrogate d
            then (0x10000 + (c - 0xD800) * 0x400 + (d - 0xDC00))%N :: codePoints rest'
            else REPLACEMENT :: codePoints rest
        | [] => [REPLACEMENT]
        end
      else if isLowSurrogate c then REPLACEMENT :: codePoints rest
      else c :: codePoints rest
  end.

Definition utf8_of_codePoint (cp : N) : list N :=
  (if cp <? 0x80 then [cp]
   else if cp <? 0x800 then [0xC0 + cp / 0x40; 0x80 + cp mod 0x40]
   else if cp <? 0x10000 then
     [0xE0 + cp / 0x1000; 0x80 + (cp / 0x40) mod 0x40; 0x80 + cp mod 0x40]
   else
     [0xF0 + cp / 0x40000; 0x80 + (cp / 0x1000) mod 0x40;
      0x80 + (cp / 0x40) mod 0x40; 0x80 + cp mod 0x40])%N.

Definition byte_of_N (n : N) : byte :=
  match Byte.of_N n with Some b => b | None => x00 end.

(** [new TextEncoder().encode(s)]. *)
Definition TextEncoder_encode (s : jsstring) : list byte :=
  map byte_of_N (flat_map utf8_of_codePoint (codePoints s)).

Definition inRange (lo hi b : N) : bool := ((lo <=? b) && (b <=? hi))%N.

(** The UTF-8 decoder in replacement mode: an ill-formed sequence yields
    U+FFFD and decoding resumes at the byte that broke it. *)
Fixpoint utf8_decode (bs : list N) : list N :=
  match bs with
  | [] => []
  | b0 :: r0 =>
      if (b0 <=? 0x7F)%N then b0 :: utf8_decode r0
      else if inRange 0xC2 0xDF b0 then
        match r0 with
        | [] => [REPLACEMENT]
        | b1 :: r1 =>
            if inRange 0x80 0xBF b1
            then ((b0 - 0xC0) * 0x40 + (b1 - 0x80))%N :: utf8_decode r1
            else REPLACEMENT :: utf8_decode r0
        end
      else if inRange 0xE0 0xEF b0 then
        let lo := if (b0 =? 0xE0)%N then 0xA0%N else 0x80%N in
        let hi := if (b0 =? 0xED)%N then 0x9F%N else 0xBF%N in
        match r0 with
        | [] => [REPLACEMENT]
        | b1 :: r1 =>
            if inRange lo hi b1 then
              match r1 with
              | [] => [REPLACEMENT]
              | b2 :: r2 =>
                  if inRange 0x80 0xBF b2
                  then (((b0 - 0xE0) * 0x40 + (b1 - 0x80)) * 0x40 + (b2 - 0x80))%N
                         :: utf8_decode r2
                  else REPLACEMENT :: utf8_decode r1
              end
            else REPLACEMENT :: utf8_decode r0
        end
      else if inRange 0xF0 0xF4 b0 then
        let lo := if (b0 =? 0xF0)%N then 0x90%N else 0x80%N in
        let hi := if (b0 =? 0xF4)%N then 0x8F%N else 0xBF%N in
        match r0 with
        | [] => [REPLACEMENT]
        | b1 :: r1 =>
            if inRange lo hi b1 then
              match r1 with
              | [] => [REPLACEMENT]
              | b2 :: r2 =>
                  if inRange 0x80 0xBF b2 then
                    match r2 with
                    | [] => [REPLACEMENT]
                    | b3 :: r3 =>
                        if inRange 0x80 0xBF b3
                        then ((((b0 - 0xF0) * 0x40 + (b1 - 0x80)) * 0x40
                               + (b2 - 0x80)) * 0x40 + (b3 - 0x80))%N
                               :: utf8_decode r3
                        else REPLACEMENT :: utf8_decode r2
                    end
                  else REPLACEMENT :: utf8_decode r1
              end
            else REPLACEMENT :: utf8_decode r0
        end
      else REPLACEMENT :: utf8_decode r0
  end.

Definition utf16_of_codePoint (cp : N) : list N :=
  (if cp <? 0x10000 then [cp]
   else [0xD800 + (cp - 0x10000) / 0x400; 0xDC00 + (cp - 0x10000) mod 0x400])%N.

(** The decoder is created with its default options, so a leading byte order
    mark EF BB BF is removed ([ignoreBOM] is false). *)
Definition stripBOM (bs : list N) : list N :=
  if startsWith bs [0xEF; 0xBB; 0xBF]%N then skipn 3 bs else bs.

(** [new TextDecoder().decode(buffer)]. *)
Definition TextDecoder_decode (bs : list byte) : jsstring :=
  flat_map utf16_of_codePoint (utf8_decode (stripBOM (map Byte.to_N bs))).

(** A string without unpaired surrogates (every element a 16-bit code unit). *)
Fixpoint wellFormed (s : jsstring) : bool :=
  match s with
  | [] => true
  | c :: rest =>
      if isHighSurrogate c then
        match rest with
        | d :: rest' => isLowSurrogate d && wellFormed rest'
        | [] => false
        end
      else negb (isLowSurrogate c) && (c <? 0x10000)%N && wellFormed rest
  end.

End TextCodec.
Export TextCodec.

(** ** Plain objects used as maps: [Record<string, string>] *)

Module JsObject.

(** The own properties of an object in the order they were created; keys are
    distinct.  [Record] is TypeScript's [Record<string, string>]. *)
Abbreviation RecordOf V := (list (list N * V)) (only parsing).
Abbreviation Record := (list (list N * list N)) (only parsing).

(** The own property [k], if there is one. *)
Fixpoint get {V} (o : RecordOf V) (k : jsstring) : option V :=
  match o with
  | [] => None
  | (k', v) :: rest => if eqb k' k then Some v else get rest k
  end.

(** The own property [k] is created or updated; an existing property keeps
    its place. *)
Fixpoint store {V} (o : RecordOf V) (k : jsstring) (v : V) : RecordOf V :=
  match o with
  | [] => [(k, v)]
  | (k', v') :: rest =>
      if eqb k' k then (k', v) :: rest else (k', v') :: store rest k v
  end.

(** The objects of this program are created by [{}] and so inherit from
    [Object.prototype]: its methods, and the accessor [__proto__]. *)
Definition PROTO : jsstring := js "__proto__".

Definition prototypeMethods : list jsstring :=
  [ js "constructor"; js "hasOwnProperty"; js "isPrototypeOf";
    js "propertyIsEnumerable"; js "toLocaleString"; js "toString"; js "valueOf";
    js "__defineGetter__"; js "__defineSetter__";
    js "__lookupGetter__"; js "__lookupSetter__" ].

Definition isPrototypeMethod (k : jsstring) : bool := existsb (eqb k) prototypeMethods.

(** [o[k] = v].  For the key [__proto__] the assignment runs the inherited
    setter, which creates no own property (it ignores a string, and the only
    object assigned here is [Object.prototype] itself, which the object has
    as its prototype already).  For every other key the inherited property,
    if any, is a writable data property, and the assignment creates or
    updates the own property. *)
Definition set {V} (o : RecordOf V) (k : jsstring) (v : V) : RecordOf V :=
  if eqb k PROTO then o else store o k v.

(** What a property read gives in this program: a string of the file, a
    method inherited from [Object.prototype], or that prototype itself. *)
Inductive PropertyValue : Type :=
| Text (s : jsstring)
| Method (name : jsstring)
| Prototype.

(** ToBoolean: an object or a function is truthy. *)
Definition truthyProperty (v : PropertyValue) : bool :=
  match v with
  | Text s => truthy s
  | Method _ | Prototype => true
  end.

(** [o[k]] as an expression: the own property, else the inherited one, else
    [undefined]. *)
Definition readProperty (o : Record) (k : jsstring) : option PropertyValue :=
  match get o k with
  | Some v => Some (Text v)
  | None =>
      if eqb k PROTO then Some Prototype
      else if isPrototypeMethod k then Some (Method k)
      else None
  end.

(** A record of strings as a record of values. *)
Definition asValues (o : Record) : RecordOf PropertyValue :=
  map (fun e => (fst e, Text (snd e))) o.

Definition isDigit (c : N) : bool := ((0x30 <=? c) && (c <=? 0x39))%N.

Fixpoint decimalValue (acc : N) (s : jsstring) : N :=
  match s with
  | [] => acc
  | c :: rest => decimalValue (acc * 10 + (c - 0x30))%N rest
  end.

(** A key is an array index when it is the canonical decimal form of an
    integer below 2^32 - 1. *)
Definition arrayIndex (k : jsstring) : option N :=
  match k with
  | [] => None
  | c :: rest =>
      if forallb isDigit k
         && (negb (c =? 0x30)%N || match rest with [] => true | _ => false end)
      then let n := decimalValue 0 k in
           if (n <? 0xFFFFFFFF)%N then Some n else None
      else None
  end.

Fixpoint insertByIndex {V} (n : N) (e : jsstring * V)
    (l : list (N * (jsstring * V))) : list (N * (jsstring * V)) :=
  match l with
  | [] => [(n, e)]
  | (m, e') :: rest =>
      if (n <? m)%N then (n, e) :: l else (m, e') :: insertByIndex n e rest
  end.

Definition indexed {V} (o : RecordOf V) : list (N * (jsstring * V)) :=
  fold_right (fun e acc =>
                match arrayIndex (fst e) with
                | Some n => insertByIndex n e acc
                | None => acc
                end) [] o.

Definition named {V} (o : RecordOf V) : RecordOf V :=
  filter (fun e => match arrayIndex (fst e) with None => true | Some _ => false end) o.

(** [Object.entries(o)]: array-index keys in ascending numeric order, then the
    other keys in creation order (OrdinaryOwnPropertyKeys). *)
Definition Object_entries {V} (o : RecordOf V) : list (jsstring * V) :=
  map snd (indexed o) ++ named o.

(** [Object.keys(o).length]. *)
Definition Object_keys_length {V} (o : RecordOf V) : nat := length (Object_entries o).

(** [Object.assign(target, source)]: every own property of the source is
    assigned to the target. *)
Definition Object_assign {V} (target source : RecordOf V) : RecordOf V :=
  fold_left (fun t e => set t (fst e) (snd e)) (Object_entries source) target.

End JsObject.
Export JsObject.

(** ** JSON values *)

#[local] Unset Elimination Schemes.
Inductive JsonValue : Type :=
| JNull
| JBool (b : bool)
| JNumber (mantissa exponent : Z)
| JString (s : jsstring)
| JArray (items : list JsonValue)
| JObject (members : list (jsstring * JsonValue)).
#[local] Set Elimination Schemes.

(** [k in v] for a parsed value that passed [typeof v === 'object' && v !== null]. *)
Definition hasProperty (v : JsonValue) (k : jsstring) : bool :=
  match v with
  | JObject members => existsb (fun m => eqb (fst m) k) members
  | _ => false
  end.

Definition isObjectNotNull (v : JsonValue) : bool :=
  match v with
  | JObject _ | JArray _ => true
  | _ => false
  end.

(** [v[k]]; [None] is [undefined]. *)
Definition getProperty (v : JsonValue) (k : jsstring) : option JsonValue :=
  match v with
  | JObject members =>
      match find (fun m => eqb (fst m) k) members with
      | Some m => Some (snd m)
      | None => None
      end
  | _ => None
  end.

(** ToBoolean of a property read from a parsed value. *)
Definition truthyValue (v : option JsonValue) : bool :=
  match v with
  | None => false
  | Some JNull => false
  | Some (JBool b) => b
  | Some (JNumber m _) => negb (m =? 0)%Z
  | Some (JString s) => truthy s
  | Some (JArray _) => true
  | Some (JObject _) => true
  end.

(** ** The platform *)

Record Platform := mkPlatform {
  (** [CRYPTO_CONFIG.BYTE_LENGTHS] *)
  IV_LENGTH : Z;
  WEB_CRYPTO_IV_LENGTH : Z;
  SALT_LENGTH : Z;
  SECRET_KEY_LENGTH : Z;
  (** [argon2.hash(secret, { type: argon2id, hashLength, salt, memoryCost,
      timeCost, parallelism, raw: true })] with the constants of
      [CRYPTO_CONFIG]. *)
  argon2_hash : jsstring -> list byte -> Outcome (list byte);
  (** [crypto.subtle.importKey('raw', bytes, { name: 'AES-GCM' }, false,
      ['encrypt', 'decrypt'])]; the key handle is represented by its bytes. *)
  subtle_importKey : list byte -> Outcome (list byte);
  (** [crypto.subtle.encrypt({ name: 'AES-GCM', iv }, key, data)] as
      [subtle_encrypt key iv data], and its inverse. *)
  subtle_encrypt : list byte -> list byte -> list byte -> Outcome (list byte);
  subtle_decrypt : list byte -> list byte -> list byte -> Outcome (list byte);
  (** [buffer.toString('base64')] and [Buffer.from(s, 'base64')]. *)
  base64_encode : list byte -> jsstring;
  base64_decode : jsstring -> list byte;
  (** [Buffer.from(v, 'base64')] for a value that is not a string. *)
  Buffer_from_other : JsonValue -> Outcome (list byte);
  JSON_stringify : JsonValue -> jsstring;
  JSON_parse : jsstring -> Outcome JsonValue;
  (** [typeof crypto !== 'undefined' && crypto.subtle !== undefined] *)
  hasWebCrypto : bool;
  (** [new RegExp(source, 'm').test(text)] for a source outside the fragment
      that [EnvironmentFileManager] below interprets itself. *)
  RegExp_test_m : jsstring -> jsstring -> Outcome bool
}.

(** ** Node's file system and random generator *)

Definition setFile (w : World) (path content : jsstring) : World :=
  mkWorld (fun p => if eqb p path then Some content else files w p)
          (logs w) (entropy w) (entropyUsed w) (randomCalls w).

(** [fs.readFileSync(path, 'utf8')]: file contents are kept as decoded text. *)
Definition fs_readFileSync (path : jsstring) : M jsstring :=
  fun w =>
    match files w path with
    | Some content => (Ok content, w)
    | None => (Throw (mkError "Error" (js "ENOENT: no such file or directory")), w)
    end.

(** [fs.promises.writeFile(path, content, { encoding })]. *)
Definition fs_writeFile (path content : jsstring) : M unit :=
  fun w => (Ok tt, setFile w path content).

Definition takeEntropy (n : nat) (w : World) : list byte :=
  map (entropy w) (seq (entropyUsed w) n).

Definition consumeEntropy (n : nat) (w : World) : World :=
  mkWorld (files w) (logs w) (entropy w) (entropyUsed w + n) (S (randomCalls w)).

(** [crypto.randomBytes(size)]: the size must lie in 0 .. 2^31 - 1. *)
Definition crypto_randomBytes (size : Z) : M (list byte) :=
  fun w =>
    if ((size <? 0) || (2147483647 <? size))%Z
    then (Throw (mkError "RangeError" (js "The value of 'size' is out of range.")),
          consumeEntropy 0 w)
    else (Ok (takeEntropy (Z.to_nat size) w), consumeEntropy (Z.to_nat size) w).

(** [crypto.getRandomValues(new Uint8Array(length))]: the array constructor
    refuses a negative length, the generator more than 65536 bytes. *)
Definition crypto_getRandomValues (length : Z) : M (list byte) :=
  fun w =>
    if (length <? 0)%Z
    then (Throw (mkError "RangeError" (js "Invalid typed array length")), w)
    else if (65536 <? length)%Z
    then (Throw (mkError "QuotaExceededError" (js "The requested length exceeds 65,536 bytes")),
          consumeEntropy 0 w)
    else (Ok (takeEntropy (Z.to_nat length) w), consumeEntropy (Z.to_nat length) w).

Record EncryptionParameters := mkParams {
  salt : jsstring;
  iv : jsstring;
  cipherText : jsstring
}.

(** The object literal [{ salt, iv, cipherText }]. *)
Definition paramsObject (p : EncryptionParameters) : JsonValue :=
  JObject [ (js "salt", JString (salt p));
            (js "iv", JString (iv p));
            (js "cipherText", JString (cipherText p)) ].

(** The fields of [EnvironmentFileManager] that the methods below read. *)
Record EnvironmentFileManager := mkManager {
  environmentFilePath : jsstring;
  secretKeyVariable : jsstring;
  baseEnvironmentFilePath : jsstring
}.

(** What [encryptIfNeeded] returns: its argument, or fresh parameters. *)
Inductive MaybeEncrypted :=
| Unchanged (value : jsstring)
| Encrypted (p : EncryptionParameters).

Section Services.

Variable P : Platform.

(** ** SecureKeyGenerator (secureKeyGenerator.ts) *)

Definition generateBase64IV (length : Z) : M jsstring :=
  if (length <=? 0)%Z
  then throw (mkError "Error" (js "IV length must be greater than zero."))
  else rethrowing "generateBase64IV" "Failed to generate IV"
         (bytes <- crypto_randomBytes length ;;
          ret (base64_encode P bytes)).

Definition generateBufferIV (length : Z) : M (list byte) :=
  if (length <=? 0)%Z
  then throw (mkError "Error" (js "IV length must be greater than zero."))
  else rethrowing "generateBufferIV" "Failed to generate IV"
         (crypto_randomBytes length).

Definition isWebCryptoIv : bool := hasWebCrypto P.

Definition generateWebCryptoIV (length : Z) : M (list byte) :=
  if (length <=? 0)%Z
  then throw (mkError "Error" (js "IV length must be greater than zero."))
  else rethrowing "generateWebCryptoIV" "Failed to generate IV"
         (iv <- (if isWebCryptoIv
                 then crypto_getRandomValues length
                 else crypto_randomBytes length) ;;
          ret iv).

Definition generateBase64Salt (length : Z) : M jsstring :=
  if (length <=? 0)%Z
  then throw (mkError "Error" (js "Salt length must be greater than zero."))
  else rethrowing "generateBase64Salt" "Failed to generate salt"
         (bytes <- crypto_randomBytes length ;;
          ret (base64_encode P bytes)).

Definition generateBase64SecretKey (length : Z) : M jsstring :=
  rethrowing "generateBase64SecretKey" "Failed to generate base64 secret key"
    (bytes <- crypto_randomBytes length ;;
     ret (base64_encode P bytes)).

(** ** EncryptionService (encryptionService.ts) *)

(** [Buffer.from(v, 'base64')]. *)
Definition Buffer_from_base64 (v : JsonValue) : Outcome (list byte) :=
  match v with
  | JString s => Ok (base64_decode P s)
  | _ => Buffer_from_other P v
  end.

Definition argon2Hashing (secretKey : jsstring) (saltBuffer : list byte) : M (list byte) :=
  rethrowing "argon2Hashing" "Failed to derive key using Argon2 hashing."
    (lift (argon2_hash P secretKey saltBuffer)).

(** With [raw: true] the hash is a Buffer, and [Buffer.from(buffer, 'utf8')]
    copies it. *)
Definition importKeyForCrypto (keyBuffer : list byte) : M (list byte) :=
  rethrowing "importKeyForCrypto" "Failed to import key for Web Crypto API."
    (lift (subtle_importKey P keyBuffer)).

Definition deriveKeyWithArgon2 (secretKey : jsstring) (salt : JsonValue) : M (list byte) :=
  rethrowing "deriveKeyWithArgon2" "Failed to derive key."
    (saltBuffer <- lift (Buffer_from_base64 salt) ;;
     keyBuffer <- argon2Hashing secretKey saltBuffer ;;
     importKeyForCrypto keyBuffer).

Definition encryptBuffer (webCryptoIv key : list byte) (value : jsstring) : M (list byte) :=
  rethrowing "encrypt" "Failed to encrypt with AES-GCM."
    (lift (subtle_encrypt P key webCryptoIv (TextEncoder_encode value))).

Definition encrypt (value secretKey : jsstring) : M EncryptionParameters :=
  rethrowing "encrypt" "Failed to encrypt with AES-GCM."
    (salt <- generateBase64Salt (SALT_LENGTH P) ;;
     webCryptoIv <- generateWebCryptoIV (WEB_CRYPTO_IV_LENGTH P) ;;
     key <- deriveKeyWithArgon2 secretKey (JString salt) ;;
     encryptedBuffer <- encryptBuffer webCryptoIv key value ;;
     ret (mkParams salt
                   (base64_encode P webCryptoIv)
                   (base64_encode P encryptedBuffer))).

Definition decryptBuffer (ivBuffer key cipherBuffer : list byte) : M (list byte) :=
  rethrowing "decrypt" "Failed to decrypt with AES-GCM."
    (lift (subtle_decrypt P key ivBuffer cipherBuffer)).

(** Destructuring [null] is a TypeError; a property that is missing reads as
    [undefined]. *)
Definition validateParsedData (params : JsonValue) : M unit :=
  rethrowing "validateParsedData" "Failed to validate encryption parameters."
    (match params with
     | JNull => throw (mkError "TypeError" (js "Cannot destructure property 'salt' of null"))
     | _ =>
         if negb (truthyValue (getProperty params (js "salt")))
            || negb (truthyValue (getProperty params (js "iv")))
            || negb (truthyValue (getProperty params (js "cipherText")))
         then logAndThrow (js "Missing required properties in encryption parameters.")
                          (js "validateParsedData")
         else ret tt
     end).

Definition parseEncryptedData (encryptedData : jsstring) : M JsonValue :=
  rethrowing "parseEncryptedData" "Failed to parse encrypted data"
    ((if negb (truthy encryptedData)
      then logAndThrow (js "Encrypted data is required.") (js "parseEncryptedData")
      else ret tt) ;;;
     parsedData <- lift (JSON_parse P encryptedData) ;;
     validateParsedData parsedData ;;;
     ret parsedData).

(** A property that passed validation and is read as an argument. *)
Definition field (v : JsonValue) (k : jsstring) : JsonValue :=
  match getProperty v k with Some x => x | None => JNull end.

Definition decrypt (encryptedData secretKey : jsstring) : M jsstring :=
  rethrowing "decrypt" "Failed to decrypt with AES-GCM."
    (parsedData <- parseEncryptedData encryptedData ;;
     key <- deriveKeyWithArgon2 secretKey (field parsedData (js "salt")) ;;
     ivBuffer <- lift (Buffer_from_base64 (field parsedData (js "iv"))) ;;
     cipherBuffer <- lift (Buffer_from_base64 (field parsedData (js "cipherText"))) ;;
     decryptedBuffer <- decryptBuffer ivBuffer key cipherBuffer ;;
     ret (TextDecoder_decode decryptedBuffer)).

(** ** FileManager.writeFile (fileManager.ts) *)

Definition validatePath (filePath paramName : jsstring) : M unit :=
  (if negb (truthy filePath)
   then logAndThrow (js "Invalid arguments: '" ++ paramName ++ js "' is required.")
                    (js "validatePath")
   else ret tt) ;;;
  if eqb paramName (js "filePath")
     && (endsWith filePath (js "/") || endsWith filePath [BACKSLASH])
  then logAndThrow (js "Invalid file path: '" ++ filePath
                      ++ js "' cannot end with a directory separator.")
                   (js "validatePath")
  else ret tt.

(** [ensureDirectoryExists] creates the parent directory and swallows its own
    errors; it touches no file. *)
Definition FileManager_writeFile (filePath content keyName : jsstring) : M unit :=
  validatePath filePath (js "filePath") ;;;
  (if negb (truthy content)
   then logger_warn (js "No content provided for file: " ++ keyName) ;;;
        throw (mkError "Error" (js "No content provided for file: " ++ keyName))
   else ret tt) ;;;
  rethrowing "writeFile" "Failed to write file"
    (fs_writeFile filePath content).

(** ** EncryptionServiceUtils (encryptionServiceUtils.ts) *)

Variable mgr : EnvironmentFileManager.

Definition readEnvFileAsLines : M (list jsstring) :=
  rethrowing "readEnvFile" "Failed to read environment file"
    (content <- fs_readFileSync (environmentFilePath mgr) ;;
     ret (split content NEWLINE)).

Definition writeEnvFileLines (lines : list jsstring) : M unit :=
  rethrowing "writeEnvFile" "Failed to write encrypted lines to environment file"
    (FileManager_writeFile (environmentFilePath mgr) (join lines NEWLINE) (js "utf8")).

Definition parseEnvironmentLine (line : jsstring) : option (jsstring * jsstring) :=
  let trimmedLine := trim line in
  if eqb trimmedLine [] || negb (includes trimmedLine EQUALS) then None
  else
    match split trimmedLine EQUALS with
    | key :: valueParts =>
        let value := join valueParts EQUALS in
        if truthy key && truthy value then Some (trim key, trim value) else None
    | [] => None
    end.

Definition extractEnvironmentVariables (lines : list jsstring) : Record :=
  fold_left (fun variables line =>
               match parseEnvironmentLine line with
               | Some (key, value) => set variables key value
               | None => variables
               end) lines [].

(** The second half of [findEnvironmentVariable]: the first entry whose value
    is the lookup. *)
Definition findByValue (allEnvVariables : Record) (lookupValue : jsstring)
  : M (RecordOf PropertyValue) :=
  match find (fun e => eqb (snd e) lookupValue) (Object_entries allEnvVariables) with
  | Some (key, value) =>
      logger_info (js "Environment variable key '" ++ key ++ js "' found") ;;;
      ret (set [] key (Text value))
  | None => ret []
  end.

(** [allEnvVariables[lookupValue]] is falsy when the property is missing, own
    or inherited, or holds the empty string.  What it holds otherwise, a
    string or an inherited member, is assigned to the result. *)
Definition findEnvironmentVariable (allEnvVariables : Record) (lookupValue : jsstring)
  : M (RecordOf PropertyValue) :=
  match readProperty allEnvVariables lookupValue with
  | Some v =>
      if truthyProperty v then ret (set [] lookupValue v)
      else findByValue allEnvVariables lookupValue
  | None => findByValue allEnvVariables lookupValue
  end.

(** ToBoolean of an object reference: always true. *)
Definition truthyObject (o : RecordOf PropertyValue) : bool := true.

Fixpoint determineLookups (allEnvVariables : Record) (envVariables : list jsstring)
    (variablesToEncrypt : RecordOf PropertyValue) : M (RecordOf PropertyValue) :=
  match envVariables with
  | [] => ret variablesToEncrypt
  | lookupValue :: rest =>
      found <- findEnvironmentVariable allEnvVariables lookupValue ;;
      (if negb (truthyObject found)
       then logger_warn (js "Environment variable with key or value '" ++ lookupValue
                           ++ js "' not found in the file.")
       else ret tt) ;;;
      determineLookups allEnvVariables rest (Object_assign variablesToEncrypt found)
  end.

(** [envVariables] is [None] when the argument is omitted. *)
Definition determineVariablesToEncrypt (allEnvVariables : Record)
    (envVariables : option (list jsstring)) : M (RecordOf PropertyValue) :=
  match envVariables with
  | Some (lookupValue :: rest) =>
      determineLookups allEnvVariables (lookupValue :: rest) []
  | _ => ret (Object_assign [] (asValues allEnvVariables))
  end.

Definition isAlreadyEncrypted (value : jsstring) : M bool :=
  if negb (truthy value)
  then logger_warn (js "Environment variable cannot be null or empty.") ;;; ret false
  else
    let trimmedValue := trim value in
    if negb (startsWith trimmedValue [LBRACE] && endsWith trimmedValue [RBRACE])
    then ret false
    else
      tryCatch
        (parsedData <- lift (JSON_parse P value) ;;
         ret (isObjectNotNull parsedData
              && hasProperty parsedData (js "salt")
              && hasProperty parsedData (js "iv")
              && hasProperty parsedData (js "cipherText")))
        (fun error =>
           logger_error (js "Error parsing environment variable: " ++ errMessage error) ;;;
           ret false).

Definition encryptIfNeeded (value secretKey : jsstring) : M MaybeEncrypted :=
  already <- isAlreadyEncrypted value ;;
  if already then ret (Unchanged value)
  else
    encryptedResult <- encrypt value secretKey ;;
    ret (Encrypted (mkParams (salt encryptedResult) (iv encryptedResult)
                             (cipherText encryptedResult))).

Definition updateEnvironmentLines (existingLines : list jsstring)
    (envVariable value : jsstring) : list jsstring :=
  let isUpdated :=
    existsb (fun line => startsWith line (envVariable ++ [EQUALS])) existingLines in
  let updatedLines :=
    map (fun line =>
           if startsWith line (envVariable ++ [EQUALS])
           then envVariable ++ [EQUALS] ++ value
           else line) existingLines in
  if isUpdated then updatedLines
  else updatedLines ++ [envVariable ++ [EQUALS] ++ value].

(** [!encryptedValue || encryptedValue === value]: an object is truthy and is
    never identical to a string. *)
Definition skipsEncryption (encryptedValue : MaybeEncrypted) (value : PropertyValue)
  : bool :=
  match encryptedValue with
  | Unchanged s =>
      negb (truthy s) || match value with Text s' => eqb s s' | _ => false end
  | Encrypted _ => false
  end.

(** [value.trim()]: a value that is not a string has no such method, and the
    call throws a TypeError. *)
Definition value_trim (value : PropertyValue) : M jsstring :=
  match value with
  | Text s => ret (trim s)
  | Method _ | Prototype =>
      throw (mkError "TypeError" (js "value.trim is not a function"))
  end.

(** The argument of [JSON.stringify(encryptedValue)]. *)
Definition toJson (encryptedValue : MaybeEncrypted) : JsonValue :=
  match encryptedValue with
  | Unchanged s => JString s
  | Encrypted p => paramsObject p
  end.

(** The [for ... of Object.entries(variablesToEncrypt)] loop. *)
Fixpoint processEntries (entries : list (jsstring * PropertyValue))
    (updatedLines : list jsstring) (encryptedCount : nat)
  : M (list jsstring * nat) :=
  match entries with
  | [] => ret (updatedLines, encryptedCount)
  | (key, value) :: rest =>
      if truthyProperty value then
        trimmed <- value_trim value ;;
        encryptedValue <- encryptIfNeeded trimmed (secretKeyVariable mgr) ;;
        if skipsEncryption encryptedValue value then
          logger_info (js "Skipping encryption: '" ++ key ++ js "' is already encrypted.") ;;;
          processEntries rest updatedLines encryptedCount
        else
          processEntries rest
            (updateEnvironmentLines updatedLines key
               (JSON_stringify P (toJson encryptedValue)))
            (S encryptedCount)
      else processEntries rest updatedLines encryptedCount
  end.

Definition processVariablesForEncryption (envFileLines : list jsstring)
    (variablesToEncrypt : RecordOf PropertyValue) : M (list jsstring * nat) :=
  processEntries (Object_entries variablesToEncrypt) envFileLines 0.

Definition logEncryptionSuccess (originalCount encryptedCount : nat) : M unit :=
  rethrowing "logEncryptionSuccess" "Failed to log encryption success"
    (if (0 <? encryptedCount)%nat
     then logger_info (js "Encryption complete. Successfully encrypted variable(s) in the "
                         ++ environmentFilePath mgr ++ js " file.")
     else ret tt).

(** [encryptEnvVariables] returns nothing; the model returns the
    [encryptedCount] that it passes to [logEncryptionSuccess]. *)
Definition encryptEnvVariables (envVariables : option (list jsstring)) : M nat :=
  rethrowing "encryptEnvParameters" "Failed to encrypt environment parameters"
    (envFileLines <- readEnvFileAsLines ;;
     let allEnvVariables := extractEnvironmentVariables envFileLines in
     variablesToEncrypt <- determineVariablesToEncrypt allEnvVariables envVariables ;;
     result <- processVariablesForEncryption envFileLines variablesToEncrypt ;;
     writeEnvFileLines (fst result) ;;;
     logEncryptionSuccess (Object_keys_length variablesToEncrypt) (snd result) ;;;
     ret (snd result)).

Definition generateSecretKey : M jsstring :=
  rethrowing "generateSecretKey" "Failed to generate secret key"
    (generateBase64SecretKey (SECRET_KEY_LENGTH P)).

(** ** EnvironmentFileManager (environmentFileManager.ts) *)

Definition readBaseEnvFile : M jsstring :=
  rethrowing "readEnvFile" "Failed to read .env file"
    (fs_readFileSync (baseEnvironmentFilePath mgr)).

Definition writeKeyToBaseEnvFile (content keyName : jsstring) : M unit :=
  rethrowing "writeEnvFile" "Failed to write key to .env file"
    (FileManager_writeFile (baseEnvironmentFilePath mgr) content keyName ;;;
     logger_info (keyName ++ js " written to .env file")).

Definition DOT : N := 0x2E.

(** The syntax characters of a regular expression pattern. *)
Definition isSyntaxCharacter (c : N) : bool :=
  existsb (fun x => (x =? c)%N) (js "^$\.*+?()[]{}|").

(** The patterns interpreted here: ordinary characters and the wildcard. *)
Definition inFragment (source : jsstring) : bool :=
  forallb (fun c => negb (isSyntaxCharacter c) || (c =? DOT)%N) source.

Fixpoint matchHere (pattern text : jsstring) {struct pattern} : bool :=
  match pattern, text with
  | [], _ => true
  | p :: pattern', c :: text' =>
      (if (p =? DOT)%N then negb (isLineTerminator c) else (c =? p)%N)
      && matchHere pattern' text'
  | _ :: _, [] => false
  end.

(** Does [pattern] match at the start of some line of [text]?  With the [m]
    flag the caret matches at the start of the input and after every line
    terminator. *)
Fixpoint matchAtLineStart (pattern text : jsstring) (atLineStart : bool) : bool :=
  match text with
  | [] => atLineStart && matchHere pattern []
  | c :: rest =>
      (atLineStart && matchHere pattern text)
      || matchAtLineStart pattern rest (isLineTerminator c)
  end.

(** [new RegExp(`^${keyName}=`, 'm').test(text)]: the key name is spliced into
    the pattern as it is. *)
Definition keyExistsRegex (keyName text : jsstring) : Outcome bool :=
  if inFragment keyName
  then Ok (matchAtLineStart (keyName ++ [EQUALS]) text true)
  else RegExp_test_m P (js "^" ++ keyName ++ [EQUALS]) text.

Definition storeBaseEnvKey (keyName keyValue : jsstring) : M unit :=
  rethrowing "storeKeyInEnv" "Failed to store key in .env file"
    (envFilePaths <- readBaseEnvFile ;;
     keyExists <- lift (keyExistsRegex keyName envFilePaths) ;;
     if keyExists then
       logger_info (js "The environment secret key '" ++ keyName
                      ++ js "' already exists. Please remove it if you want to generate a new one.")
     else
       writeKeyToBaseEnvFile (envFilePaths ++ [NEWLINE] ++ keyName ++ [EQUALS] ++ keyValue)
                             keyName ;;;
       logger_info (js "Successfully added the environment secret key '" ++ keyName ++ js "'.")).

Definition storeSecretKeyInEnvironmentFile (keyName keyValue : jsstring) : M unit :=
  rethrowing "storeSecretKeyInEnvironmentFile" "Failed to store secret key in environment file"
    (storeBaseEnvKey keyName keyValue).

(** [EnvironmentEncryptionManager.createAndSaveSecretKey]: the generated key is
    a string, never [undefined] or [null]. *)
Definition createAndSaveSecretKey (keyName : jsstring) : M unit :=
  rethrowing "createAndSaveSecretKey" "Failed to create and save secret key"
    (secretKey <- generateSecretKey ;;
     storeSecretKeyInEnvironmentFile keyName secretKey).

End Services.

(** ** Further methods of the same classes *)

Section FurtherServices.

Variable P : Platform.

(** [text.match(new RegExp(source, 'm'))], reduced to what [getKeyValue] reads
    of it (the first capture group of the match, if there is a match), for a
    source outside the fragment interpreted below. *)
Variable RegExp_match_m : jsstring -> jsstring -> Outcome (option jsstring).

(** [path.resolve(directory, name)]. *)
Variable path_resolve : jsstring -> jsstring -> jsstring.

(** *** EncryptionServiceUtils.getSecretKey and initializeEncryption *)

Definition getSecretKey (secretKey : jsstring) : M jsstring :=
  rethrowing "getSecretKey" "Failed to get secret key"
    ((if negb (truthy secretKey)
      then logAndThrow (js "Key not found in .env file") (js "getSecretKey")
      else ret tt) ;;;
     ret secretKey).

(** [initializeEncryption] assigns to two fields of the shared manager, one
    after the other: the manager is threaded like the world, and keeps the
    first assignment when the second statement throws.  The manager's field
    [environmentDirectory] is an argument here. *)
Definition initializeEncryption (environmentDirectory env secretKey : jsstring)
    (mgr : EnvironmentFileManager) (w : World)
  : Outcome unit * EnvironmentFileManager * World :=
  let mgr1 := mkManager (path_resolve environmentDirectory env)
                        (secretKeyVariable mgr) (baseEnvironmentFilePath mgr) in
  match getSecretKey secretKey w with
  | (Ok key, w1) =>
      (Ok tt,
       mkManager (environmentFilePath mgr1) key (baseEnvironmentFilePath mgr1), w1)
  | (Throw e, w1) =>
      (Throw e, mgr1,
       snd (captureError e (js "initializeEncryption")
                         (js "Failed to initialize encryption") w1))
  end.

(** *** EnvironmentEncryptionManager.encryptEnvironmentVariables *)

Definition encryptEnvironmentVariables
    (environmentDirectory envFilePath secretKeyVariable : jsstring)
    (envVariables : option (list jsstring))
    (mgr : EnvironmentFileManager) (w : World)
  : Outcome unit * EnvironmentFileManager * World :=
  match initializeEncryption environmentDirectory envFilePath secretKeyVariable mgr w with
  | (Ok _, mgr1, w1) =>
      match encryptEnvVariables P mgr1 envVariables w1 with
      | (Ok _, w2) => (Ok tt, mgr1, w2)
      | (Throw e, w2) =>
          (Throw e, mgr1,
           snd (captureError e (js "encryptEnvironmentVariables")
                             (js "Failed to encrypt environment variables") w2))
      end
  | (Throw e, mgr1, w1) =>
      (Throw e, mgr1,
       snd (captureError e (js "encryptEnvironmentVariables")
                         (js "Failed to encrypt environment variables") w1))
  end.

(** *** EnvironmentFileManager.getKeyValue *)

Variable mgr : EnvironmentFileManager.

(** What the greedy group, any characters but line terminators, captures:
    the characters up to the next line terminator. *)
Fixpoint restOfLine (text : jsstring) : jsstring :=
  match text with
  | [] => []
  | c :: rest => if isLineTerminator c then [] else c :: restOfLine rest
  end.

(** The first capture group of the leftmost match of the caret, the pattern,
    the greedy group and the dollar, with the flag [m], for a pattern of the
    fragment: each of its characters consumes one character of the text, the
    group takes the rest of the line, and the dollar matches there. *)
Fixpoint captureAtLineStart (pattern text : jsstring) (atLineStart : bool)
  : option jsstring :=
  match text with
  | [] => if atLineStart && matchHere pattern [] then Some [] else None
  | c :: rest =>
      if atLineStart && matchHere pattern text
      then Some (restOfLine (skipn (length pattern) text))
      else captureAtLineStart pattern rest (isLineTerminator c)
  end.

(** [text.match(regex)] for the regular expression built from the key name,
    an equals sign and the greedy group, and the choice
    [match ? match[1] : undefined]; [None] is [undefined]. *)
Definition keyValueRegex (keyName text : jsstring) : Outcome (option jsstring) :=
  if inFragment keyName
  then Ok (captureAtLineStart (keyName ++ [EQUALS]) text true)
  else RegExp_match_m (js "^" ++ keyName ++ js "=(.*)$") text.

Definition getKeyValue (keyName : jsstring) : M (option jsstring) :=
  rethrowing "getKeyValue" "Failed to read key from .env file"
    (envFilePaths <- readBaseEnvFile mgr ;;
     lift (keyValueRegex keyName envFilePaths)).

End FurtherServices.

(** ** What the proofs assume of the platform *)

Record PlatformOk (P : Platform) : Prop := mkPlatformOk {
  (** decoding base64 inverts encoding, and only the empty buffer encodes to
      the empty string *)
  base64_roundtrip : forall bs, base64_decode P (base64_encode P bs) = bs;
  base64_nonempty : forall bs, base64_encode P bs = [] -> bs = [];
  (** AES-GCM decrypts what it encrypted under the same key and IV, and a
      ciphertext carries the authentication tag, so it is never empty *)
  aes_gcm_roundtrip : forall key iv data ct,
      subtle_encrypt P key iv data = Ok ct -> subtle_decrypt P key iv ct = Ok data;
  aes_gcm_tag : forall key iv data, subtle_encrypt P key iv data = Ok [] -> False;
  (** [JSON.stringify] of [{ salt, iv, cipherText }] is one line of text in
      braces that [JSON.parse] reads back *)
  json_params_roundtrip : forall p,
      JSON_parse P (JSON_stringify P (paramsObject p)) = Ok (paramsObject p);
  json_params_braces : forall p, exists body,
      JSON_stringify P (paramsObject p) = LBRACE :: body ++ [RBRACE];
  json_params_one_line : forall p,
      includes (JSON_stringify P (paramsObject p)) NEWLINE = false
}.

(** ** A reference platform

    A small executable platform that satisfies [PlatformOk]: it makes the
    model runnable on concrete files.  Its cipher masks every byte with the
    first key byte and appends a 16-byte tag computed from IV and key; its
    base64 stand-in writes one character per byte; its JSON reads back the
    text it writes for encryption parameters. *)

Module Reference.

Definition bytes_eqb (a b : list byte) : bool :=
  eqb (map Byte.to_N a) (map Byte.to_N b).

Definition argon2 (secret : jsstring) (saltBuffer : list byte) : Outcome (list byte) :=
  Ok (firstn 32 (TextEncoder_encode secret ++ saltBuffer ++ repeat x2a 32)).

Definition importKey (raw : list byte) : Outcome (list byte) :=
  if ((length raw =? 16) || (length raw =? 24) || (length raw =? 32))%nat
  then Ok raw
  else Throw (mkError "DataError" (js "Invalid key length")).

Definition keyByte (key : list byte) : N :=
  match key with k :: _ => Byte.to_N k | [] => 0%N end.

Definition mask (k : N) (b : byte) : byte := byte_of_N ((Byte.to_N b + k) mod 256)%N.
Definition unmask (k : N) (b : byte) : byte := byte_of_N ((Byte.to_N b + 256 - k) mod 256)%N.

Definition tag (key iv : list byte) : list byte :=
  firstn 16 (iv ++ key ++ repeat x00 16).

Definition aesEncrypt (key iv data : list byte) : Outcome (list byte) :=
  Ok (map (mask (keyByte key)) data ++ tag key iv).

Definition aesDecrypt (key iv ct : list byte) : Outcome (list byte) :=
  let n := (length ct - 16)%nat in
  if (length ct <? 16)%nat || negb (bytes_eqb (skipn n ct) (tag key iv))
  then Throw (mkError "OperationError" (js "The operation failed for an operation-specific reason"))
  else Ok (map (unmask (keyByte key)) (firstn n ct)).

Definition toBase64 (bs : list byte) : jsstring := map Byte.to_N bs.
Definition fromBase64 (s : jsstring) : list byte := map byte_of_N s.

Definition escapeChar (c : N) : jsstring :=
  if (c =? DQUOTE)%N then [BACKSLASH; DQUOTE]
  else if (c =? BACKSLASH)%N then [BACKSLASH; BACKSLASH]
  else if (c =? NEWLINE)%N then [BACKSLASH; 0x6E%N]
  else [c].

Definition quote (s : jsstring) : jsstring :=
  DQUOTE :: flat_map escapeChar s ++ [DQUOTE].

Definition unescapeChar (c : N) : N := if (c =? 0x6E)%N then NEWLINE else c.

(** Reads a string literal after its opening quote: the text and what
    follows the closing quote. *)
Fixpoint unquote (s : jsstring) : option (jsstring * jsstring) :=
  match s with
  | [] => None
  | c :: rest =>
      if (c =? DQUOTE)%N then Some ([], rest)
      else if (c =? BACKSLASH)%N then
        match rest with
        | [] => None
        | e :: rest' =>
            match unquote rest' with
            | Some (x, tail) => Some (unescapeChar e :: x, tail)
            | None => None
            end
        end
      else
        match unquote rest with
        | Some (x, tail) => Some (c :: x, tail)
        | None => None
        end
  end.

Fixpoint stringify (v : JsonValue) : jsstring :=
  match v with
  | JNull => js "null"
  | JBool true => js "true"
  | JBool false => js "false"
  | JNumber _ _ => js "0"
  | JString s => quote s
  | JArray items => js "[" ++ join (map stringify items) 0x2C%N ++ js "]"
  | JObject members =>
      LBRACE :: join (map (fun m => quote (fst m) ++ js ":" ++ stringify (snd m)) members)
                     0x2C%N ++ [RBRACE]
  end.

Fixpoint stripPrefix (prefix s : jsstring) {struct prefix} : option jsstring :=
  match prefix, s with
  | [], _ => Some s
  | p :: prefix', c :: s' => if (c =? p)%N then stripPrefix prefix' s' else None
  | _ :: _, [] => None
  end.

(** Reads [{"salt":"..","iv":"..","cipherText":".."}]. *)
Definition parseParams (s : jsstring) : option EncryptionParameters :=
  match stripPrefix (LBRACE :: DQUOTE :: js "salt" ++ DQUOTE :: js ":" ++ [DQUOTE]) s with
  | None => None
  | Some s1 =>
      match unquote s1 with
      | None => None
      | Some (a, s2) =>
          match stripPrefix (js "," ++ DQUOTE :: js "iv" ++ DQUOTE :: js ":" ++ [DQUOTE]) s2 with
          | None => None
          | Some s3 =>
              match unquote s3 with
              | None => None
              | Some (b, s4) =>
                  match stripPrefix (js "," ++ DQUOTE :: js "cipherText" ++ DQUOTE
                                       :: js ":" ++ [DQUOTE]) s4 with
                  | None => None
                  | Some s5 =>
                      match unquote s5 with
                      | Some (c, [r]) => if (r =? RBRACE)%N then Some (mkParams a b c) else None
                      | _ => None
                      end
                  end
              end
          end
      end
  end.

Definition parse (s : jsstring) : Outcome JsonValue :=
  match parseParams s with
  | Some p => Ok (paramsObject p)
  | None => Throw (mkError "SyntaxError" (js "Unexpected token in JSON"))
  end.

Definition platform : Platform :=
  mkPlatform 16 12 16 32
             argon2 importKey aesEncrypt aesDecrypt
             toBase64 fromBase64
             (fun _ => Throw (mkError "TypeError" (js "The first argument must be of type string")))
             stringify parse
             true
             (fun _ _ => Throw (mkError "SyntaxError" (js "Invalid regular expression"))).

(** The same platform with a configuration whose salt length is zero. *)
Definition misconfigured : Platform :=
  mkPlatform 16 12 0 32
             argon2 importKey aesEncrypt aesDecrypt
             toBase64 fromBase64
             (fun _ => Throw (mkError "TypeError" (js "The first argument must be of type string")))
             stringify parse
             true
             (fun _ _ => Throw (mkError "SyntaxError" (js "Invalid regular expression"))).

(** The same platform with a key derivation that fails for the salts whose
    first byte is 28, and for no other. *)
Definition flakyArgon2 (secret : jsstring) (saltBuffer : list byte)
  : Outcome (list byte) :=
  match saltBuffer with
  | b :: _ =>
      if (Byte.to_N b =? 28)%N
      then Throw (mkError "Error" (js "Argon2 hashing failed"))
      else argon2 secret saltBuffer
  | [] => argon2 secret saltBuffer
  end.

Definition flaky : Platform :=
  mkPlatform 16 12 16 32
             flakyArgon2 importKey aesEncrypt aesDecrypt
             toBase64 fromBase64
             (fun _ => Throw (mkError "TypeError" (js "The first argument must be of type string")))
             stringify parse
             true
             (fun _ _ => Throw (mkError "SyntaxError" (js "Invalid regular expression"))).

(** A world with the given environment file and base file; the
    randomness tape counts its own positions. *)
Definition envPath : jsstring := js "/repo/envs/.env.dev".
Definition basePath : jsstring := js "/repo/envs/.env".

Definition manager : EnvironmentFileManager :=
  mkManager envPath (js "passphrase") basePath.

Definition tape (i : nat) : byte := byte_of_N (N.of_nat i mod 256).

Definition world (envFile baseFile : jsstring) : World :=
  mkWorld (fun p => if eqb p envPath then Some envFile
                    else if eqb p basePath then Some baseFile else None)
          [] tape 0 0.

(** One rewrite of an environment file, a second one right after it, and the
    lines of the environment file in a world. *)
Definition rewriteOnce (envFile : jsstring) (envVariables : option (list jsstring))
  : Outcome nat * World :=
  encryptEnvVariables platform manager envVariables (world envFile []).

Definition rewriteTwice (envFile : jsstring) (envVariables : option (list jsstring))
  : Outcome nat * World :=
  encryptEnvVariables platform manager envVariables
                      (snd (rewriteOnce envFile envVariables)).

Definition linesOf (w : World) : list jsstring :=
  match files w envPath with
  | Some content => split content NEWLINE
  | None => []
  end.

(** A regular expression engine for [getKeyValue] that refuses every source,
    as the one of [platform] does: key names of the interpreted fragment
    never reach it. *)
Definition noEngine (source text : jsstring) : Outcome (option jsstring) :=
  Throw (mkError "SyntaxError" (js "Invalid regular expression")).

(** [path.resolve] on an absolute directory and a plain file name. *)
Definition joinPath (directory name : jsstring) : jsstring :=
  directory ++ js "/" ++ name.

End Reference.

(** ** Vocabulary of the properties *)

(** A string is tight when it is empty or neither its first nor its last
    character is white space. *)
Definition tight (s : jsstring) : bool :=
  match s with
  | [] => true
  | c :: _ => negb (isWhiteSpace c) && negb (isWhiteSpace (last s 0%N))
  end.

(** The keys and values that [parseEnvironmentLine] produces. *)
Definition validKey (k : jsstring) : Prop :=
  k <> [] /\ tight k = true /\ includes k EQUALS = false.

Definition validValue (v : jsstring) : Prop :=
  v <> [] /\ tight v = true.

(** A computation that leaves every file as it found it. *)
Definition keepsFiles {A} (m : M A) : Prop :=
  forall w, files (snd (m w)) = files w.

(** The answer of [isAlreadyEncrypted], without its logging. *)
Definition looksEncrypted (P : Platform) (value : jsstring) : bool :=
  truthy value
  && (startsWith (trim value) [LBRACE] && endsWith (trim value) [RBRACE])
  && match JSON_parse P value with
     | Ok parsedData =>
         isObjectNotNull parsedData
         && hasProperty parsedData (js "salt")
         && hasProperty parsedData (js "iv")
         && hasProperty parsedData (js "cipherText")
     | Throw _ => false
     end.

(** The record that [findEnvironmentVariable] returns. *)
Definition foundEntry (allEnvVariables : Record) (lookupValue : jsstring)
  : RecordOf PropertyValue :=
  let byValue :=
    match find (fun e => eqb (snd e) lookupValue) (Object_entries allEnvVariables) with
    | Some (key, value) => set [] key (Text value)
    | None => []
    end in
  match readProperty allEnvVariables lookupValue with
  | Some v => if truthyProperty v then set [] lookupValue v else byValue
  | None => byValue
  end.

(** The record that [determineVariablesToEncrypt] returns. *)
Definition targetSet (allEnvVariables : Record) (envVariables : option (list jsstring))
  : RecordOf PropertyValue :=
  match envVariables with
  | Some (lookupValue :: rest) =>
      fold_left (fun acc l => Object_assign acc (foundEntry allEnvVariables l))
                (lookupValue :: rest) []
  | _ => Object_assign [] (asValues allEnvVariables)
  end.

(** The line written for a newly encrypted key, the effect of a sequence of
    such updates on one line, and on the whole file. *)
Definition lineOf (P : Platform) (u : jsstring * EncryptionParameters) : jsstring :=
  fst u ++ EQUALS :: JSON_stringify P (paramsObject (snd u)).

Definition rewriteLine (P : Platform) (us : list (jsstring * EncryptionParameters))
    (l : jsstring) : jsstring :=
  fold_left (fun l u => if startsWith l (fst u ++ [EQUALS]) then lineOf P u else l) us l.

Definition applyUpdates (P : Platform) (us : list (jsstring * EncryptionParameters))
    (ls : list jsstring) : list jsstring :=
  fold_left (fun ls u =>
               updateEnvironmentLines ls (fst u)
                 (JSON_stringify P (paramsObject (snd u)))) us ls.

(** Does some line begin with [k=]? *)
Definition hasLineFor (ls : list jsstring) (k : jsstring) : bool :=
  existsb (fun line => startsWith line (k ++ [EQUALS])) ls.

(** The value of the last line that parses to key [k]. *)
Definition lastValue (lines : list jsstring) (k : jsstring) : option jsstring :=
  fold_left (fun acc line =>
               match parseEnvironmentLine line with
               | Some (k', v) => if eqb k' k then Some v else acc
               | None => acc
               end) lines None.

(** Between two worlds only informational messages were logged. *)
Definition infoOnly (w w' : World) : Prop :=
  exists extra, logs w' = extra ++ logs w /\ Forall (fun e => level e = LInfo) extra.

(** The paths that [FileManager.validatePath] accepts for a file. *)
Definition acceptablePath (path : jsstring) : bool :=
  truthy path && negb (endsWith path (js "/") || endsWith path [BACKSLASH]).

(** A Unicode scalar value: a code point that is not a surrogate. *)
Definition isScalar (cp : N) : Prop :=
  (cp < 0xD800 \/ (0xE000 <= cp /\ cp < 0x110000))%N.

(** A computation whose outcome does not depend on the world it runs in. *)
Definition returns {A} (m : M A) (o : Outcome A) : Prop :=
  forall w, exists w', m w = (o, w').

(** The outcome of [deriveKeyWithArgon2]. *)
Definition deriveKeyOutcome (P : Platform) (secretKey : jsstring) (salt : JsonValue)
  : Outcome (list byte) :=
  match Buffer_from_base64 P salt with
  | Throw e => Throw e
  | Ok saltBuffer =>
      match argon2_hash P secretKey saltBuffer with
      | Throw e => Throw e
      | Ok keyBuffer => subtle_importKey P keyBuffer
      end
  end.

(** Does some line of [text] begin with [prefix]? *)
Definition hasLineBeginning (text prefix : jsstring) : bool :=
  existsb (fun line => startsWith line prefix) (split text NEWLINE).

(** What a line contributes to the value of key [k]. *)
Definition matchKey (k line : jsstring) : option jsstring :=
  match parseEnvironmentLine line with
  | Some (k', v) => if eqb k' k then Some v else None
  | None => None
  end.

(** A key is settled in the lines of a file when the rewrite of the lines
    that begin with [k=] reaches the entry of [k]: no line begins with [k=]
    (the new line is then appended, after every entry), or some line that
    begins with [k=] has no entry for [k] after it. *)
Definition settledKey (lines : list jsstring) (k : jsstring) : Prop :=
  hasLineFor lines k = false
  \/ exists before l after,
       lines = before ++ l :: after
       /\ startsWith l (k ++ [EQUALS]) = true
       /\ forall l', In l' after -> matchKey k l' = None.

(** Every targeted key whose value does not look encrypted is settled. *)
Definition settledTargets (P : Platform) (lines : list jsstring)
    (envVariables : option (list jsstring)) : Prop :=
  forall k v,
    get (targetSet (extractEnvironmentVariables lines) envVariables) k = Some (Text v) ->
    looksEncrypted P v = false -> settledKey lines k.

(** A lookup that is resolved by value selects the first entry with that
    value only.  The shared values are covered when, for every such lookup
    that does not look encrypted, every entry with that value is in the
    target set, by this lookup or by another. *)
Definition sharedValuesCovered (P : Platform) (all : Record)
    (envVariables : option (list jsstring)) : Prop :=
  match envVariables with
  | Some lookups =>
      forall l k, In l lookups -> readProperty all l = None ->
                  looksEncrypted P l = false -> get all k = Some l ->
                  exists x, get (targetSet all envVariables) k = Some x
  | None => True
  end.

(** Is the key of an entry an array index?  Such entries come first in
    [Object.entries]. *)
Definition isIndexEntry {V} (e : jsstring * V) : bool :=
  match arrayIndex (fst e) with Some _ => true | None => false end.

(** The body of the loop of [extractEnvironmentVariables], and what it does
    to the value of key [k]. *)
Definition extractStep (variables : Record) (line : jsstring) : Record :=
  match parseEnvironmentLine line with
  | Some (key, value) => set variables key value
  | None => variables
  end.

Definition lastValueStep (k : jsstring) (acc : option jsstring) (line : jsstring)
  : option jsstring :=
  match parseEnvironmentLine line with
  | Some (k', v) => if eqb k' k then Some v else acc
  | None => acc
  end.

(** The entries of a target set that are strings and do not look encrypted. *)
Definition plainTargets (P : Platform) (targets : RecordOf PropertyValue)
  : list (jsstring * PropertyValue) :=
  filter (fun e => match snd e with
                   | Text v => negb (looksEncrypted P v)
                   | _ => false
                   end) targets.

(** A key name made of ordinary characters: none that a regular expression
    reads as syntax, and no line terminator. *)
Definition ordinaryKey (k : jsstring) : bool :=
  forallb (fun c => negb (isSyntaxCharacter c) && negb (isLineTerminator c)) k.

(** A key name of the fragment without line terminator. *)
Definition singleLineKey (k : jsstring) : bool :=
  inFragment k && forallb (fun c => negb (isLineTerminator c)) k.

(** A text whose only line terminator is the line feed. *)
Definition unixText (text : jsstring) : bool :=
  forallb (fun c => negb (isLineTerminator c) || (c =? NEWLINE)%N) text.

(** A text without line terminator. *)
Definition singleLine (text : jsstring) : bool :=
  forallb (fun c => negb (isLineTerminator c)) text.

(* ================================================================== *)
(** * Part II.  Properties                                             *)
(* ================================================================== *)

(** ** Strings *)

Section StringFacts.

#[local] Arguments isWhiteSpace : simpl never.
#[local] Arguments N.eqb : simpl never.

Lemma eqb_eq (a b : jsstring) : eqb a b = true <-> a = b.
Proof.
  revert b; induction a as [|x a IH]; intros [|y b]; simpl; split; intro H;
    try reflexivity; try discriminate.
  - apply andb_true_iff in H as [Hx Hr]. apply N.eqb_eq in Hx.
    apply IH in Hr. now subst.
  - inversion H; subst. rewrite N.eqb_refl. simpl. now apply IH.
Qed.

Lemma eqb_refl (a : jsstring) : eqb a a = true.
Proof. now apply eqb_eq. Qed.

Lemma eqb_neq (a b : jsstring) : eqb a b = false <-> a <> b.
Proof.
  split.
  - intros H E. apply eqb_eq in E. congruence.
  - intro H. destruct (eqb a b) eqn:E; [apply eqb_eq in E; contradiction | reflexivity].
Qed.

Lemma startsWith_iff (s p : jsstring) :
  startsWith s p = true <-> exists r, s = p ++ r.
Proof.
  revert s; induction p as [|x p IH]; intros s; simpl.
  - split; [intros _; now exists s | reflexivity].
  - destruct s as [|c s].
    + split; [discriminate | intros [r Hr]; discriminate].
    + rewrite andb_true_iff, N.eqb_eq, IH. split.
      * intros [-> [r ->]]. now exists r.
      * intros [r Hr]. inversion Hr; subst. split; [reflexivity | now exists r].
Qed.

Lemma startsWith_app (p r : jsstring) : startsWith (p ++ r) p = true.
Proof. apply startsWith_iff. now exists r. Qed.

Lemma includes_app (a b : jsstring) (c : N) :
  includes (a ++ b) c = includes a c || includes b c.
Proof. unfold includes. apply existsb_app. Qed.

Lemma includes_false_iff (s : jsstring) (c : N) :
  includes s c = false <-> ~ In c s.
Proof.
  unfold includes. split.
  - intros H Hin. assert (existsb (fun x => (x =? c)%N) s = true) as E.
    { apply existsb_exists. exists c. split; [assumption | apply N.eqb_refl]. }
    congruence.
  - intro H. destruct (existsb _ s) eqn:E; [|reflexivity].
    apply existsb_exists in E as [x [Hx Hxc]]. apply N.eqb_eq in Hxc. now subst.
Qed.

(** *** trim *)

Lemma trimStart_skip (a s : jsstring) :
  forallb isWhiteSpace a = true -> trimStart (a ++ s) = trimStart s.
Proof.
  induction a as [|x a IH]; simpl; intro H; [reflexivity|].
  apply andb_true_iff in H as [Hx Ha]. rewrite Hx. now apply IH.
Qed.

Lemma trimStart_head (c : N) (s : jsstring) :
  isWhiteSpace c = false -> trimStart (c :: s) = c :: s.
Proof. intro H. simpl. now rewrite H. Qed.

Lemma trimStart_decompose (s : jsstring) :
  exists a, s = a ++ trimStart s /\ forallb isWhiteSpace a = true.
Proof.
  induction s as [|c s [a [Hs Ha]]].
  - now exists [].
  - simpl. destruct (isWhiteSpace c) eqn:E.
    + exists (c :: a). simpl. rewrite E, Ha. split; [now f_equal | reflexivity].
    + now exists [].
Qed.

Lemma trimStart_result (s : jsstring) :
  match trimStart s with [] => True | c :: _ => isWhiteSpace c = false end.
Proof.
  induction s as [|c s IH]; simpl; [exact I|].
  destruct (isWhiteSpace c) eqn:E; [exact IH | exact E].
Qed.

Lemma last_cons_cons {A} (x y : A) (l : list A) (d : A) :
  last (x :: y :: l) d = last (y :: l) d.
Proof. reflexivity. Qed.

Lemma last_app_nonempty {A} (a b : list A) (d : A) :
  b <> [] -> last (a ++ b) d = last b d.
Proof.
  intro Hb. induction a as [|x a IH]; [reflexivity|].
  simpl app. destruct (a ++ b) eqn:E.
  - destruct a; destruct b; simpl in E; congruence.
  - rewrite <- E in *. rewrite <- IH. rewrite E. reflexivity.
Qed.

Lemma last_rev_cons {A} (c : A) (s : list A) (d : A) : last (rev (c :: s)) d = c.
Proof. simpl. apply last_last. Qed.

Lemma hd_rev_last {A} (s : list A) (d : A) : hd d (rev s) = last s d.
Proof.
  destruct s as [|c s] using rev_ind; [reflexivity|].
  rewrite rev_app_distr, last_last. reflexivity.
Qed.

Lemma trimEnd_tail (s : jsstring) :
  s <> [] -> isWhiteSpace (last s 0%N) = false -> trimEnd s = s.
Proof.
  intros Hne Hl. unfold trimEnd.
  destruct (rev s) as [|c r] eqn:E.
  - apply (f_equal (@rev N)) in E. rewrite rev_involutive in E. now subst.
  - assert (c = last s 0%N) as ->.
    { rewrite <- hd_rev_last, E. reflexivity. }
    rewrite trimStart_head by assumption.
    rewrite <- E. apply rev_involutive.
Qed.

Lemma trimEnd_skip (s b : jsstring) :
  forallb isWhiteSpace b = true -> trimEnd (s ++ b) = trimEnd s.
Proof.
  intro H. unfold trimEnd. rewrite rev_app_distr.
  rewrite trimStart_skip; [reflexivity|].
  rewrite forallb_forall in *. intros x Hx. apply H. now apply in_rev.
Qed.

Lemma tight_trim (s : jsstring) : tight s = true -> trim s = s.
Proof.
  destruct s as [|c s]; [reflexivity|].
  intro H. cbn [tight] in H. apply andb_true_iff in H as [Hc Hl].
  apply negb_true_iff in Hc, Hl.
  unfold trim. rewrite trimStart_head by assumption.
  apply trimEnd_tail; [discriminate | assumption].
Qed.

(** What trim does: it removes white space on both sides of a tight core. *)
Lemma trim_sandwich (a m b : jsstring) :
  forallb isWhiteSpace a = true -> forallb isWhiteSpace b = true ->
  tight m = true -> m <> [] -> trim (a ++ m ++ b) = m.
Proof.
  intros Ha Hb Hm Hne. destruct m as [|c m]; [contradiction|].
  cbn [tight] in Hm. apply andb_true_iff in Hm as [Hc Hl].
  apply negb_true_iff in Hc, Hl.
  unfold trim. rewrite trimStart_skip by assumption.
  change ((c :: m) ++ b) with (c :: (m ++ b)).
  rewrite trimStart_head by assumption.
  change (c :: (m ++ b)) with ((c :: m) ++ b).
  rewrite trimEnd_skip by assumption.
  apply trimEnd_tail; [discriminate | assumption].
Qed.

Lemma trimEnd_decompose (s : jsstring) :
  exists b, s = trimEnd s ++ b /\ forallb isWhiteSpace b = true.
Proof.
  destruct (trimStart_decompose (rev s)) as [a [Hs Ha]].
  exists (rev a). split.
  - unfold trimEnd. rewrite <- rev_app_distr, <- Hs. symmetry. apply rev_involutive.
  - rewrite forallb_forall in *. intros x Hx. apply Ha. now apply in_rev.
Qed.

Lemma trimEnd_result (s : jsstring) :
  trimEnd s = [] \/ isWhiteSpace (last (trimEnd s) 0%N) = false.
Proof.
  unfold trimEnd. pose proof (trimStart_result (rev s)) as H.
  destruct (trimStart (rev s)) as [|c r]; [now left | right].
  rewrite last_rev_cons. exact H.
Qed.

Lemma trimEnd_keeps_head (c : N) (s : jsstring) :
  isWhiteSpace c = false -> exists r, trimEnd (c :: s) = c :: r.
Proof.
  intro Hc. destruct (trimEnd_decompose (c :: s)) as [b [Hs Hb]].
  destruct (trimEnd (c :: s)) as [|x r] eqn:E.
  - simpl in Hs. subst b. simpl in Hb. rewrite Hc in Hb. discriminate.
  - simpl in Hs. inversion Hs; subst. now exists r.
Qed.

Lemma trim_tight (s : jsstring) : tight (trim s) = true.
Proof.
  unfold trim. pose proof (trimStart_result s) as H.
  destruct (trimStart s) as [|c r] eqn:E; [reflexivity|].
  destruct (trimEnd_keeps_head c r H) as [r' Hr'].
  destruct (trimEnd_result (c :: r)) as [H0 | H1].
  - rewrite Hr' in H0. discriminate.
  - rewrite Hr' in *. cbn [tight]. rewrite H, H1. reflexivity.
Qed.

Lemma trim_idempotent (s : jsstring) : trim (trim s) = trim s.
Proof. apply tight_trim, trim_tight. Qed.

Lemma trim_decompose (s : jsstring) :
  exists a b, s = a ++ trim s ++ b
              /\ forallb isWhiteSpace a = true /\ forallb isWhiteSpace b = true.
Proof.
  destruct (trimStart_decompose s) as [a [Hs Ha]].
  destruct (trimEnd_decompose (trimStart s)) as [b [Ht Hb]].
  exists a, b. unfold trim. rewrite <- Ht. auto.
Qed.

End StringFacts.

(** *** split and join *)

Section SplitJoin.

#[local] Arguments N.eqb : simpl never.

Lemma split_nonempty (s : jsstring) (c : N) : split s c <> [].
Proof.
  destruct s as [|x s]; simpl; [discriminate|].
  destruct (x =? c)%N; [discriminate|]. destruct (split s c); discriminate.
Qed.

Lemma split_without (s : jsstring) (c : N) :
  includes s c = false -> split s c = [s].
Proof.
  induction s as [|x s IH]; simpl; [reflexivity|].
  intro H. apply orb_false_iff in H as [Hx Hs].
  rewrite Hx, (IH Hs). reflexivity.
Qed.

Lemma split_at_first (k rest : jsstring) (c : N) :
  includes k c = false -> split (k ++ c :: rest) c = k :: split rest c.
Proof.
  induction k as [|x k IH]; simpl; intro H.
  - now rewrite N.eqb_refl.
  - apply orb_false_iff in H as [Hx Hk]. rewrite Hx, (IH Hk). reflexivity.
Qed.

Lemma join_cons (p : jsstring) (ps : list jsstring) (c : N) :
  ps <> [] -> join (p :: ps) c = p ++ c :: join ps c.
Proof. destruct ps; [contradiction | reflexivity]. Qed.

Lemma join_split (s : jsstring) (c : N) : join (split s c) c = s.
Proof.
  induction s as [|x s IH]; [reflexivity|].
  simpl split. destruct (x =? c)%N eqn:E.
  - apply N.eqb_eq in E. subst x.
    rewrite join_cons by apply split_nonempty. now rewrite IH.
  - pose proof (split_nonempty s c) as Hne.
    destruct (split s c) as [|p ps]; [contradiction|].
    destruct ps as [|q ps].
    + simpl in *. now f_equal.
    + rewrite join_cons by discriminate. rewrite join_cons in IH by discriminate.
      simpl. now f_equal.
Qed.

Lemma split_join (ls : list jsstring) (c : N) :
  ls <> [] -> Forall (fun l => includes l c = false) ls ->
  split (join ls c) c = ls.
Proof.
  induction ls as [|l ls IH]; [contradiction|].
  intros _ H. inversion H as [|? ? Hl Hls]; subst.
  destruct ls as [|l' ls].
  - simpl. now apply split_without.
  - rewrite join_cons by discriminate.
    rewrite split_at_first by assumption.
    f_equal. apply IH; [discriminate | assumption].
Qed.

Lemma split_pieces (s : jsstring) (c : N) :
  Forall (fun l => includes l c = false) (split s c).
Proof.
  induction s as [|x s IH]; simpl.
  - constructor; [reflexivity | constructor].
  - destruct (x =? c)%N eqn:E.
    + constructor; [reflexivity | assumption].
    + destruct (split s c) as [|p ps]; [repeat constructor; simpl; now rewrite E|].
      inversion IH; subst. constructor; [|assumption].
      simpl. rewrite E. assumption.
Qed.

Lemma includes_first (s : jsstring) (c : N) :
  includes s c = true ->
  exists k rest, s = k ++ c :: rest /\ includes k c = false.
Proof.
  induction s as [|x s IH]; simpl; [discriminate|].
  destruct (x =? c)%N eqn:E.
  - intros _. apply N.eqb_eq in E. subst. now exists [], s.
  - simpl. intro H. destruct (IH H) as [k [rest [Hs Hk]]].
    exists (x :: k), rest. simpl. rewrite E, Hk. split; [now f_equal | reflexivity].
Qed.

End SplitJoin.

(** ** parseEnvironmentLine *)

Section ParseFacts.

#[local] Arguments isWhiteSpace : simpl never.
#[local] Arguments N.eqb : simpl never.

Lemma tight_edges (s : jsstring) :
  s <> [] ->
  (tight s = true <->
   isWhiteSpace (hd 0%N s) = false /\ isWhiteSpace (last s 0%N) = false).
Proof.
  destruct s as [|c s]; [contradiction|]. intros _. cbn [tight hd].
  rewrite andb_true_iff, !negb_true_iff. reflexivity.
Qed.

Lemma trim_empty (s : jsstring) : trim s = [] -> forallb isWhiteSpace s = true.
Proof.
  intro H. destruct (trim_decompose s) as [a [b [Hs [Ha Hb]]]].
  rewrite H in Hs. simpl in Hs. subst s. rewrite forallb_app, Ha, Hb. reflexivity.
Qed.

Lemma trim_keeps_no_sep (s : jsstring) (c : N) :
  includes s c = false -> includes (trim s) c = false.
Proof.
  intro H. destruct (trim_decompose s) as [a [b [Hs _]]].
  rewrite Hs in H. rewrite !includes_app in H.
  apply orb_false_iff in H as [_ H]. now apply orb_false_iff in H as [H _].
Qed.

Lemma last_in {A} (s : list A) (d : A) : s <> [] -> In (last s d) s.
Proof.
  induction s as [|x s IH]; [contradiction|]. intros _.
  destruct s as [|y s]; [now left|].
  right. rewrite last_cons_cons. apply IH. discriminate.
Qed.

(** A line is an entry exactly when its trimmed form is [k0=v0] with [k0]
    free of '=' and both sides non-empty; key and value are the trimmed
    sides. *)
Lemma parseEnvironmentLine_spec (l k v : jsstring) :
  parseEnvironmentLine l = Some (k, v) <->
  exists k0 v0, trim l = k0 ++ EQUALS :: v0 /\ includes k0 EQUALS = false
                /\ k0 <> [] /\ v0 <> [] /\ k = trim k0 /\ v = trim v0.
Proof.
  unfold parseEnvironmentLine. split.
  - destruct (eqb (trim l) []) eqn:E0; [discriminate|].
    destruct (includes (trim l) EQUALS) eqn:E1; [|discriminate].
    simpl. destruct (includes_first _ _ E1) as [k0 [v0 [Ht Hk0]]].
    rewrite Ht, split_at_first, join_split by assumption.
    destruct k0 as [|x k0]; [discriminate|].
    destruct v0 as [|y v0]; [discriminate|]. simpl.
    intro H. inversion H; subst.
    exists (x :: k0), (y :: v0). repeat split; try assumption; discriminate.
  - intros [k0 [v0 [Ht [Hk0 [Hk [Hv [-> ->]]]]]]].
    rewrite Ht. destruct (eqb (k0 ++ EQUALS :: v0) []) eqn:E0.
    { apply eqb_eq in E0. destruct k0; discriminate. }
    assert (includes (k0 ++ EQUALS :: v0) EQUALS = true) as ->.
    { rewrite includes_app. apply orb_true_iff. right.
      unfold includes. cbn [existsb]. now rewrite N.eqb_refl. }
    simpl.
    rewrite split_at_first, join_split by assumption.
    destruct k0; [contradiction|]. destruct v0; [contradiction|]. reflexivity.
Qed.

Lemma parseEnvironmentLine_valid (l k v : jsstring) :
  parseEnvironmentLine l = Some (k, v) -> validKey k /\ validValue v.
Proof.
  intro H. apply parseEnvironmentLine_spec in H
    as [k0 [v0 [Ht [Hk0 [Hk [Hv [-> ->]]]]]]].
  pose proof (trim_tight l) as Htight. rewrite Ht in Htight.
  apply tight_edges in Htight; [|destruct k0; discriminate].
  destruct Htight as [Hhd Hlast].
  rewrite last_app_nonempty in Hlast by discriminate.
  change (last (EQUALS :: v0) 0%N) with (last ([EQUALS] ++ v0) 0%N) in Hlast.
  rewrite last_app_nonempty in Hlast by assumption.
  split; [split; [|split] | split].
  - intro E. apply trim_empty in E. destruct k0 as [|x k0]; [contradiction|].
    simpl in Hhd, E. rewrite Hhd in E. discriminate.
  - apply trim_tight.
  - now apply trim_keeps_no_sep.
  - intro E. apply trim_empty in E. rewrite forallb_forall in E.
    rewrite (E (last v0 0%N)) in Hlast by now apply last_in. discriminate.
  - apply trim_tight.
Qed.

Lemma tight_glue (k v : jsstring) (c : N) :
  k <> [] -> tight k = true -> v <> [] -> tight v = true ->
  tight (k ++ c :: v) = true.
Proof.
  intros Hk Tk Hv Tv.
  apply tight_edges in Tk as [Hh _]; [|assumption].
  apply tight_edges in Tv as [_ Hl]; [|assumption].
  apply tight_edges; [destruct k; discriminate|]. split.
  - destruct k; [contradiction | exact Hh].
  - rewrite last_app_nonempty by discriminate.
    change (c :: v) with ([c] ++ v). now rewrite last_app_nonempty.
Qed.

(** The line [k=v] written for a valid key and a valid value is read back as
    the entry [(k, v)]. *)
Lemma parseEnvironmentLine_canonical (k v : jsstring) :
  validKey k -> validValue v ->
  parseEnvironmentLine (k ++ EQUALS :: v) = Some (k, v).
Proof.
  intros [Hk [Tk Ek]] [Hv Tv]. apply parseEnvironmentLine_spec.
  exists k, v. repeat split; try assumption.
  - apply tight_trim. now apply tight_glue.
  - symmetry. now apply tight_trim.
  - symmetry. now apply tight_trim.
Qed.

End ParseFacts.

(** ** Computations that leave the files alone *)

Create HintDb frame discriminated.

Section Frame.

Lemma keepsFiles_ret {A} (a : A) : keepsFiles (ret a).
Proof. intro w. reflexivity. Qed.

Lemma keepsFiles_throw {A} (e : JsError) : keepsFiles (@throw A e).
Proof. intro w. reflexivity. Qed.

Lemma keepsFiles_lift {A} (o : Outcome A) : keepsFiles (lift o).
Proof. intro w. reflexivity. Qed.

Lemma keepsFiles_bind {A B} (m : M A) (k : A -> M B) :
  keepsFiles m -> (forall a, keepsFiles (k a)) -> keepsFiles (bind m k).
Proof.
  intros Hm Hk w. unfold bind. specialize (Hm w).
  destruct (m w) as [[a|e] w1]; simpl in *; [|assumption].
  rewrite (Hk a w1). assumption.
Qed.

Lemma keepsFiles_tryCatch {A} (body : M A) (handler : JsError -> M A) :
  keepsFiles body -> (forall e, keepsFiles (handler e)) ->
  keepsFiles (tryCatch body handler).
Proof.
  intros Hm Hk w. unfold tryCatch. specialize (Hm w).
  destruct (body w) as [[a|e] w1]; simpl in *; [assumption|].
  rewrite (Hk e w1). assumption.
Qed.

Lemma keepsFiles_logMessage (l : LogLevel) (msg : jsstring) :
  keepsFiles (logMessage l msg).
Proof. intro w. reflexivity. Qed.

Lemma keepsFiles_if {A} (b : bool) (m1 m2 : M A) :
  keepsFiles m1 -> keepsFiles m2 -> keepsFiles (if b then m1 else m2).
Proof. destruct b; auto. Qed.

Lemma keepsFiles_captureError (e : JsError) (source context : jsstring) :
  keepsFiles (captureError e source context).
Proof. apply keepsFiles_logMessage. Qed.

Lemma keepsFiles_logAndThrow {A} (message source : jsstring) :
  keepsFiles (@logAndThrow A message source).
Proof.
  apply keepsFiles_bind; [apply keepsFiles_logMessage | intro; apply keepsFiles_throw].
Qed.

Lemma keepsFiles_rethrowing {A} (source context : string) (body : M A) :
  keepsFiles body -> keepsFiles (rethrowing source context body).
Proof.
  intro H. apply keepsFiles_tryCatch; [assumption|].
  intro e. apply keepsFiles_bind; [apply keepsFiles_captureError|].
  intro. apply keepsFiles_throw.
Qed.

Lemma keepsFiles_readFileSync (path : jsstring) : keepsFiles (fs_readFileSync path).
Proof. intro w. unfold fs_readFileSync. destruct (files w path); reflexivity. Qed.

Lemma keepsFiles_randomBytes (size : Z) : keepsFiles (crypto_randomBytes size).
Proof. intro w. unfold crypto_randomBytes. destruct (_ || _); reflexivity. Qed.

Lemma keepsFiles_getRandomValues (size : Z) : keepsFiles (crypto_getRandomValues size).
Proof.
  intro w. unfold crypto_getRandomValues.
  destruct (_ <? 0)%Z; [reflexivity|]. destruct (_ <? _)%Z; reflexivity.
Qed.

End Frame.

#[export] Hint Resolve keepsFiles_ret keepsFiles_throw keepsFiles_lift
  keepsFiles_logMessage keepsFiles_captureError keepsFiles_logAndThrow
  keepsFiles_readFileSync keepsFiles_randomBytes keepsFiles_getRandomValues : frame.
#[export] Hint Extern 2 (keepsFiles (bind _ _)) =>
  apply keepsFiles_bind; [|intro] : frame.
#[export] Hint Extern 2 (keepsFiles (rethrowing _ _ _)) =>
  apply keepsFiles_rethrowing : frame.
#[export] Hint Extern 2 (keepsFiles (tryCatch _ _)) =>
  apply keepsFiles_tryCatch; [|intro] : frame.
#[export] Hint Extern 3 (keepsFiles (if ?b then _ else _)) =>
  apply keepsFiles_if : frame.
#[export] Hint Extern 1 (keepsFiles (logger_info _)) => apply keepsFiles_logMessage : frame.
#[export] Hint Extern 1 (keepsFiles (logger_warn _)) => apply keepsFiles_logMessage : frame.
#[export] Hint Extern 1 (keepsFiles (logger_error _)) => apply keepsFiles_logMessage : frame.

Section ServiceFrames.

Variable P : Platform.

Lemma keepsFiles_generateBase64Salt (n : Z) : keepsFiles (generateBase64Salt P n).
Proof. unfold generateBase64Salt. auto 10 with frame. Qed.

Lemma keepsFiles_generateWebCryptoIV (n : Z) : keepsFiles (generateWebCryptoIV P n).
Proof. unfold generateWebCryptoIV. auto 10 with frame. Qed.

Lemma keepsFiles_deriveKeyWithArgon2 (s : jsstring) (v : JsonValue) :
  keepsFiles (deriveKeyWithArgon2 P s v).
Proof.
  unfold deriveKeyWithArgon2, argon2Hashing, importKeyForCrypto. auto 10 with frame.
Qed.

Lemma keepsFiles_encrypt (value secretKey : jsstring) :
  keepsFiles (encrypt P value secretKey).
Proof.
  unfold encrypt, encryptBuffer.
  pose proof keepsFiles_generateBase64Salt. pose proof keepsFiles_generateWebCryptoIV.
  pose proof keepsFiles_deriveKeyWithArgon2.
  auto 12 with frame.
Qed.

Lemma keepsFiles_isAlreadyEncrypted (value : jsstring) :
  keepsFiles (isAlreadyEncrypted P value).
Proof. unfold isAlreadyEncrypted. auto 12 with frame. Qed.

Lemma keepsFiles_encryptIfNeeded (value secretKey : jsstring) :
  keepsFiles (encryptIfNeeded P value secretKey).
Proof.
  unfold encryptIfNeeded.
  pose proof keepsFiles_encrypt. pose proof keepsFiles_isAlreadyEncrypted.
  auto 12 with frame.
Qed.

Variable mgr : EnvironmentFileManager.

Lemma keepsFiles_value_trim (value : PropertyValue) : keepsFiles (value_trim value).
Proof. destruct value; cbn [value_trim]; auto with frame. Qed.

Lemma keepsFiles_processEntries (entries : list (jsstring * PropertyValue))
    (lines : list jsstring) (n : nat) :
  keepsFiles (processEntries P mgr entries lines n).
Proof.
  revert lines n. induction entries as [|[key value] rest IH]; intros lines n.
  - apply keepsFiles_ret.
  - cbn [processEntries]. pose proof keepsFiles_encryptIfNeeded.
    pose proof keepsFiles_value_trim. auto 12 with frame.
Qed.

Lemma keepsFiles_readEnvFileAsLines : keepsFiles (readEnvFileAsLines mgr).
Proof. unfold readEnvFileAsLines. auto 10 with frame. Qed.

Lemma keepsFiles_findEnvironmentVariable (all : Record) (l : jsstring) :
  keepsFiles (findEnvironmentVariable all l).
Proof.
  unfold findEnvironmentVariable, findByValue.
  destruct (readProperty all l) as [v|]; [destruct (truthyProperty v)|];
    try destruct (find _ _) as [[k x]|]; auto 10 with frame.
Qed.

Lemma keepsFiles_determineLookups (all : Record) (ls : list jsstring)
    (acc : RecordOf PropertyValue) :
  keepsFiles (determineLookups all ls acc).
Proof.
  revert acc. induction ls as [|l ls IH]; intro acc; cbn [determineLookups].
  - apply keepsFiles_ret.
  - pose proof keepsFiles_findEnvironmentVariable. auto 12 with frame.
Qed.

Lemma keepsFiles_determineVariablesToEncrypt (all : Record) (lk : option (list jsstring)) :
  keepsFiles (determineVariablesToEncrypt all lk).
Proof.
  unfold determineVariablesToEncrypt. destruct lk as [[|l ls]|];
    auto using keepsFiles_determineLookups with frame.
Qed.

End ServiceFrames.

(** ** Records *)

Section RecordFacts.

Context {V : Type}.

Lemma get_store_same (o : RecordOf V) (k : jsstring) (v : V) :
  get (store o k v) k = Some v.
Proof.
  induction o as [|[k' v'] o IH]; simpl.
  - now rewrite eqb_refl.
  - destruct (eqb k' k) eqn:E; simpl; rewrite E; [reflexivity | exact IH].
Qed.

Lemma get_store_other (o : RecordOf V) (k : jsstring) (v : V) (k' : jsstring) :
  k' <> k -> get (store o k v) k' = get o k'.
Proof.
  intro Hne. induction o as [|[k0 v0] o IH]; simpl.
  - apply eqb_neq in Hne. destruct (eqb k k') eqn:E; [|reflexivity].
    apply eqb_eq in E. subst. now rewrite eqb_refl in Hne.
  - destruct (eqb k0 k) eqn:E; simpl.
    + apply eqb_eq in E. subst k0.
      destruct (eqb k k') eqn:E'; [apply eqb_eq in E'; congruence | reflexivity].
    + now rewrite IH.
Qed.

Lemma get_In (o : RecordOf V) (k : jsstring) (v : V) : get o k = Some v -> In (k, v) o.
Proof.
  induction o as [|[k' v'] o IH]; simpl; [discriminate|].
  destruct (eqb k' k) eqn:E.
  - apply eqb_eq in E. intro H. inversion H; subst. now left.
  - intro H. right. now apply IH.
Qed.

Lemma get_None (o : RecordOf V) (k : jsstring) : get o k = None <-> ~ In k (map fst o).
Proof.
  induction o as [|[k' v'] o IH]; simpl; [tauto|].
  destruct (eqb k' k) eqn:E.
  - apply eqb_eq in E. split; [discriminate | intro H; exfalso; apply H; now left].
  - apply eqb_neq in E. rewrite IH. tauto.
Qed.

Lemma In_get (o : RecordOf V) (k : jsstring) (v : V) :
  NoDup (map fst o) -> In (k, v) o -> get o k = Some v.
Proof.
  induction o as [|[k' v'] o IH]; simpl; [contradiction|].
  intros Hnd [H | H].
  - inversion H; subst. now rewrite eqb_refl.
  - inversion Hnd as [|? ? Hnot Hnd']; subst.
    destruct (eqb k' k) eqn:E.
    + apply eqb_eq in E. subst. exfalso. apply Hnot.
      apply (in_map fst) in H. exact H.
    + now apply IH.
Qed.

Lemma store_keys (o : RecordOf V) (k : jsstring) (v : V) (k' : jsstring) :
  In k' (map fst (store o k v)) <-> k' = k \/ In k' (map fst o).
Proof.
  induction o as [|[k0 v0] o IH]; simpl.
  - intuition congruence.
  - destruct (eqb k0 k) eqn:E; simpl.
    + apply eqb_eq in E. subst. intuition congruence.
    + rewrite IH. tauto.
Qed.

Lemma store_unique (o : RecordOf V) (k : jsstring) (v : V) :
  NoDup (map fst o) -> NoDup (map fst (store o k v)).
Proof.
  induction o as [|[k0 v0] o IH]; simpl; intro H.
  - repeat constructor. simpl. tauto.
  - inversion H as [|? ? Hnot Hnd]; subst.
    destruct (eqb k0 k) eqn:E; simpl.
    + now constructor.
    + constructor; [|now apply IH].
      rewrite store_keys. apply eqb_neq in E. intuition congruence.
Qed.

(** *** Assignment *)

Lemma get_set_same (o : RecordOf V) (k : jsstring) (v : V) :
  k <> PROTO -> get (set o k v) k = Some v.
Proof.
  intro H. unfold set. apply eqb_neq in H. rewrite H. apply get_store_same.
Qed.

Lemma get_set_other (o : RecordOf V) (k : jsstring) (v : V) (k' : jsstring) :
  k' <> k -> get (set o k v) k' = get o k'.
Proof.
  intro H. unfold set. destruct (eqb k PROTO); [reflexivity|].
  now apply get_store_other.
Qed.

Lemma set_keys (o : RecordOf V) (k : jsstring) (v : V) (k' : jsstring) :
  In k' (map fst (set o k v)) <-> (k' = k /\ k <> PROTO) \/ In k' (map fst o).
Proof.
  unfold set. destruct (eqb k PROTO) eqn:E.
  - apply eqb_eq in E. tauto.
  - apply eqb_neq in E. rewrite store_keys. tauto.
Qed.

Lemma set_unique (o : RecordOf V) (k : jsstring) (v : V) :
  NoDup (map fst o) -> NoDup (map fst (set o k v)).
Proof.
  unfold set. destruct (eqb k PROTO); [trivial | apply store_unique].
Qed.

(** An object never gets an own property [__proto__] by assignment. *)
Lemma set_no_proto (o : RecordOf V) (k : jsstring) (v : V) :
  get o PROTO = None -> get (set o k v) PROTO = None.
Proof.
  intro H. unfold set. destruct (eqb k PROTO) eqn:E; [exact H|].
  rewrite get_store_other; [exact H|]. apply eqb_neq in E. congruence.
Qed.

(** *** Object.entries *)

Lemma insertByIndex_perm (n : N) (e : jsstring * V)
    (l : list (N * (jsstring * V))) :
  Permutation (map snd (insertByIndex n e l)) (e :: map snd l).
Proof.
  induction l as [|[m e'] l IH]; simpl; [reflexivity|].
  destruct (n <? m)%N; simpl; [reflexivity|].
  rewrite IH. apply perm_swap.
Qed.

Lemma indexed_perm (o : RecordOf V) :
  Permutation (map snd (indexed o)) (filter isIndexEntry o).
Proof.
  induction o as [|e o IH]; simpl; [reflexivity|].
  unfold isIndexEntry at 1. destruct (arrayIndex (fst e)) as [n|]; [|exact IH].
  rewrite insertByIndex_perm. now constructor.
Qed.

Lemma named_filter (o : RecordOf V) :
  named o = filter (fun e => negb (isIndexEntry e)) o.
Proof.
  unfold named. apply filter_ext. intro e. unfold isIndexEntry.
  now destruct (arrayIndex (fst e)).
Qed.

Lemma filter_split_perm {A} (f : A -> bool) (l : list A) :
  Permutation (filter f l ++ filter (fun x => negb (f x)) l) l.
Proof.
  induction l as [|x l IH]; simpl; [reflexivity|].
  destruct (f x); simpl.
  - now constructor.
  - rewrite <- Permutation_middle. now constructor.
Qed.

Lemma Object_entries_perm (o : RecordOf V) : Permutation (Object_entries o) o.
Proof.
  unfold Object_entries. rewrite indexed_perm, named_filter.
  apply filter_split_perm.
Qed.

Lemma Object_entries_In (o : RecordOf V) (e : jsstring * V) :
  In e (Object_entries o) <-> In e o.
Proof.
  split; apply Permutation_in; [|symmetry]; apply Object_entries_perm.
Qed.

Lemma Object_entries_unique (o : RecordOf V) :
  NoDup (map fst o) -> NoDup (map fst (Object_entries o)).
Proof.
  intro H. eapply Permutation_NoDup; [|exact H].
  apply Permutation_map. symmetry. apply Object_entries_perm.
Qed.

(** *** Object.assign *)

Lemma fold_set_unique (L : list (jsstring * V)) (t : RecordOf V) :
  NoDup (map fst t) ->
  NoDup (map fst (fold_left (fun t e => set t (fst e) (snd e)) L t)).
Proof.
  revert t. induction L as [|e L IH]; intros t H; simpl; [assumption|].
  apply IH. now apply set_unique.
Qed.

Lemma fold_set_other (L : list (jsstring * V)) (t : RecordOf V) (k : jsstring) :
  ~ In k (map fst L) ->
  get (fold_left (fun t e => set t (fst e) (snd e)) L t) k = get t k.
Proof.
  revert t. induction L as [|e L IH]; intros t H; simpl; [reflexivity|].
  simpl in H. rewrite IH by tauto. apply get_set_other. intro E. apply H. now left.
Qed.

Lemma fold_set_member (L : list (jsstring * V)) (t : RecordOf V)
    (k : jsstring) (v : V) :
  NoDup (map fst L) -> In (k, v) L -> k <> PROTO ->
  get (fold_left (fun t e => set t (fst e) (snd e)) L t) k = Some v.
Proof.
  revert t. induction L as [|e L IH]; intros t Hnd Hin Hk; simpl; [contradiction|].
  inversion Hnd as [|? ? Hnot Hnd']; subst. destruct Hin as [-> | Hin].
  - rewrite fold_set_other by assumption. simpl. now apply get_set_same.
  - now apply IH.
Qed.

Lemma fold_set_no_proto (L : list (jsstring * V)) (t : RecordOf V) :
  get t PROTO = None ->
  get (fold_left (fun t e => set t (fst e) (snd e)) L t) PROTO = None.
Proof.
  revert t. induction L as [|e L IH]; intros t H; simpl; [assumption|].
  apply IH. now apply set_no_proto.
Qed.

Lemma Object_assign_unique (t s : RecordOf V) :
  NoDup (map fst t) -> NoDup (map fst (Object_assign t s)).
Proof. apply fold_set_unique. Qed.

Lemma Object_assign_no_proto (t s : RecordOf V) :
  get t PROTO = None -> get (Object_assign t s) PROTO = None.
Proof. apply fold_set_no_proto. Qed.

(** A source without an own [__proto__] is copied property by property. *)
Lemma Object_assign_get (t s : RecordOf V) (k : jsstring) :
  NoDup (map fst s) -> get s PROTO = None ->
  get (Object_assign t s) k =
  match get s k with Some v => Some v | None => get t k end.
Proof.
  intros Hnd Hp. unfold Object_assign. destruct (get s k) as [v|] eqn:E.
  - apply fold_set_member; [now apply Object_entries_unique| |].
    + apply Object_entries_In. now apply get_In.
    + intros ->. congruence.
  - apply fold_set_other. apply get_None in E. intro H. apply E.
    apply in_map_iff in H as [e [He Hin]].
    apply (proj1 (Object_entries_In _ _)) in Hin.
    apply in_map_iff. exists e. split; assumption.
Qed.

(** In general the source's own [__proto__], if it has one, is not copied. *)
Lemma Object_assign_get_any (t s : RecordOf V) (k : jsstring) :
  NoDup (map fst s) -> k <> PROTO ->
  get (Object_assign t s) k =
  match get s k with Some v => Some v | None => get t k end.
Proof.
  intros Hnd Hk. unfold Object_assign. destruct (get s k) as [v|] eqn:E.
  - apply fold_set_member; [now apply Object_entries_unique| |assumption].
    apply Object_entries_In. now apply get_In.
  - apply fold_set_other. apply get_None in E. intro H. apply E.
    apply in_map_iff in H as [e [He Hin]].
    apply (proj1 (Object_entries_In _ _)) in Hin.
    apply in_map_iff. exists e. split; assumption.
Qed.

End RecordFacts.

(** ** Extraction and target selection *)

Section ExtractFacts.

Lemma asValues_keys (o : Record) : map fst (asValues o) = map fst o.
Proof. unfold asValues. rewrite map_map. reflexivity. Qed.

Lemma get_asValues (o : Record) (k : jsstring) :
  get (asValues o) k = option_map Text (get o k).
Proof.
  induction o as [|[k' v'] o IH]; simpl; [reflexivity|].
  destruct (eqb k' k); [reflexivity | exact IH].
Qed.

Lemma get_extract_fold (lines : list jsstring) (o : Record) (k : jsstring) :
  k <> PROTO ->
  get (fold_left extractStep lines o) k = fold_left (lastValueStep k) lines (get o k).
Proof.
  intro Hk. revert o. induction lines as [|l lines IH]; intro o; simpl; [reflexivity|].
  rewrite IH. f_equal. unfold extractStep, lastValueStep.
  destruct (parseEnvironmentLine l) as [[k' v]|]; [|reflexivity].
  destruct (eqb k' k) eqn:E.
  - apply eqb_eq in E. subst. now apply get_set_same.
  - apply eqb_neq in E. apply get_set_other. congruence.
Qed.

(** The extracted value of a key is the value of the last line that parses
    to that key; a line with the key [__proto__] leaves no entry. *)
Lemma get_extract (lines : list jsstring) (k : jsstring) :
  k <> PROTO -> get (extractEnvironmentVariables lines) k = lastValue lines k.
Proof. intro Hk. apply (get_extract_fold lines [] k Hk). Qed.

Lemma extract_no_proto_fold (lines : list jsstring) (o : Record) :
  get o PROTO = None -> get (fold_left extractStep lines o) PROTO = None.
Proof.
  revert o. induction lines as [|l lines IH]; intros o H; simpl; [assumption|].
  apply IH. unfold extractStep. destruct (parseEnvironmentLine l) as [[k v]|]; [|assumption].
  now apply set_no_proto.
Qed.

Lemma extract_no_proto (lines : list jsstring) :
  get (extractEnvironmentVariables lines) PROTO = None.
Proof. now apply extract_no_proto_fold. Qed.

Lemma get_extract_Some (lines : list jsstring) (k v : jsstring) :
  get (extractEnvironmentVariables lines) k = Some v ->
  k <> PROTO /\ lastValue lines k = Some v.
Proof.
  intro H. assert (k <> PROTO) as Hk.
  { intros ->. rewrite extract_no_proto in H. discriminate. }
  split; [exact Hk|]. now rewrite <- get_extract.
Qed.

Lemma extract_unique_fold (lines : list jsstring) (o : Record) :
  NoDup (map fst o) -> NoDup (map fst (fold_left extractStep lines o)).
Proof.
  revert o. induction lines as [|l lines IH]; intros o H; simpl; [assumption|].
  apply IH. unfold extractStep. destruct (parseEnvironmentLine l) as [[k v]|]; [|assumption].
  now apply set_unique.
Qed.

Lemma extract_unique (lines : list jsstring) :
  NoDup (map fst (extractEnvironmentVariables lines)).
Proof. apply extract_unique_fold. constructor. Qed.

Lemma lastValue_acc (lines : list jsstring) (k : jsstring) (acc : option jsstring) :
  fold_left (lastValueStep k) lines acc =
  match lastValue lines k with Some v => Some v | None => acc end.
Proof.
  unfold lastValue. fold (lastValueStep k).
  revert acc. induction lines as [|l lines IH]; intro acc; simpl; [reflexivity|].
  rewrite IH. rewrite (IH (lastValueStep k None l)).
  destruct (fold_left (lastValueStep k) lines None); [reflexivity|].
  unfold lastValueStep. destruct (parseEnvironmentLine l) as [[k' v]|]; [|reflexivity].
  destruct (eqb k' k); reflexivity.
Qed.

Lemma lastValue_cons (l : jsstring) (lines : list jsstring) (k : jsstring) :
  lastValue (l :: lines) k =
  match lastValue lines k with
  | Some v => Some v
  | None => match parseEnvironmentLine l with
            | Some (k', v) => if eqb k' k then Some v else None
            | None => None
            end
  end.
Proof.
  unfold lastValue at 1. fold (lastValueStep k). simpl.
  rewrite lastValue_acc. reflexivity.
Qed.

Lemma lastValue_source (lines : list jsstring) (k v : jsstring) :
  lastValue lines k = Some v ->
  exists l, In l lines /\ parseEnvironmentLine l = Some (k, v).
Proof.
  induction lines as [|l lines IH]; [discriminate|].
  rewrite lastValue_cons. destruct (lastValue lines k) as [v'|].
  - intro H. inversion H; subst. destruct (IH eq_refl) as [l' [Hin Hp]].
    exists l'. split; [now right | assumption].
  - destruct (parseEnvironmentLine l) as [[k' v']|] eqn:E; [|discriminate].
    destruct (eqb k' k) eqn:Ek; [|discriminate].
    apply eqb_eq in Ek. subst. intro H. inversion H; subst.
    exists l. split; [now left | assumption].
Qed.

Lemma lastValue_present (lines : list jsstring) (l k v : jsstring) :
  In l lines -> parseEnvironmentLine l = Some (k, v) ->
  exists v', lastValue lines k = Some v'.
Proof.
  induction lines as [|l0 lines IH]; [contradiction|].
  intros Hin Hp. rewrite lastValue_cons.
  destruct (lastValue lines k) as [v'|] eqn:E; [now exists v'|].
  destruct Hin as [-> | Hin].
  - rewrite Hp, eqb_refl. now exists v.
  - destruct (IH Hin Hp) as [v' Hv']. discriminate.
Qed.

Lemma extract_valid (lines : list jsstring) (k v : jsstring) :
  get (extractEnvironmentVariables lines) k = Some v -> validKey k /\ validValue v.
Proof.
  intro H. apply get_extract_Some in H as [_ H].
  destruct (lastValue_source _ _ _ H) as [l [_ Hp]].
  now apply parseEnvironmentLine_valid in Hp.
Qed.

(** *** One lookup *)

Lemma set_empty_unique {V} (k : jsstring) (v : V) : NoDup (map fst (set [] k v)).
Proof. apply set_unique. constructor. Qed.

Lemma set_empty_no_proto {V} (k : jsstring) (v : V) : get (set [] k v) PROTO = None.
Proof. now apply set_no_proto. Qed.

Lemma get_set_empty {V} (k : jsstring) (v : V) (k' : jsstring) (x : V) :
  get (set [] k v) k' = Some x -> k' = k /\ x = v /\ k <> PROTO.
Proof.
  unfold set. destruct (eqb k PROTO) eqn:E; [discriminate|]. apply eqb_neq in E.
  simpl. destruct (eqb k k') eqn:E'; [|discriminate].
  apply eqb_eq in E'. intro H. inversion H; subst. auto.
Qed.

Lemma foundEntry_unique (all : Record) (l : jsstring) :
  NoDup (map fst (foundEntry all l)).
Proof.
  unfold foundEntry. cbv zeta.
  destruct (readProperty all l) as [v|]; [destruct (truthyProperty v)|];
    try destruct (find _ _) as [[k x]|]; auto using @set_empty_unique; constructor.
Qed.

Lemma foundEntry_no_proto (all : Record) (l : jsstring) :
  get (foundEntry all l) PROTO = None.
Proof.
  unfold foundEntry. cbv zeta.
  destruct (readProperty all l) as [v|]; [destruct (truthyProperty v)|];
    try destruct (find _ _) as [[k x]|]; auto using @set_empty_no_proto.
Qed.

(** What a lookup finds is an entry of the file or, when the lookup is no own
    key but the name of a method of [Object.prototype], that method. *)
Lemma foundEntry_kinds (all : Record) (l k : jsstring) (x : PropertyValue) :
  NoDup (map fst all) ->
  get (foundEntry all l) k = Some x ->
  (exists v, x = Text v /\ get all k = Some v)
  \/ (x = Method l /\ k = l /\ get all l = None /\ isPrototypeMethod l = true).
Proof.
  intros Hnd. unfold foundEntry. cbv zeta.
  assert (get match find (fun e => eqb (snd e) l) (Object_entries all) with
              | Some (key, value) => set [] key (Text value)
              | None => []
              end k = Some x ->
          exists v, x = Text v /\ get all k = Some v) as Hval.
  { destruct (find _ _) as [[key value]|] eqn:E; [|discriminate].
    apply find_some in E as [Hin _].
    apply (proj1 (Object_entries_In _ _)) in Hin.
    intro H. apply get_set_empty in H as [-> [-> _]].
    exists value. split; [reflexivity | now apply In_get]. }
  unfold readProperty. destruct (get all l) as [v|] eqn:E.
  - cbn [truthyProperty]. destruct (truthy v); [|left; auto].
    intro H. apply get_set_empty in H as [-> [-> _]]. left. now exists v.
  - destruct (eqb l PROTO) eqn:Ep.
    + cbn [truthyProperty]. intro H. apply get_set_empty in H as [_ [_ H]].
      apply eqb_eq in Ep. contradiction.
    + destruct (isPrototypeMethod l) eqn:Em; [|left; auto].
      cbn [truthyProperty]. intro H. apply get_set_empty in H as [-> [-> _]].
      right. auto.
Qed.

Lemma foundEntry_sound (all : Record) (l k v : jsstring) :
  NoDup (map fst all) ->
  get (foundEntry all l) k = Some (Text v) -> get all k = Some v.
Proof.
  intros Hnd H. apply foundEntry_kinds in H as [[v' [Hv H]] | [Hv _]];
    [|discriminate|assumption].
  inversion Hv; subst. exact H.
Qed.

(** *** The target set *)

Lemma targetSet_unique (all : Record) (lk : option (list jsstring)) :
  NoDup (map fst (targetSet all lk)).
Proof.
  assert (forall ls acc, NoDup (map fst acc) ->
            NoDup (map fst (fold_left (fun acc l => Object_assign acc (foundEntry all l))
                                      ls acc))) as H.
  { induction ls as [|l ls IH]; intros acc Ha; simpl; [assumption|].
    apply IH. now apply Object_assign_unique. }
  unfold targetSet. destruct lk as [[|l ls]|].
  - apply Object_assign_unique. constructor.
  - apply H. constructor.
  - apply Object_assign_unique. constructor.
Qed.

Lemma targetSet_no_proto (all : Record) (lk : option (list jsstring)) :
  get (targetSet all lk) PROTO = None.
Proof.
  assert (forall ls acc, get acc PROTO = None ->
            get (fold_left (fun acc l => Object_assign acc (foundEntry all l)) ls acc)
                PROTO = None) as H.
  { induction ls as [|l ls IH]; intros acc Ha; simpl; [assumption|].
    apply IH. now apply Object_assign_no_proto. }
  unfold targetSet. destruct lk as [[|l ls]|].
  - now apply Object_assign_no_proto.
  - now apply H.
  - now apply Object_assign_no_proto.
Qed.

(** Without lookups the target set holds every extracted entry. *)
Lemma targetSet_all (all : Record) (lk : option (list jsstring)) (k : jsstring) :
  lk = None \/ lk = Some [] ->
  NoDup (map fst all) -> get all PROTO = None ->
  get (targetSet all lk) k = option_map Text (get all k).
Proof.
  intros Hlk Hnd Hp.
  assert (get (Object_assign [] (asValues all)) k = option_map Text (get all k)) as H.
  { rewrite Object_assign_get.
    - rewrite get_asValues. now destruct (get all k).
    - now rewrite asValues_keys.
    - rewrite get_asValues, Hp. reflexivity. }
  destruct Hlk as [-> | ->]; exact H.
Qed.

Lemma targetSet_kinds (all : Record) (lk : option (list jsstring)) (k : jsstring)
    (x : PropertyValue) :
  NoDup (map fst all) ->
  get (targetSet all lk) k = Some x ->
  (exists v, x = Text v /\ get all k = Some v)
  \/ (x = Method k /\ get all k = None /\ isPrototypeMethod k = true).
Proof.
  intros Hnd Hg.
  assert (k <> PROTO) as Hk.
  { intros ->. rewrite targetSet_no_proto in Hg. discriminate. }
  assert (get (Object_assign [] (asValues all)) k = Some x ->
          exists v, x = Text v /\ get all k = Some v) as Hall.
  { rewrite Object_assign_get_any; [|now rewrite asValues_keys|assumption].
    rewrite get_asValues. destruct (get all k) as [v|]; [|discriminate].
    intro H. inversion H. now exists v. }
  assert (forall ls acc,
            (forall y, get acc k = Some y ->
               (exists v, y = Text v /\ get all k = Some v)
               \/ (y = Method k /\ get all k = None /\ isPrototypeMethod k = true)) ->
            get (fold_left (fun acc l => Object_assign acc (foundEntry all l)) ls acc) k
            = Some x ->
            (exists v, x = Text v /\ get all k = Some v)
            \/ (x = Method k /\ get all k = None /\ isPrototypeMethod k = true)) as H.
  { induction ls as [|l ls IH]; intros acc Ha; simpl; [apply Ha|].
    apply IH. intro y.
    rewrite Object_assign_get by (apply foundEntry_unique || apply foundEntry_no_proto).
    destruct (get (foundEntry all l) k) as [z|] eqn:E; [|apply Ha].
    intro Hz. inversion Hz; subst z.
    apply foundEntry_kinds in E as [? | [-> [-> [? ?]]]]; auto. }
  unfold targetSet in Hg. destruct lk as [[|l ls]|].
  - left. now apply Hall.
  - apply (H (l :: ls) []); [discriminate | exact Hg].
  - left. now apply Hall.
Qed.

Lemma targetSet_sound (all : Record) (lk : option (list jsstring)) (k v : jsstring) :
  NoDup (map fst all) ->
  get (targetSet all lk) k = Some (Text v) -> get all k = Some v.
Proof.
  intros Hnd H. apply targetSet_kinds in H as [[v' [Hv H]] | [Hv _]];
    [|discriminate|assumption].
  inversion Hv; subst. exact H.
Qed.

End ExtractFacts.

(** ** What the steps of the rewrite return *)

Section Results.

Variable P : Platform.
Variable mgr : EnvironmentFileManager.

Lemma infoOnly_refl (w : World) : infoOnly w w.
Proof. exists []. split; [reflexivity | constructor]. Qed.

Lemma infoOnly_trans (w1 w2 w3 : World) :
  infoOnly w1 w2 -> infoOnly w2 w3 -> infoOnly w1 w3.
Proof.
  intros [e1 [H1 F1]] [e2 [H2 F2]]. exists (e2 ++ e1). split.
  - rewrite H2, H1. apply app_assoc.
  - apply Forall_app. split; assumption.
Qed.

Lemma infoOnly_info (msg : jsstring) (w : World) :
  infoOnly w (snd (logger_info msg w)).
Proof. exists [mkLog LInfo msg]. split; [reflexivity | repeat constructor]. Qed.

Lemma isAlreadyEncrypted_result (value : jsstring) (w : World) :
  fst (isAlreadyEncrypted P value w) = Ok (looksEncrypted P value).
Proof.
  unfold isAlreadyEncrypted, looksEncrypted.
  destruct (truthy value); [|reflexivity]. cbn [negb andb].
  destruct (startsWith (trim value) [LBRACE] && endsWith (trim value) [RBRACE]);
    [|reflexivity].
  cbn [negb andb]. unfold tryCatch, bind, lift, ret.
  destruct (JSON_parse P value); reflexivity.
Qed.

Lemma encryptIfNeeded_cases (value secretKey : jsstring) (w w1 : World)
    (x : MaybeEncrypted) :
  encryptIfNeeded P value secretKey w = (Ok x, w1) ->
  (looksEncrypted P value = true /\ x = Unchanged value)
  \/ (looksEncrypted P value = false /\ exists p, x = Encrypted p).
Proof.
  unfold encryptIfNeeded, bind.
  pose proof (isAlreadyEncrypted_result value w) as Hr.
  destruct (isAlreadyEncrypted P value w) as [[b|e] w0]; simpl in Hr; [|discriminate].
  inversion Hr; subst. destruct (looksEncrypted P value).
  - unfold ret. intro H. inversion H; subst. now left.
  - destruct (encrypt P value secretKey w0) as [[r|e] w2]; [|discriminate].
    unfold ret. intro H. inversion H; subst. right. split; [reflexivity|].
    eexists. reflexivity.
Qed.

Lemma findEnvironmentVariable_run (all : Record) (l : jsstring) (w : World) :
  exists w', findEnvironmentVariable all l w = (Ok (foundEntry all l), w')
             /\ infoOnly w w'.
Proof.
  unfold findEnvironmentVariable, findByValue, foundEntry. cbv zeta.
  destruct (readProperty all l) as [v|]; [destruct (truthyProperty v)|];
    try (destruct (find _ _) as [[k x]|]);
    try (eexists; split; [reflexivity | apply infoOnly_refl]);
    (eexists; split; [reflexivity | apply infoOnly_info]).
Qed.

Lemma determineLookups_run (all : Record) (ls : list jsstring)
    (acc : RecordOf PropertyValue) (w : World) :
  exists w', determineLookups all ls acc w
             = (Ok (fold_left (fun acc l => Object_assign acc (foundEntry all l)) ls acc),
                w')
             /\ infoOnly w w'.
Proof.
  revert acc w. induction ls as [|l ls IH]; intros acc w; cbn [determineLookups fold_left].
  - exists w. split; [reflexivity | apply infoOnly_refl].
  - destruct (findEnvironmentVariable_run all l w) as [w1 [H1 I1]].
    unfold bind at 1. rewrite H1. unfold truthyObject. cbn [negb].
    unfold bind at 1. unfold ret at 1.
    destruct (IH (Object_assign acc (foundEntry all l)) w1) as [w2 [H2 I2]].
    exists w2. split; [exact H2 | now apply infoOnly_trans with w1].
Qed.

(** [determineVariablesToEncrypt] never throws, returns [targetSet] and logs
    nothing above the informational level. *)
Lemma determineVariablesToEncrypt_run (all : Record) (lk : option (list jsstring))
    (w : World) :
  exists w', determineVariablesToEncrypt all lk w = (Ok (targetSet all lk), w')
             /\ infoOnly w w'.
Proof.
  unfold determineVariablesToEncrypt, targetSet. destruct lk as [[|l ls]|].
  - exists w. split; [reflexivity | apply infoOnly_refl].
  - apply determineLookups_run.
  - exists w. split; [reflexivity | apply infoOnly_refl].
Qed.

(** One turn of the loop, for a string and for a value that is not one. *)
Lemma processEntries_text (key value : jsstring) (rest : list (jsstring * PropertyValue))
    (lines : list jsstring) (n : nat) (w : World) :
  processEntries P mgr ((key, Text value) :: rest) lines n w =
  (if truthy value then
     encryptedValue <- encryptIfNeeded P (trim value) (secretKeyVariable mgr) ;;
     if skipsEncryption encryptedValue (Text value) then
       logger_info (js "Skipping encryption: '" ++ key ++ js "' is already encrypted.") ;;;
       processEntries P mgr rest lines n
     else
       processEntries P mgr rest
         (updateEnvironmentLines lines key (JSON_stringify P (toJson encryptedValue)))
         (S n)
   else processEntries P mgr rest lines n) w.
Proof. cbn [processEntries truthyProperty]. destruct (truthy value); reflexivity. Qed.

Lemma processEntries_not_text (key : jsstring) (value : PropertyValue)
    (rest : list (jsstring * PropertyValue)) (lines : list jsstring) (n : nat) (w : World) :
  (forall s, value <> Text s) ->
  processEntries P mgr ((key, value) :: rest) lines n w
  = (Throw (mkError "TypeError" (js "value.trim is not a function")), w).
Proof.
  intro H. destruct value as [s| |]; [now destruct (H s) | reflexivity | reflexivity].
Qed.

(** The parameters that [encryptIfNeeded] returns are those that [encrypt]
    returned for the same value and secret. *)
Lemma encryptIfNeeded_encrypted (value secretKey : jsstring) (w w1 : World)
    (p : EncryptionParameters) :
  encryptIfNeeded P value secretKey w = (Ok (Encrypted p), w1) ->
  exists w0, encrypt P value secretKey w0 = (Ok p, w1).
Proof.
  unfold encryptIfNeeded, bind.
  destruct (isAlreadyEncrypted P value w) as [[b|e] w0]; [|discriminate].
  destruct b; [unfold ret; intro H; inversion H|].
  destruct (encrypt P value secretKey w0) as [[r|e] w2] eqn:E; [|discriminate].
  unfold ret. intro H. inversion H; subst. exists w0. now destruct r.
Qed.

(** The successful runs of the loop: every value is a string, and the lines
    are rewritten by a sequence of updates, one for every entry whose value
    did not look encrypted, each with the parameters that [encrypt] returned
    for that value. *)
Lemma processEntries_trace (entries : list (jsstring * PropertyValue)) :
  forall (lines : list jsstring) (n : nat) (w w' : World) (r : list jsstring * nat),
    (forall k v, In (k, Text v) entries -> trim v = v) ->
    processEntries P mgr entries lines n w = (Ok r, w') ->
    exists us,
      fst r = applyUpdates P us lines
      /\ snd r = (n + length us)%nat
      /\ (forall k p, In (k, p) us ->
            exists v, In (k, Text v) entries /\ truthy v = true
                      /\ looksEncrypted P v = false)
      /\ (forall k v, In (k, Text v) entries -> truthy v = true ->
            looksEncrypted P v = true \/ In k (map fst us))
      /\ (NoDup (map fst entries) -> NoDup (map fst us))
      /\ (forall k x, In (k, x) entries -> exists v, x = Text v)
      /\ (forall k p, In (k, p) us ->
            exists v w0 w0',
              In (k, Text v) entries
              /\ encrypt P v (secretKeyVariable mgr) w0 = (Ok p, w0')).
Proof.
  induction entries as [|[key value] rest IH]; intros lines n w w' r Htight Hrun.
  - cbn [processEntries] in Hrun. unfold ret in Hrun. inversion Hrun; subst.
    exists []. simpl. repeat split; try (intros; contradiction); [lia | constructor].
  - assert (forall k v, In (k, Text v) rest -> trim v = v) as Htight'.
    { intros k v H. apply (Htight k v). now right. }
    destruct value as [value|m|];
      [|rewrite processEntries_not_text in Hrun by discriminate; discriminate
       |rewrite processEntries_not_text in Hrun by discriminate; discriminate].
    rewrite processEntries_text in Hrun.
    destruct (truthy value) eqn:Etruthy.
    + rewrite (Htight key value (or_introl eq_refl)) in Hrun.
      unfold bind at 1 in Hrun.
      destruct (encryptIfNeeded P value (secretKeyVariable mgr) w) as [[x|e] w1] eqn:Ex;
        [|discriminate].
      pose proof Ex as Ex'.
      apply encryptIfNeeded_cases in Ex as [[Hl ->] | [Hl [p ->]]].
      * cbn [skipsEncryption] in Hrun. rewrite eqb_refl, orb_true_r in Hrun.
        unfold bind at 1 in Hrun. cbn in Hrun.
        destruct (IH _ _ _ _ _ Htight' Hrun) as [us [H1 [H2 [H3 [H4 [H5 [H6 H7]]]]]]].
        exists us. repeat split; try assumption.
        -- intros k p Hin. destruct (H3 k p Hin) as [v [Hv Hv']].
           exists v. split; [now right | assumption].
        -- intros k v [Heq | Hin] Ht.
           ++ inversion Heq; subst. now left.
           ++ exact (H4 k v Hin Ht).
        -- intro Hnd. apply H5. now inversion Hnd.
        -- intros k x [Heq | Hin].
           ++ inversion Heq; subst. now exists value.
           ++ exact (H6 k x Hin).
        -- intros k p Hin. destruct (H7 k p Hin) as [v [w0 [w0' [Hv He]]]].
           exists v, w0, w0'. split; [now right | assumption].
      * cbn [skipsEncryption toJson] in Hrun.
        destruct (IH _ _ _ _ _ Htight' Hrun) as [us [H1 [H2 [H3 [H4 [H5 [H6 H7]]]]]]].
        exists ((key, p) :: us). repeat split.
        -- exact H1.
        -- rewrite H2. simpl. lia.
        -- intros k q [Heq | Hin].
           ++ inversion Heq; subst. exists value. repeat split; try assumption. now left.
           ++ destruct (H3 k q Hin) as [v [Hv Hv']]. exists v. split; [now right | assumption].
        -- intros k v [Heq | Hin] Ht.
           ++ inversion Heq; subst. right. now left.
           ++ destruct (H4 k v Hin Ht) as [Hs | Hs]; [now left | right; now right].
        -- intro Hnd. inversion Hnd as [|? ? Hnot Hnd']; subst. simpl. constructor.
           ++ intro Hin. apply Hnot. apply in_map_iff in Hin as [[k q] [Hk Hq]].
              simpl in Hk. subst k. destruct (H3 key q Hq) as [v [Hv _]].
              apply in_map_iff. exists (key, Text v). split; [reflexivity | assumption].
           ++ now apply H5.
        -- intros k x [Heq | Hin].
           ++ inversion Heq; subst. now exists value.
           ++ exact (H6 k x Hin).
        -- intros k q [Heq | Hin].
           ++ inversion Heq; subst.
              destruct (encryptIfNeeded_encrypted _ _ _ _ _ Ex') as [w0 He].
              exists value, w0, w1. split; [now left | assumption].
           ++ destruct (H7 k q Hin) as [v [w0 [w0' [Hv He]]]].
              exists v, w0, w0'. split; [now right | assumption].
    + destruct (IH _ _ _ _ _ Htight' Hrun) as [us [H1 [H2 [H3 [H4 [H5 [H6 H7]]]]]]].
      exists us. repeat split; try assumption.
      * intros k p Hin. destruct (H3 k p Hin) as [v [Hv Hv']].
        exists v. split; [now right | assumption].
      * intros k v [Heq | Hin] Ht.
        -- inversion Heq; subst. congruence.
        -- exact (H4 k v Hin Ht).
      * intro Hnd. apply H5. now inversion Hnd.
      * intros k x [Heq | Hin].
        -- inversion Heq; subst. now exists value.
        -- exact (H6 k x Hin).
      * intros k p Hin. destruct (H7 k p Hin) as [v [w0 [w0' [Hv He]]]].
        exists v, w0, w0'. split; [now right | assumption].
Qed.

End Results.

(** ** The effect of the line updates *)

Section UpdateFacts.

Variable P : Platform.

#[local] Arguments N.eqb : simpl never.

(** Two keys without '=' that both prefix a line, each followed by '=', are
    the same key. *)
Lemma prefix_key_unique (k1 k2 l : jsstring) :
  includes k1 EQUALS = false -> includes k2 EQUALS = false ->
  startsWith l (k1 ++ [EQUALS]) = true -> startsWith l (k2 ++ [EQUALS]) = true ->
  k1 = k2.
Proof.
  revert k2 l. induction k1 as [|c k1 IH]; intros [|d k2] [|x l]; simpl;
    intros H1 H2 S1 S2; try discriminate; try reflexivity.
  - apply andb_true_iff in S1 as [S1 _], S2 as [S2 _].
    apply N.eqb_eq in S1, S2. subst. rewrite N.eqb_refl in H2. discriminate.
  - apply andb_true_iff in S1 as [S1 _], S2 as [S2 _].
    apply N.eqb_eq in S1, S2. subst. rewrite N.eqb_refl in H1. discriminate.
  - apply andb_true_iff in S1 as [S1 S1'], S2 as [S2 S2'].
    apply N.eqb_eq in S1, S2. subst.
    apply orb_false_iff in H1 as [_ H1], H2 as [_ H2].
    f_equal. now apply IH with l.
Qed.

Lemma lineOf_starts (u : jsstring * EncryptionParameters) :
  startsWith (lineOf P u) (fst u ++ [EQUALS]) = true.
Proof.
  unfold lineOf. change (fst u ++ EQUALS :: ?j) with (fst u ++ [EQUALS] ++ j).
  rewrite app_assoc. apply startsWith_app.
Qed.

Lemma lineOf_prefix (u : jsstring * EncryptionParameters) (k : jsstring) :
  includes (fst u) EQUALS = false -> includes k EQUALS = false ->
  startsWith (lineOf P u) (k ++ [EQUALS]) = true -> k = fst u.
Proof.
  intros Hu Hk Hs. apply prefix_key_unique with (lineOf P u); try assumption.
  apply lineOf_starts.
Qed.

Lemma rewriteLine_snoc (us : list (jsstring * EncryptionParameters))
    (u : jsstring * EncryptionParameters) (l : jsstring) :
  rewriteLine P (us ++ [u]) l =
  if startsWith (rewriteLine P us l) (fst u ++ [EQUALS]) then lineOf P u
  else rewriteLine P us l.
Proof. unfold rewriteLine. now rewrite fold_left_app. Qed.

(** A line that no updated key prefixes is left as it is. *)
Lemma rewriteLine_untouched (us : list (jsstring * EncryptionParameters)) (l : jsstring) :
  (forall u, In u us -> startsWith l (fst u ++ [EQUALS]) = false) ->
  rewriteLine P us l = l.
Proof.
  revert l. induction us as [|u us IH]; intros l H; [reflexivity|].
  unfold rewriteLine. cbn [fold_left]. rewrite (H u (or_introl eq_refl)).
  apply IH. intros u' Hu'. apply H. now right.
Qed.

(** A line that begins with an updated key and '=' becomes that key's line. *)
Lemma rewriteLine_touched (us : list (jsstring * EncryptionParameters))
    (u : jsstring * EncryptionParameters) (l : jsstring) :
  Forall (fun u => includes (fst u) EQUALS = false) us ->
  NoDup (map fst us) -> In u us ->
  startsWith l (fst u ++ [EQUALS]) = true ->
  rewriteLine P us l = lineOf P u.
Proof.
  revert l. induction us as [|u0 us IH]; intros l Hsep Hnd Hin Hs; [contradiction|].
  inversion Hsep as [|? ? Hu0 Hsep']; subst.
  inversion Hnd as [|? ? Hnot Hnd']; subst.
  unfold rewriteLine. cbn [fold_left]. fold (rewriteLine P us).
  destruct Hin as [-> | Hin].
  - rewrite Hs. apply rewriteLine_untouched. intros u' Hu'.
    destruct (startsWith (lineOf P u) (fst u' ++ [EQUALS])) eqn:E; [|reflexivity].
    exfalso. apply Hnot. apply lineOf_prefix in E; try assumption.
    + rewrite <- E. now apply in_map.
    + rewrite Forall_forall in Hsep'. now apply Hsep'.
  - destruct (startsWith l (fst u0 ++ [EQUALS])) eqn:E.
    + exfalso. apply Hnot.
      assert (fst u0 = fst u) as ->; [|now apply in_map].
      apply prefix_key_unique with l; try assumption.
      rewrite Forall_forall in Hsep'. now apply Hsep'.
    + now apply IH.
Qed.

Lemma rewriteLine_cases (us : list (jsstring * EncryptionParameters)) (l : jsstring) :
  Forall (fun u => includes (fst u) EQUALS = false) us ->
  NoDup (map fst us) ->
  (rewriteLine P us l = l
   /\ forall u, In u us -> startsWith l (fst u ++ [EQUALS]) = false)
  \/ (exists u, In u us /\ startsWith l (fst u ++ [EQUALS]) = true
                /\ rewriteLine P us l = lineOf P u).
Proof.
  intros Hsep Hnd.
  destruct (existsb (fun u => startsWith l (fst u ++ [EQUALS])) us) eqn:E.
  - right. apply existsb_exists in E as [u [Hin Hs]]. exists u.
    repeat split; try assumption. now apply rewriteLine_touched.
  - left. assert (forall u, In u us -> startsWith l (fst u ++ [EQUALS]) = false) as H.
    { intros u Hin. destruct (startsWith l (fst u ++ [EQUALS])) eqn:Es; [|reflexivity].
      assert (existsb (fun u => startsWith l (fst u ++ [EQUALS])) us = true) as Hex.
      { apply existsb_exists. now exists u. }
      congruence. }
    split; [now apply rewriteLine_untouched | assumption].
Qed.

(** Rewriting does not change whether a line begins with a key that is not
    among the updated ones. *)
Lemma rewriteLine_prefix (us : list (jsstring * EncryptionParameters))
    (l k : jsstring) :
  Forall (fun u => includes (fst u) EQUALS = false) us ->
  NoDup (map fst us) -> includes k EQUALS = false -> ~ In k (map fst us) ->
  startsWith (rewriteLine P us l) (k ++ [EQUALS]) = startsWith l (k ++ [EQUALS]).
Proof.
  intros Hsep Hnd Hk Hnot.
  destruct (rewriteLine_cases us l Hsep Hnd) as [[-> _] | [u [Hin [Hs ->]]]];
    [reflexivity|].
  assert (includes (fst u) EQUALS = false) as Hu.
  { rewrite Forall_forall in Hsep. now apply Hsep. }
  destruct (startsWith (lineOf P u) (k ++ [EQUALS])) eqn:E1.
  - exfalso. apply Hnot. apply lineOf_prefix in E1; try assumption.
    subst. now apply in_map.
  - destruct (startsWith l (k ++ [EQUALS])) eqn:E2; [|reflexivity].
    exfalso. apply Hnot. assert (k = fst u) as ->; [|now apply in_map].
    now apply prefix_key_unique with l.
Qed.

(** The lines after a sequence of updates with distinct keys: every original
    line rewritten in place, followed by one new line for each key that no
    original line begins with. *)
Lemma applyUpdates_shape (us : list (jsstring * EncryptionParameters))
    (ls : list jsstring) :
  Forall (fun u => includes (fst u) EQUALS = false) us ->
  NoDup (map fst us) ->
  applyUpdates P us ls =
  map (rewriteLine P us) ls
  ++ map (lineOf P) (filter (fun u => negb (hasLineFor ls (fst u))) us).
Proof.
  induction us as [|u us IH] using rev_ind; intros Hsep Hnd.
  - simpl. rewrite app_nil_r. symmetry. rewrite <- (map_id ls) at 2.
    apply map_ext. reflexivity.
  - apply Forall_app in Hsep as [Hsep Hu]. inversion Hu as [|? ? Hu' _]; subst.
    rewrite map_app in Hnd. simpl in Hnd.
    assert (NoDup (map fst us) /\ ~ In (fst u) (map fst us)) as [Hnd' Hnot].
    { apply NoDup_remove in Hnd. rewrite app_nil_r in Hnd. exact Hnd. }
    unfold applyUpdates. rewrite fold_left_app. fold (applyUpdates P us ls).
    rewrite (IH Hsep Hnd'). cbn [fold_left].
    set (E := map (lineOf P) (filter (fun u0 => negb (hasLineFor ls (fst u0))) us)).
    assert (forall e, In e E -> startsWith e (fst u ++ [EQUALS]) = false) as HE.
    { intros e He. unfold E in He. apply in_map_iff in He as [u' [<- Hu'in]].
      apply filter_In in Hu'in as [Hu'in _].
      destruct (startsWith (lineOf P u') (fst u ++ [EQUALS])) eqn:Es; [|reflexivity].
      exfalso. apply Hnot. apply lineOf_prefix in Es; try assumption.
      - rewrite Es. now apply in_map.
      - rewrite Forall_forall in Hsep. now apply Hsep. }
    unfold updateEnvironmentLines.
    assert (existsb (fun line => startsWith line (fst u ++ [EQUALS]))
                    (map (rewriteLine P us) ls ++ E) = hasLineFor ls (fst u)) as ->.
    { rewrite existsb_app. unfold hasLineFor.
      assert (existsb (fun line => startsWith line (fst u ++ [EQUALS])) E = false) as ->.
      { destruct (existsb _ E) eqn:Ex; [|reflexivity].
        apply existsb_exists in Ex as [e [He Hs]]. rewrite (HE e He) in Hs. discriminate. }
      rewrite orb_false_r.
      assert (forall ls0,
                existsb (fun line => startsWith line (fst u ++ [EQUALS]))
                        (map (rewriteLine P us) ls0)
                = existsb (fun line => startsWith line (fst u ++ [EQUALS])) ls0) as Hmap.
      { induction ls0 as [|l ls0 IHl]; [reflexivity|].
        cbn [map existsb]. rewrite IHl. f_equal.
        now apply rewriteLine_prefix. }
      apply Hmap. }
    rewrite map_app, map_map.
    assert (map (fun line => if startsWith line (fst u ++ [EQUALS])
                             then fst u ++ [EQUALS] ++ JSON_stringify P (paramsObject (snd u))
                             else line) E = E) as ->.
    { rewrite <- (map_id E) at 2. apply map_ext_in. intros e He. now rewrite (HE e He). }
    assert (map (fun x => if startsWith (rewriteLine P us x) (fst u ++ [EQUALS])
                          then fst u ++ [EQUALS] ++ JSON_stringify P (paramsObject (snd u))
                          else rewriteLine P us x) ls
            = map (rewriteLine P (us ++ [u])) ls) as ->.
    { apply map_ext. intro l. now rewrite rewriteLine_snoc. }
    rewrite filter_app, map_app. fold E. cbn [filter].
    destruct (hasLineFor ls (fst u)); cbn [negb map].
    + now rewrite !app_nil_r.
    + rewrite <- app_assoc. reflexivity.
Qed.

End UpdateFacts.

(** ** Running [encryptEnvVariables] *)

Section Runs.

Variable P : Platform.
Variable mgr : EnvironmentFileManager.

Lemma bind_Ok {A B} (m : M A) (k : A -> M B) (w w' : World) (b : B) :
  bind m k w = (Ok b, w') ->
  exists a w1, m w = (Ok a, w1) /\ k a w1 = (Ok b, w').
Proof.
  unfold bind. destruct (m w) as [[a|e] w1]; [|discriminate].
  intro H. now exists a, w1.
Qed.

Lemma rethrowing_Ok {A} (source context : string) (body : M A) (w w' : World) (a : A) :
  rethrowing source context body w = (Ok a, w') <-> body w = (Ok a, w').
Proof.
  unfold rethrowing, tryCatch. destruct (body w) as [[x|e] w1].
  - reflexivity.
  - unfold bind, captureError, logger_error, logMessage, throw. split; discriminate.
Qed.

Lemma rethrowing_Throw {A} (source context : string) (body : M A) (w w1 : World)
    (e : JsError) :
  body w = (Throw e, w1) ->
  exists w', rethrowing source context body w = (Throw e, w') /\ files w' = files w1.
Proof.
  intro H. unfold rethrowing, tryCatch. rewrite H.
  eexists. split; reflexivity.
Qed.

Lemma validatePath_Ok (path : jsstring) (w w' : World) :
  validatePath path (js "filePath") w = (Ok tt, w') ->
  acceptablePath path = true /\ w' = w.
Proof.
  unfold validatePath, acceptablePath, bind.
  destruct (truthy path); cbn [negb andb].
  - unfold ret at 1. change (eqb (js "filePath") (js "filePath")) with true.
    cbn [andb]. destruct (_ || _).
    + unfold logAndThrow, bind, logger_error, logMessage, throw. discriminate.
    + unfold ret. intro H. inversion H. auto.
  - unfold logAndThrow, bind, logger_error, logMessage, throw. discriminate.
Qed.

Lemma validatePath_accept (path : jsstring) (w : World) :
  acceptablePath path = true -> validatePath path (js "filePath") w = (Ok tt, w).
Proof.
  unfold validatePath, acceptablePath, bind. intro H.
  apply andb_true_iff in H as [H1 H2]. rewrite H1. cbn [negb].
  unfold ret at 1. change (eqb (js "filePath") (js "filePath")) with true.
  cbn [andb]. apply negb_true_iff in H2. rewrite H2. reflexivity.
Qed.

Lemma writeFile_Ok (path content keyName : jsstring) (w w' : World) :
  FileManager_writeFile path content keyName w = (Ok tt, w') ->
  acceptablePath path = true /\ truthy content = true /\ w' = setFile w path content.
Proof.
  unfold FileManager_writeFile. intro H.
  apply bind_Ok in H as [[] [w1 [H1 H]]].
  apply validatePath_Ok in H1 as [Hp ->].
  apply bind_Ok in H as [[] [w2 [H2 H]]].
  destruct (truthy content); cbn [negb] in H2.
  - unfold ret in H2. inversion H2; subst.
    apply rethrowing_Ok in H. unfold fs_writeFile in H. inversion H. auto.
  - unfold bind, logger_warn, logMessage, throw in H2. discriminate.
Qed.

Lemma writeFile_accept (path content keyName : jsstring) (w : World) :
  acceptablePath path = true -> truthy content = true ->
  FileManager_writeFile path content keyName w = (Ok tt, setFile w path content).
Proof.
  intros Hp Hc. unfold FileManager_writeFile, bind.
  rewrite (validatePath_accept _ _ Hp), Hc. cbn [negb]. unfold ret at 1.
  apply rethrowing_Ok. reflexivity.
Qed.

(** The files after a write, as a function of the files before. *)
Lemma setFile_files (w : World) (path content : jsstring) (f : jsstring -> option jsstring) :
  files w = f ->
  files (setFile w path content) = fun p => if eqb p path then Some content else f p.
Proof. intros <-. reflexivity. Qed.

(** Every successful run decomposes into: the file was read, a sequence of
    updates with distinct targeted keys was applied to its lines, each with
    the parameters that [encrypt] returned for the value of its key under the
    manager's secret, and the result, which is not empty, was written back in
    one piece. *)
Lemma encryptEnvVariables_history (lk : option (list jsstring)) (w w' : World)
    (count : nat) :
  encryptEnvVariables P mgr lk w = (Ok count, w') ->
  exists content us,
    files w (environmentFilePath mgr) = Some content
    /\ NoDup (map fst us)
    /\ (forall k p, In (k, p) us ->
          exists v, get (targetSet (extractEnvironmentVariables (split content NEWLINE)) lk) k
                    = Some (Text v) /\ looksEncrypted P v = false)
    /\ (forall k v,
          get (targetSet (extractEnvironmentVariables (split content NEWLINE)) lk) k
          = Some (Text v) ->
          looksEncrypted P v = true \/ In k (map fst us))
    /\ count = length us
    /\ acceptablePath (environmentFilePath mgr) = true
    /\ truthy (join (applyUpdates P us (split content NEWLINE)) NEWLINE) = true
    /\ files w' = (fun p => if eqb p (environmentFilePath mgr)
                            then Some (join (applyUpdates P us (split content NEWLINE)) NEWLINE)
                            else files w p)
    /\ (forall k p, In (k, p) us ->
          exists v w0 w0',
            get (targetSet (extractEnvironmentVariables (split content NEWLINE)) lk) k
            = Some (Text v)
            /\ encrypt P v (secretKeyVariable mgr) w0 = (Ok p, w0')).
Proof.
  unfold encryptEnvVariables. intro H. apply rethrowing_Ok in H.
  apply bind_Ok in H as [lines [w1 [Hread H]]].
  unfold readEnvFileAsLines in Hread. apply rethrowing_Ok in Hread.
  apply bind_Ok in Hread as [content [w0 [Hfile Hsplit]]].
  unfold fs_readFileSync in Hfile.
  destruct (files w (environmentFilePath mgr)) as [c|] eqn:Efile; [|discriminate].
  inversion Hfile; subst c w0. unfold ret in Hsplit. inversion Hsplit; subst lines w1.
  clear Hfile Hsplit.
  set (lines := split content NEWLINE) in *.
  set (all := extractEnvironmentVariables lines) in *.
  apply bind_Ok in H as [targets [w2 [Hdet H]]].
  destruct (determineVariablesToEncrypt_run all lk w) as [w2' [Hdet' _]].
  rewrite Hdet' in Hdet. inversion Hdet; subst targets w2'. clear Hdet.
  pose proof (keepsFiles_determineVariablesToEncrypt all lk w) as Hf2.
  rewrite Hdet' in Hf2. simpl in Hf2.
  apply bind_Ok in H as [r [w3 [Hproc H]]].
  pose proof (keepsFiles_processEntries P mgr
                (Object_entries (targetSet all lk)) lines 0 w2) as Hf3.
  unfold processVariablesForEncryption in Hproc. rewrite Hproc in Hf3. simpl in Hf3.
  assert (NoDup (map fst all)) as Hall by apply extract_unique.
  assert (forall k x, In (k, x) (Object_entries (targetSet all lk)) ->
                      get (targetSet all lk) k = Some x) as Hmem.
  { intros k x Hin. apply In_get; [apply targetSet_unique|].
    now apply Object_entries_In. }
  assert (forall k v, get (targetSet all lk) k = Some (Text v) -> validValue v) as Hval.
  { intros k v Hg. apply targetSet_sound in Hg; [|assumption].
    now apply extract_valid in Hg. }
  apply processEntries_trace in Hproc as [us [H1 [H2 [H3 [H4 [H5 [_ H7]]]]]]].
  2:{ intros k v Hin. apply tight_trim. apply (Hval k v). now apply Hmem. }
  apply bind_Ok in H as [[] [w4 [Hwrite H]]].
  unfold writeEnvFileLines in Hwrite. apply rethrowing_Ok in Hwrite.
  apply writeFile_Ok in Hwrite as [Hpath [Hcontent ->]].
  apply bind_Ok in H as [[] [w5 [Hlog H]]].
  unfold ret in H. inversion H; subst count w5. clear H.
  assert (files w' = files (setFile w3 (environmentFilePath mgr) (join (fst r) NEWLINE)))
    as Hf5.
  { unfold logEncryptionSuccess in Hlog. apply rethrowing_Ok in Hlog.
    destruct (0 <? snd r)%nat.
    - unfold logger_info, logMessage in Hlog. inversion Hlog. reflexivity.
    - unfold ret in Hlog. inversion Hlog. reflexivity. }
  exists content, us. rewrite H1 in *. repeat split.
  - apply H5. apply Object_entries_unique, targetSet_unique.
  - intros k p Hin. destruct (H3 k p Hin) as [v [Hv [_ Hl]]].
    exists v. split; [now apply Hmem | assumption].
  - intros k v Hg. apply (H4 k v).
    + apply Object_entries_In. now apply get_In.
    + destruct (Hval k v Hg) as [Hne _]. destruct v; [contradiction | reflexivity].
  - rewrite H2. reflexivity.
  - exact Hpath.
  - exact Hcontent.
  - rewrite Hf5. apply setFile_files. congruence.
  - intros k p Hin. destruct (H7 k p Hin) as [v [w0 [w0' [Hv He]]]].
    exists v, w0, w0'. split; [now apply Hmem | assumption].
Qed.

(** The same without the origin of the parameters. *)
Lemma encryptEnvVariables_success (lk : option (list jsstring)) (w w' : World)
    (count : nat) :
  encryptEnvVariables P mgr lk w = (Ok count, w') ->
  exists content us,
    files w (environmentFilePath mgr) = Some content
    /\ NoDup (map fst us)
    /\ (forall k p, In (k, p) us ->
          exists v, get (targetSet (extractEnvironmentVariables (split content NEWLINE)) lk) k
                    = Some (Text v) /\ looksEncrypted P v = false)
    /\ (forall k v,
          get (targetSet (extractEnvironmentVariables (split content NEWLINE)) lk) k
          = Some (Text v) ->
          looksEncrypted P v = true \/ In k (map fst us))
    /\ count = length us
    /\ acceptablePath (environmentFilePath mgr) = true
    /\ truthy (join (applyUpdates P us (split content NEWLINE)) NEWLINE) = true
    /\ files w' = (fun p => if eqb p (environmentFilePath mgr)
                            then Some (join (applyUpdates P us (split content NEWLINE)) NEWLINE)
                            else files w p).
Proof.
  intro H. apply encryptEnvVariables_history in H
    as [content [us [H1 [H2 [H3 [H4 [H5 [H6 [H7 [H8 _]]]]]]]]]].
  exists content, us. repeat split; assumption.
Qed.

(** In a successful rewrite every value of the target set is a string: no
    lookup was the name of an inherited method. *)
Lemma encryptEnvVariables_texts (lk : option (list jsstring)) (w w' : World)
    (count : nat) (content : jsstring) :
  encryptEnvVariables P mgr lk w = (Ok count, w') ->
  files w (environmentFilePath mgr) = Some content ->
  forall k x,
    get (targetSet (extractEnvironmentVariables (split content NEWLINE)) lk) k = Some x ->
    exists v, x = Text v.
Proof.
  unfold encryptEnvVariables. intros H Hcontent. apply rethrowing_Ok in H.
  apply bind_Ok in H as [lines [w1 [Hread H]]].
  unfold readEnvFileAsLines in Hread. apply rethrowing_Ok in Hread.
  apply bind_Ok in Hread as [content' [w0 [Hfile Hsplit]]].
  unfold fs_readFileSync in Hfile. rewrite Hcontent in Hfile.
  inversion Hfile; subst content' w0. unfold ret in Hsplit. inversion Hsplit; subst lines w1.
  clear Hfile Hsplit.
  set (all := extractEnvironmentVariables (split content NEWLINE)) in *.
  apply bind_Ok in H as [targets [w2 [Hdet H]]].
  destruct (determineVariablesToEncrypt_run all lk w) as [w2' [Hdet' _]].
  rewrite Hdet' in Hdet. inversion Hdet; subst targets w2'. clear Hdet.
  apply bind_Ok in H as [r [w3 [Hproc _]]].
  unfold processVariablesForEncryption in Hproc.
  apply processEntries_trace in Hproc as [us [_ [_ [_ [_ [_ [H6 _]]]]]]].
  - intros k x Hg. apply (H6 k x). apply Object_entries_In. now apply get_In.
  - intros k v Hin. apply tight_trim.
    apply (proj1 (Object_entries_In _ _)) in Hin.
    apply In_get in Hin; [|apply targetSet_unique].
    apply targetSet_sound in Hin; [|apply extract_unique].
    now apply extract_valid in Hin as [_ [_ Ht]].
Qed.

End Runs.

(** ** TextEncoder and TextDecoder *)

Section CodecFacts.

#[local] Arguments N.eqb : simpl never.
#[local] Arguments N.leb : simpl never.
#[local] Arguments N.ltb : simpl never.
#[local] Arguments N.add : simpl never.
#[local] Arguments N.sub : simpl never.
#[local] Arguments N.mul : simpl never.
#[local] Arguments N.div : simpl never.
#[local] Arguments N.modulo : simpl never.

Ltac decide_tests :=
  repeat match goal with
    | |- context [N.leb ?a ?b] =>
        first [ rewrite (proj2 (N.leb_le a b)) by lia
              | rewrite (proj2 (N.leb_gt a b)) by lia ]
    | |- context [N.ltb ?a ?b] =>
        first [ rewrite (proj2 (N.ltb_lt a b)) by lia
              | rewrite (proj2 (N.ltb_ge a b)) by lia ]
    | |- context [N.eqb ?a ?b] =>
        first [ rewrite (proj2 (N.eqb_eq a b)) by lia
              | rewrite (proj2 (N.eqb_neq a b)) by lia ]
    end.

Lemma inRange_true (lo hi x : N) : (lo <= x)%N -> (x <= hi)%N -> inRange lo hi x = true.
Proof. intros. unfold inRange. apply andb_true_iff. split; now apply N.leb_le. Qed.

Lemma inRange_false (lo hi x : N) : (x < lo \/ hi < x)%N -> inRange lo hi x = false.
Proof.
  intros [H|H]; unfold inRange; apply andb_false_iff; [left | right]; now apply N.leb_gt.
Qed.

Lemma decode_step1 (a : N) (r : list N) :
  (a <= 0x7F)%N -> utf8_decode (a :: r) = a :: utf8_decode r.
Proof. intro H. cbn [utf8_decode]. now rewrite (proj2 (N.leb_le _ _) H). Qed.

Lemma decode_step2 (a b : N) (r : list N) :
  (0xC2 <= a <= 0xDF)%N -> (0x80 <= b <= 0xBF)%N ->
  utf8_decode (a :: b :: r) = ((a - 0xC0) * 0x40 + (b - 0x80))%N :: utf8_decode r.
Proof.
  intros Ha Hb. remember (b :: r) as r0 eqn:E. cbn [utf8_decode].
  rewrite (proj2 (N.leb_gt _ _)) by lia.
  rewrite (inRange_true 0xC2 0xDF) by lia. subst r0.
  rewrite (inRange_true 0x80 0xBF) by lia. reflexivity.
Qed.

Lemma decode_step3 (a b c : N) (r : list N) :
  (0xE0 <= a <= 0xEF)%N ->
  ((if a =? 0xE0 then 0xA0 else 0x80) <= b)%N ->
  (b <= (if a =? 0xED then 0x9F else 0xBF))%N ->
  (0x80 <= c <= 0xBF)%N ->
  utf8_decode (a :: b :: c :: r)
  = (((a - 0xE0) * 0x40 + (b - 0x80)) * 0x40 + (c - 0x80))%N :: utf8_decode r.
Proof.
  intros Ha Hlo Hhi Hc. remember (b :: c :: r) as r0 eqn:E. cbn [utf8_decode].
  rewrite (proj2 (N.leb_gt _ _)) by lia.
  rewrite (inRange_false 0xC2 0xDF) by lia.
  rewrite (inRange_true 0xE0 0xEF) by lia. subst r0. cbv zeta.
  rewrite inRange_true by assumption.
  rewrite (inRange_true 0x80 0xBF) by lia. reflexivity.
Qed.

Lemma decode_step4 (a b c d : N) (r : list N) :
  (0xF0 <= a <= 0xF4)%N ->
  ((if a =? 0xF0 then 0x90 else 0x80) <= b)%N ->
  (b <= (if a =? 0xF4 then 0x8F else 0xBF))%N ->
  (0x80 <= c <= 0xBF)%N -> (0x80 <= d <= 0xBF)%N ->
  utf8_decode (a :: b :: c :: d :: r)
  = ((((a - 0xF0) * 0x40 + (b - 0x80)) * 0x40 + (c - 0x80)) * 0x40 + (d - 0x80))%N
      :: utf8_decode r.
Proof.
  intros Ha Hlo Hhi Hc Hd. remember (b :: c :: d :: r) as r0 eqn:E. cbn [utf8_decode].
  rewrite (proj2 (N.leb_gt _ _)) by lia.
  rewrite (inRange_false 0xC2 0xDF) by lia.
  rewrite (inRange_false 0xE0 0xEF) by lia.
  rewrite (inRange_true 0xF0 0xF4) by lia. subst r0. cbv zeta.
  rewrite inRange_true by assumption.
  rewrite (inRange_true 0x80 0xBF c) by lia.
  rewrite (inRange_true 0x80 0xBF d) by lia. reflexivity.
Qed.

Lemma utf8_decode_codePoint (cp : N) (rest : list N) :
  isScalar cp ->
  utf8_decode (utf8_of_codePoint cp ++ rest) = cp :: utf8_decode rest.
Proof.
  intro Hs. unfold isScalar in Hs. unfold utf8_of_codePoint.
  destruct (N.ltb_spec cp 0x80) as [H1|H1].
  { cbn [app]. apply decode_step1. lia. }
  destruct (N.ltb_spec cp 0x800) as [H2|H2].
  { cbn [app]. rewrite decode_step2 by lia. f_equal. lia. }
  destruct (N.ltb_spec cp 0x10000) as [H3|H3].
  { cbn [app]. rewrite decode_step3.
    - f_equal. lia.
    - lia.
    - destruct (N.eqb_spec (0xE0 + cp / 0x1000) 0xE0); lia.
    - destruct (N.eqb_spec (0xE0 + cp / 0x1000) 0xED); lia.
    - lia. }
  cbn [app]. rewrite decode_step4.
  - f_equal. lia.
  - lia.
  - destruct (N.eqb_spec (0xF0 + cp / 0x40000) 0xF0); lia.
  - destruct (N.eqb_spec (0xF0 + cp / 0x40000) 0xF4); lia.
  - lia.
  - lia.
Qed.

Lemma utf8_decode_encode (cps : list N) :
  Forall isScalar cps -> utf8_decode (flat_map utf8_of_codePoint cps) = cps.
Proof.
  induction 1 as [|cp cps Hcp _ IH]; [reflexivity|].
  cbn [flat_map]. rewrite utf8_decode_codePoint by assumption. now f_equal.
Qed.

Lemma utf8_bytes (cp : N) :
  (cp < 0x110000)%N -> Forall (fun b => (b <= 255)%N) (utf8_of_codePoint cp).
Proof.
  intro H. unfold utf8_of_codePoint.
  destruct (N.ltb_spec cp 0x80); [repeat constructor; lia|].
  destruct (N.ltb_spec cp 0x800); [repeat constructor; lia|].
  destruct (N.ltb_spec cp 0x10000); repeat constructor; lia.
Qed.

Lemma to_N_byte_of_N (n : N) : (n <= 255)%N -> Byte.to_N (byte_of_N n) = n.
Proof.
  intro H. unfold byte_of_N. destruct (Byte.of_N n) as [b|] eqn:E.
  - now apply Byte.to_of_N.
  - apply Byte.of_N_None_iff in E. lia.
Qed.

Lemma byte_of_N_to_N (b : byte) : byte_of_N (Byte.to_N b) = b.
Proof. unfold byte_of_N. now rewrite Byte.of_to_N. Qed.

Lemma map_to_N_byte_of_N (xs : list N) :
  Forall (fun b => (b <= 255)%N) xs -> map Byte.to_N (map byte_of_N xs) = xs.
Proof.
  induction 1 as [|x xs Hx _ IH]; [reflexivity|].
  simpl. rewrite to_N_byte_of_N by assumption. now f_equal.
Qed.

Lemma isScalar_bound (cp : N) : isScalar cp -> (cp < 0x110000)%N.
Proof. unfold isScalar. lia. Qed.

Lemma surrogate_tests (c : N) :
  (isHighSurrogate c = true <-> (0xD800 <= c <= 0xDBFF)%N)
  /\ (isLowSurrogate c = true <-> (0xDC00 <= c <= 0xDFFF)%N).
Proof.
  unfold isHighSurrogate, isLowSurrogate.
  rewrite !andb_true_iff, !N.leb_le. tauto.
Qed.

(** Well-formed strings, two characters at a time. *)
Lemma wellFormed_ind (Q : jsstring -> Prop) :
  Q [] ->
  (forall c s, isHighSurrogate c = false -> isLowSurrogate c = false ->
               (c < 0x10000)%N -> wellFormed s = true -> Q s -> Q (c :: s)) ->
  (forall c d s, isHighSurrogate c = true -> isLowSurrogate d = true ->
                 wellFormed s = true -> Q s -> Q (c :: d :: s)) ->
  forall s, wellFormed s = true -> Q s.
Proof.
  intros Hnil Hone Htwo.
  assert (forall n s, (length s <= n)%nat -> wellFormed s = true -> Q s) as H.
  { induction n as [|n IH]; intros s Hlen Hwf.
    - destruct s; [exact Hnil | simpl in Hlen; lia].
    - destruct s as [|c s]; [exact Hnil|].
      cbn [wellFormed] in Hwf. destruct (isHighSurrogate c) eqn:Eh.
      + destruct s as [|d s]; [discriminate|].
        apply andb_true_iff in Hwf as [Hd Hwf].
        apply Htwo; try assumption. apply IH; [simpl in Hlen; lia | assumption].
      + apply andb_true_iff in Hwf as [Hwf1 Hwf].
        apply andb_true_iff in Hwf1 as [Hl Hb].
        apply negb_true_iff in Hl. apply N.ltb_lt in Hb.
        apply Hone; try assumption. apply IH; [simpl in Hlen; lia | assumption]. }
  intros s Hwf. now apply (H (length s)).
Qed.

Lemma codePoints_scalar (s : jsstring) :
  wellFormed s = true -> Forall isScalar (codePoints s).
Proof.
  revert s. apply (wellFormed_ind (fun s => Forall isScalar (codePoints s))).
  - constructor.
  - intros c s Hh Hl Hb _ IH. cbn [codePoints]. rewrite Hh, Hl.
    constructor; [|exact IH].
    destruct (surrogate_tests c) as [T1 T2]. unfold isScalar.
    destruct (N.lt_ge_cases c 0xD800); [now left|]. right.
    destruct (N.le_gt_cases c 0xDBFF).
    { assert (isHighSurrogate c = true) by (apply T1; lia). congruence. }
    destruct (N.le_gt_cases c 0xDFFF).
    { assert (isLowSurrogate c = true) by (apply T2; lia). congruence. }
    lia.
  - intros c d s Hh Hl _ IH. cbn [codePoints]. rewrite Hh, Hl.
    constructor; [|exact IH].
    apply surrogate_tests in Hh, Hl. unfold isScalar. lia.
Qed.

Lemma utf16_codePoints (s : jsstring) :
  wellFormed s = true -> flat_map utf16_of_codePoint (codePoints s) = s.
Proof.
  revert s.
  apply (wellFormed_ind (fun s => flat_map utf16_of_codePoint (codePoints s) = s)).
  - reflexivity.
  - intros c s Hh Hl Hb _ IH. cbn [codePoints]. rewrite Hh, Hl.
    cbn [flat_map]. rewrite IH. unfold utf16_of_codePoint.
    decide_tests. reflexivity.
  - intros c d s Hh Hl _ IH. cbn [codePoints]. rewrite Hh, Hl.
    cbn [flat_map]. rewrite IH. unfold utf16_of_codePoint.
    apply surrogate_tests in Hh, Hl.
    decide_tests. cbn [app]. f_equal; [lia | f_equal; lia].
Qed.

Lemma codePoints_head (s : jsstring) :
  wellFormed s = true -> startsWith s [BOM] = false ->
  hd 0%N (codePoints s) <> BOM.
Proof.
  destruct s as [|c s]; [discriminate|].
  cbn [wellFormed codePoints startsWith]. unfold BOM.
  destruct (isHighSurrogate c) eqn:Eh.
  - destruct s as [|d s]; [discriminate|].
    intros Hwf _. apply andb_true_iff in Hwf as [Hd _]. rewrite Hd. cbn [hd].
    apply surrogate_tests in Eh, Hd. lia.
  - intros Hwf Hs. apply andb_true_iff in Hwf as [Hwf _].
    apply andb_true_iff in Hwf as [Hl _]. apply negb_true_iff in Hl. rewrite Hl.
    cbn [hd]. rewrite andb_true_r in Hs. apply N.eqb_neq in Hs. exact Hs.
Qed.

Lemma stripBOM_encoded (cps : list N) :
  Forall isScalar cps -> hd 0%N cps <> BOM ->
  stripBOM (flat_map utf8_of_codePoint cps) = flat_map utf8_of_codePoint cps.
Proof.
  intros Hs Hhd. unfold stripBOM.
  destruct (startsWith (flat_map utf8_of_codePoint cps) [0xEF; 0xBB; 0xBF]%N) eqn:E;
    [|reflexivity].
  exfalso. apply startsWith_iff in E as [r Hr].
  pose proof (utf8_decode_encode cps Hs) as Hd. rewrite Hr in Hd.
  destruct cps as [|cp cps]; [discriminate|].
  apply Hhd. cbn in Hd. inversion Hd. reflexivity.
Qed.

(** Decoding inverts encoding on well-formed strings that do not begin with
    a byte order mark. *)
Lemma TextDecoder_TextEncoder (s : jsstring) :
  wellFormed s = true -> startsWith s [BOM] = false ->
  TextDecoder_decode (TextEncoder_encode s) = s.
Proof.
  intros Hwf Hbom. unfold TextDecoder_decode, TextEncoder_encode.
  pose proof (codePoints_scalar s Hwf) as Hs.
  rewrite map_to_N_byte_of_N.
  - rewrite stripBOM_encoded; [|assumption | now apply codePoints_head].
    rewrite utf8_decode_encode by assumption. now apply utf16_codePoints.
  - clear -Hs. induction Hs as [|cp cps Hcp _ IH]; [constructor|].
    cbn [flat_map]. apply Forall_app. split; [|exact IH].
    apply utf8_bytes. now apply isScalar_bound.
Qed.

End CodecFacts.

(** ** Encryption and decryption *)

Section CipherFacts.

Variable P : Platform.

Lemma returns_ret {A} (a : A) : returns (ret a) (Ok a).
Proof. intro w. now exists w. Qed.

Lemma returns_lift {A} (o : Outcome A) : returns (lift o) o.
Proof. intro w. now exists w. Qed.

Lemma returns_bind {A B} (m : M A) (k : A -> M B) (a : A) (o : Outcome B) :
  returns m (Ok a) -> returns (k a) o -> returns (bind m k) o.
Proof.
  intros Hm Hk w. destruct (Hm w) as [w1 H1]. destruct (Hk w1) as [w2 H2].
  exists w2. unfold bind. now rewrite H1.
Qed.

Lemma returns_bind_Throw {A B} (m : M A) (k : A -> M B) (e : JsError) :
  returns m (Throw e) -> returns (bind m k) (Throw e).
Proof.
  intros Hm w. destruct (Hm w) as [w1 H1]. exists w1. unfold bind. now rewrite H1.
Qed.

Lemma returns_rethrowing {A} (source context : string) (body : M A) (o : Outcome A) :
  returns body o -> returns (rethrowing source context body) o.
Proof.
  intros H w. destruct (H w) as [w1 H1]. unfold rethrowing, tryCatch. rewrite H1.
  destruct o; eexists; reflexivity.
Qed.

Lemma returns_unique {A} (m : M A) (o : Outcome A) (w w' : World) (x : Outcome A) :
  returns m o -> m w = (x, w') -> x = o.
Proof. intros H E. destruct (H w) as [w1 H1]. congruence. Qed.

Lemma deriveKeyWithArgon2_returns (secretKey : jsstring) (salt : JsonValue) :
  returns (deriveKeyWithArgon2 P secretKey salt) (deriveKeyOutcome P secretKey salt).
Proof.
  unfold deriveKeyWithArgon2, deriveKeyOutcome. apply returns_rethrowing.
  destruct (Buffer_from_base64 P salt) as [saltBuffer|e] eqn:Es.
  - apply returns_bind with saltBuffer; [apply returns_lift|].
    unfold argon2Hashing, importKeyForCrypto.
    destruct (argon2_hash P secretKey saltBuffer) as [keyBuffer|e] eqn:Ek.
    + apply returns_bind with keyBuffer.
      * apply returns_rethrowing. apply returns_lift.
      * apply returns_rethrowing, returns_lift.
    + apply returns_bind_Throw. apply returns_rethrowing. apply returns_lift.
  - apply returns_bind_Throw. apply returns_lift.
Qed.

Lemma takeEntropy_nonempty (n : Z) (w : World) :
  (0 < n)%Z -> takeEntropy (Z.to_nat n) w <> [].
Proof.
  intro H. unfold takeEntropy. destruct (Z.to_nat n) eqn:E; [lia|]. discriminate.
Qed.

Lemma generateBase64Salt_Ok (n : Z) (w w' : World) (x : jsstring) :
  generateBase64Salt P n w = (Ok x, w') ->
  exists bytes, bytes <> [] /\ x = base64_encode P bytes.
Proof.
  unfold generateBase64Salt. destruct (Z.leb_spec n 0) as [Hn|Hn]; [discriminate|].
  intro H. apply rethrowing_Ok in H. apply bind_Ok in H as [bytes [w1 [Hr H]]].
  unfold ret in H. inversion H; subst. exists bytes. split; [|reflexivity].
  unfold crypto_randomBytes in Hr. destruct (_ || _); [discriminate|].
  inversion Hr. now apply takeEntropy_nonempty.
Qed.

Lemma generateWebCryptoIV_Ok (n : Z) (w w' : World) (x : list byte) :
  generateWebCryptoIV P n w = (Ok x, w') -> x <> [].
Proof.
  unfold generateWebCryptoIV. destruct (Z.leb_spec n 0) as [Hn|Hn]; [discriminate|].
  intro H. apply rethrowing_Ok in H. apply bind_Ok in H as [bytes [w1 [Hr H]]].
  unfold ret in H. inversion H; subst.
  destruct isWebCryptoIv.
  - unfold crypto_getRandomValues in Hr. destruct (n <? 0)%Z; [discriminate|].
    destruct (65536 <? n)%Z; [discriminate|].
    inversion Hr. now apply takeEntropy_nonempty.
  - unfold crypto_randomBytes in Hr. destruct (_ || _); [discriminate|].
    inversion Hr. now apply takeEntropy_nonempty.
Qed.

(** What a successful [encrypt] has done. *)
Lemma encrypt_Ok (value secretKey : jsstring) (w w' : World) (p : EncryptionParameters) :
  encrypt P value secretKey w = (Ok p, w') ->
  exists saltBytes ivBytes key ct,
    saltBytes <> [] /\ ivBytes <> []
    /\ salt p = base64_encode P saltBytes
    /\ iv p = base64_encode P ivBytes
    /\ cipherText p = base64_encode P ct
    /\ deriveKeyOutcome P secretKey (JString (salt p)) = Ok key
    /\ subtle_encrypt P key ivBytes (TextEncoder_encode value) = Ok ct.
Proof.
  unfold encrypt. intro H. apply rethrowing_Ok in H.
  apply bind_Ok in H as [s [w1 [Hsalt H]]].
  apply bind_Ok in H as [ivb [w2 [Hiv H]]].
  apply bind_Ok in H as [key [w3 [Hkey H]]].
  apply bind_Ok in H as [ct [w4 [Hct H]]].
  unfold ret in H. inversion H; subst p w4. clear H.
  apply generateBase64Salt_Ok in Hsalt as [saltBytes [Hne ->]].
  apply generateWebCryptoIV_Ok in Hiv.
  apply (returns_unique _ _ _ _ _ (deriveKeyWithArgon2_returns _ _)) in Hkey.
  unfold encryptBuffer in Hct. apply rethrowing_Ok in Hct.
  unfold lift in Hct. inversion Hct as [[Hc Hw]].
  exists saltBytes, ivb, key, ct. cbn [salt iv cipherText]. repeat split; auto.
Qed.

Hypothesis POk : PlatformOk P.

Lemma stringify_params_truthy (p : EncryptionParameters) :
  truthy (JSON_stringify P (paramsObject p)) = true.
Proof.
  destruct (json_params_braces P POk p) as [body ->]. reflexivity.
Qed.

(** Decrypting the serialized parameters of a successful encryption yields
    the plaintext as the text codec reads it back. *)
Lemma decrypt_encrypt (value secretKey : jsstring) (w w1 : World)
    (p : EncryptionParameters) :
  encrypt P value secretKey w = (Ok p, w1) ->
  returns (decrypt P (JSON_stringify P (paramsObject p)) secretKey)
          (Ok (TextDecoder_decode (TextEncoder_encode value))).
Proof.
  intro H. apply encrypt_Ok in H
    as [saltBytes [ivBytes [key [ct [Hs [Hi [Es [Ei [Ec [Hkey Henc]]]]]]]]]].
  assert (truthy (salt p) = true) as Ts.
  { rewrite Es. destruct (base64_encode P saltBytes) eqn:E; [|reflexivity].
    apply (base64_nonempty P POk) in E. contradiction. }
  assert (truthy (iv p) = true) as Ti.
  { rewrite Ei. destruct (base64_encode P ivBytes) eqn:E; [|reflexivity].
    apply (base64_nonempty P POk) in E. contradiction. }
  assert (truthy (cipherText p) = true) as Tc.
  { rewrite Ec. destruct (base64_encode P ct) eqn:E; [|reflexivity].
    apply (base64_nonempty P POk) in E. subst ct.
    exfalso. exact (aes_gcm_tag P POk _ _ _ Henc). }
  unfold decrypt. apply returns_rethrowing.
  apply returns_bind with (paramsObject p).
  { unfold parseEncryptedData. apply returns_rethrowing.
    rewrite stringify_params_truthy. cbn [negb].
    apply returns_bind with tt; [apply returns_ret|].
    apply returns_bind with (paramsObject p).
    { rewrite (json_params_roundtrip P POk). apply returns_lift. }
    apply returns_bind with tt; [|apply returns_ret].
    unfold validateParsedData. apply returns_rethrowing.
    change (getProperty (paramsObject p) (js "salt")) with (Some (JString (salt p))).
    change (getProperty (paramsObject p) (js "iv")) with (Some (JString (iv p))).
    change (getProperty (paramsObject p) (js "cipherText"))
      with (Some (JString (cipherText p))).
    cbn [paramsObject truthyValue]. rewrite Ts, Ti, Tc. apply returns_ret. }
  change (field (paramsObject p) (js "salt")) with (JString (salt p)).
  change (field (paramsObject p) (js "iv")) with (JString (iv p)).
  change (field (paramsObject p) (js "cipherText")) with (JString (cipherText p)).
  apply returns_bind with key.
  { rewrite <- Hkey. apply deriveKeyWithArgon2_returns. }
  cbn [Buffer_from_base64].
  apply returns_bind with ivBytes.
  { rewrite Ei, (base64_roundtrip P POk). apply returns_lift. }
  apply returns_bind with ct.
  { rewrite Ec, (base64_roundtrip P POk). apply returns_lift. }
  apply returns_bind with (TextEncoder_encode value); [|apply returns_ret].
  unfold decryptBuffer. apply returns_rethrowing.
  rewrite (aes_gcm_roundtrip P POk _ _ _ _ Henc). apply returns_lift.
Qed.

End CipherFacts.

(** ** The reference platform satisfies the assumptions *)

Module ReferenceFacts.

Import Reference.

#[local] Arguments N.eqb : simpl never.

Lemma unmask_mask (k : N) (b : byte) : (k <= 255)%N -> unmask k (mask k b) = b.
Proof.
  intro Hk. unfold unmask, mask. pose proof (Byte.to_N_bounded b) as Hb.
  rewrite to_N_byte_of_N by lia.
  replace ((((Byte.to_N b + k) mod 256) + 256 - k) mod 256)%N with (Byte.to_N b) by lia.
  apply byte_of_N_to_N.
Qed.

Lemma keyByte_bounded (key : list byte) : (keyByte key <= 255)%N.
Proof. destruct key as [|k key]; simpl; [lia | apply Byte.to_N_bounded]. Qed.

Lemma tag_length (key iv : list byte) : length (tag key iv) = 16%nat.
Proof.
  unfold tag. rewrite length_firstn, !length_app, repeat_length. lia.
Qed.

Lemma aes_roundtrip (key iv data ct : list byte) :
  aesEncrypt key iv data = Ok ct -> aesDecrypt key iv ct = Ok data.
Proof.
  unfold aesEncrypt, aesDecrypt. intro H. inversion H; subst ct. clear H.
  pose proof (tag_length key iv) as Ht.
  rewrite length_app, length_map, Ht.
  replace (length data + 16 - 16)%nat with (length (map (mask (keyByte key)) data))
    by (rewrite length_map; lia).
  rewrite skipn_app, skipn_all, Nat.sub_diag. cbn [skipn app].
  rewrite firstn_app, firstn_all, Nat.sub_diag. cbn [firstn]. rewrite app_nil_r.
  assert ((length data + 16 <? 16)%nat = false) as -> by (apply Nat.ltb_ge; lia).
  unfold bytes_eqb. rewrite eqb_refl. cbn [negb orb].
  f_equal. rewrite map_map. rewrite <- (map_id data) at 2.
  apply map_ext. intro b. apply unmask_mask, keyByte_bounded.
Qed.

Lemma aes_tag (key iv data : list byte) : aesEncrypt key iv data = Ok [] -> False.
Proof.
  unfold aesEncrypt. intro H. inversion H as [E].
  apply (f_equal (@length byte)) in E.
  rewrite length_app, tag_length in E. simpl in E. lia.
Qed.

Lemma base64_inverse (bs : list byte) : fromBase64 (toBase64 bs) = bs.
Proof.
  unfold fromBase64, toBase64. rewrite map_map. rewrite <- (map_id bs) at 2.
  apply map_ext. apply byte_of_N_to_N.
Qed.

Lemma base64_empty (bs : list byte) : toBase64 bs = [] -> bs = [].
Proof. unfold toBase64. now destruct bs. Qed.

Lemma stripPrefix_app (pre s : jsstring) : stripPrefix pre (pre ++ s) = Some s.
Proof.
  induction pre as [|c pre IH]; [reflexivity|]. simpl. now rewrite N.eqb_refl.
Qed.

Lemma unquote_escape (s rest : jsstring) :
  unquote (flat_map escapeChar s ++ DQUOTE :: rest) = Some (s, rest).
Proof.
  induction s as [|c s IH].
  - reflexivity.
  - cbn [flat_map]. rewrite <- app_assoc. unfold escapeChar at 1.
    destruct (N.eqb_spec c DQUOTE) as [->|H1].
    { cbn [app unquote]. change (BACKSLASH =? DQUOTE)%N with false.
      rewrite N.eqb_refl. cbn iota. rewrite IH. reflexivity. }
    destruct (N.eqb_spec c BACKSLASH) as [->|H2].
    { cbn [app unquote]. change (BACKSLASH =? DQUOTE)%N with false.
      rewrite N.eqb_refl. cbn iota. rewrite IH. reflexivity. }
    destruct (N.eqb_spec c NEWLINE) as [->|H3].
    { cbn [app unquote]. change (BACKSLASH =? DQUOTE)%N with false.
      rewrite N.eqb_refl. cbn iota. rewrite IH. reflexivity. }
    cbn [app unquote].
    rewrite (proj2 (N.eqb_neq c DQUOTE) H1), (proj2 (N.eqb_neq c BACKSLASH) H2).
    rewrite IH. reflexivity.
Qed.

Lemma escape_one_line (s : jsstring) : includes (flat_map escapeChar s) NEWLINE = false.
Proof.
  induction s as [|c s IH]; [reflexivity|].
  cbn [flat_map]. rewrite includes_app, IH, orb_false_r. unfold escapeChar.
  destruct (N.eqb_spec c DQUOTE); [reflexivity|].
  destruct (N.eqb_spec c BACKSLASH); [reflexivity|].
  destruct (N.eqb_spec c NEWLINE) as [|H]; [reflexivity|].
  unfold includes. cbn [existsb]. now rewrite (proj2 (N.eqb_neq c NEWLINE) H).
Qed.

(** The text written for encryption parameters. *)
Lemma stringify_params (p : EncryptionParameters) :
  stringify (paramsObject p) =
  (LBRACE :: DQUOTE :: js "salt" ++ DQUOTE :: js ":" ++ [DQUOTE])
  ++ flat_map escapeChar (salt p) ++ DQUOTE ::
  (js "," ++ DQUOTE :: js "iv" ++ DQUOTE :: js ":" ++ [DQUOTE])
  ++ flat_map escapeChar (iv p) ++ DQUOTE ::
  (js "," ++ DQUOTE :: js "cipherText" ++ DQUOTE :: js ":" ++ [DQUOTE])
  ++ flat_map escapeChar (cipherText p) ++ [DQUOTE; RBRACE].
Proof.
  unfold paramsObject. cbn [stringify map fst snd join].
  change (quote (js "salt")) with (DQUOTE :: js "salt" ++ [DQUOTE]).
  change (quote (js "iv")) with (DQUOTE :: js "iv" ++ [DQUOTE]).
  change (quote (js "cipherText")) with (DQUOTE :: js "cipherText" ++ [DQUOTE]).
  unfold quote. cbn [js list_ascii_of_string map app].
  repeat (rewrite <- app_assoc; cbn [app]). reflexivity.
Qed.

Lemma parse_stringify (p : EncryptionParameters) :
  parse (stringify (paramsObject p)) = Ok (paramsObject p).
Proof.
  unfold parse, parseParams. rewrite stringify_params.
  rewrite stripPrefix_app, unquote_escape.
  rewrite stripPrefix_app, unquote_escape.
  rewrite stripPrefix_app, unquote_escape.
  rewrite N.eqb_refl. reflexivity.
Qed.

Lemma stringify_one_line (p : EncryptionParameters) :
  includes (stringify (paramsObject p)) NEWLINE = false.
Proof.
  assert (forall c s x, includes (c :: s) x = (c =? x)%N || includes s x) as Hcons
    by reflexivity.
  rewrite stringify_params.
  repeat first [rewrite includes_app | rewrite escape_one_line | rewrite Hcons].
  reflexivity.
Qed.

Lemma platform_ok : PlatformOk platform.
Proof.
  constructor; cbn [platform base64_decode base64_encode subtle_encrypt subtle_decrypt
                    JSON_parse JSON_stringify].
  - apply base64_inverse.
  - apply base64_empty.
  - apply aes_roundtrip.
  - apply aes_tag.
  - apply parse_stringify.
  - intro p. eexists. unfold paramsObject. cbn [stringify]. reflexivity.
  - apply stringify_one_line.
Qed.

End ReferenceFacts.

(* ================================================================== *)
(** * Part III.  The claims of the specification                       *)
(* ================================================================== *)

(** ** isAlreadyEncrypted *)

(** C5.  [isAlreadyEncrypted] never throws, whatever the platform's JSON
    parser does, and it answers true exactly when the value is not empty, its
    trimmed form starts with an opening and ends with a closing brace, the
    value parses as JSON and the parsed value has the three properties
    [salt], [iv] and [cipherText]; when parsing fails the answer is false. *)
Theorem isAlreadyEncrypted_iff (P : Platform) (value : jsstring) (w : World) :
  exists b w',
    isAlreadyEncrypted P value w = (Ok b, w')
    /\ (b = true <->
        value <> []
        /\ startsWith (trim value) [LBRACE] = true
        /\ endsWith (trim value) [RBRACE] = true
        /\ exists parsed,
             JSON_parse P value = Ok parsed
             /\ hasProperty parsed (js "salt") = true
             /\ hasProperty parsed (js "iv") = true
             /\ hasProperty parsed (js "cipherText") = true)
    /\ (forall e, JSON_parse P value = Throw e -> b = false).
Proof.
  pose proof (isAlreadyEncrypted_result P value w) as Hr.
  destruct (isAlreadyEncrypted P value w) as [[b|e] w'] eqn:E; simpl in Hr;
    [|discriminate].
  inversion Hr as [Hb]. exists (looksEncrypted P value), w'.
  split; [reflexivity|]. unfold looksEncrypted. split; [split|].
  - intro H. apply andb_true_iff in H as [H Hp]. apply andb_true_iff in H as [Ht H].
    apply andb_true_iff in H as [Hs He].
    split; [intro Hv; subst; discriminate|]. repeat split; try assumption.
    destruct (JSON_parse P value) as [parsed|err]; [|discriminate].
    exists parsed. apply andb_true_iff in Hp as [Hp H3].
    apply andb_true_iff in Hp as [Hp H2]. apply andb_true_iff in Hp as [_ H1].
    auto.
  - intros [Hv [Hs [He [parsed [Hp [H1 [H2 H3]]]]]]].
    rewrite Hs, He, Hp, H1, H2, H3.
    destruct value; [contradiction|].
    destruct parsed; try discriminate. reflexivity.
  - intros e Hthrow. rewrite Hthrow. apply andb_false_r.
Qed.

(** ** SecureKeyGenerator *)

(** The four guarded generators refuse a length that is not positive before
    they ask for any random byte. *)
Lemma guarded_generators_refuse (P : Platform) (length : Z) (w : World) :
  (length <= 0)%Z ->
  (exists e, generateBase64IV P length w = (Throw e, w))
  /\ (exists e, generateBufferIV length w = (Throw e, w))
  /\ (exists e, generateWebCryptoIV P length w = (Throw e, w))
  /\ (exists e, generateBase64Salt P length w = (Throw e, w)).
Proof.
  intro H. apply Z.leb_le in H.
  unfold generateBase64IV, generateBufferIV, generateWebCryptoIV, generateBase64Salt.
  rewrite H. repeat split; eexists; reflexivity.
Qed.

(** C6 (the code departs from the claim).  [generateBase64SecretKey] has no
    guard on its length: called with zero it asks the generator for zero
    bytes, which succeeds, and returns the base64 text of the empty buffer
    instead of failing. *)
Theorem generateBase64SecretKey_zero (P : Platform) (w : World) :
  generateBase64SecretKey P 0 w = (Ok (base64_encode P []), consumeEntropy 0 w)
  /\ randomCalls (consumeEntropy 0 w) = S (randomCalls w).
Proof. split; reflexivity. Qed.

(** With a negative length the error comes from the generator itself, which
    has been called by then. *)
Lemma generateBase64SecretKey_negative (P : Platform) (length : Z) (w : World) :
  (length < 0)%Z ->
  exists e w', generateBase64SecretKey P length w = (Throw e, w')
               /\ randomCalls w' = S (randomCalls w).
Proof.
  intro H. apply Z.ltb_lt in H.
  unfold generateBase64SecretKey, rethrowing, tryCatch, bind, crypto_randomBytes.
  rewrite H. cbn [orb]. eexists. eexists. split; reflexivity.
Qed.

(** ** Lookups that match nothing *)

(** C7 (the code departs from the claim).  A lookup that matches no key and
    no value is skipped without an error, but no warning is logged: the
    record returned by [findEnvironmentVariable] is an object, hence truthy,
    and the branch that warns is never taken.  Here the world, and with it
    the log, is returned exactly as it was. *)
Theorem unresolved_lookup_logs_nothing (w : World) :
  determineVariablesToEncrypt (extractEnvironmentVariables [js "A=1"])
                              (Some [js "MISSING"]) w
  = (Ok [], w).
Proof. destruct w. reflexivity. Qed.

(** In general target selection never throws and logs informational messages
    only. *)
Lemma determineVariablesToEncrypt_never_warns (all : Record)
    (lk : option (list jsstring)) (w : World) :
  exists w', determineVariablesToEncrypt all lk w = (Ok (targetSet all lk), w')
             /\ infoOnly w w' /\ files w' = files w.
Proof.
  destruct (determineVariablesToEncrypt_run all lk w) as [w' [H I]].
  exists w'. repeat split; try assumption.
  pose proof (keepsFiles_determineVariablesToEncrypt all lk w) as Hf.
  now rewrite H in Hf.
Qed.

(** An unresolved lookup contributes nothing to the target set, and the
    lookups after it are still resolved; here the lookup must not be the name
    of a method that every object inherits. *)
Lemma unresolved_lookup_skipped (all : Record) (l : jsstring) :
  get all l = None -> isPrototypeMethod l = false ->
  (forall e, In e (Object_entries all) -> snd e <> l) ->
  foundEntry all l = [].
Proof.
  intros Hk Hm Hv. unfold foundEntry, readProperty. rewrite Hk, Hm. cbv zeta.
  assert (find (fun e => eqb (snd e) l) (Object_entries all) = None) as ->.
  { destruct (find _ _) as [[k v]|] eqn:E; [|reflexivity].
    apply find_some in E as [Hin Heq]. apply eqb_eq in Heq.
    exfalso. exact (Hv _ Hin Heq). }
  destruct (eqb l PROTO) eqn:E; [|reflexivity].
  cbn [truthyProperty]. unfold set. now rewrite E.
Qed.

(** A lookup that is no key of the file but the name of an inherited method,
    [toString] say, finds that method: the target set then holds a function,
    and the loop over the target set fails at it. *)
Lemma inherited_method_lookup (all : Record) (l : jsstring) :
  get all l = None -> isPrototypeMethod l = true ->
  foundEntry all l = [(l, Method l)].
Proof.
  intros Hk Hm. unfold foundEntry, readProperty. rewrite Hk, Hm. cbv zeta.
  assert (eqb l PROTO = false) as E.
  { destruct (eqb l PROTO) eqn:E; [|reflexivity].
    apply eqb_eq in E. subst l. discriminate. }
  rewrite E. cbn [truthyProperty]. unfold set. now rewrite E.
Qed.

(** ** A failing encryption aborts the rewrite *)

Section FailFast.

Variable P : Platform.
Variable mgr : EnvironmentFileManager.

Lemma bind_run {A B} (m : M A) (k : A -> M B) (w w1 : World) (a : A) :
  m w = (Ok a, w1) -> bind m k w = k a w1.
Proof. intro H. unfold bind. now rewrite H. Qed.

Lemma bind_Throw {A B} (m : M A) (k : A -> M B) (w w1 : World) (e : JsError) :
  m w = (Throw e, w1) -> bind m k w = (Throw e, w1).
Proof. intro H. unfold bind. now rewrite H. Qed.

Lemma outcome_and_world {A} (x : Outcome A * World) (o : Outcome A) :
  fst x = o -> x = (o, snd x).
Proof. intros <-. now destruct x. Qed.

(** The loop over a list of entries that continues another one. *)
Lemma processEntries_app (before rest : list (jsstring * PropertyValue)) :
  forall (lines : list jsstring) (n : nat) (w : World),
    processEntries P mgr (before ++ rest) lines n w
    = match processEntries P mgr before lines n w with
      | (Ok r, w1) => processEntries P mgr rest (fst r) (snd r) w1
      | (Throw e, w1) => (Throw e, w1)
      end.
Proof.
  induction before as [|[key value] before IH]; intros lines n w; [reflexivity|].
  change (((key, value) :: before) ++ rest) with ((key, value) :: (before ++ rest)).
  destruct value as [v|m|];
    [|rewrite !processEntries_not_text by discriminate; reflexivity
     |rewrite !processEntries_not_text by discriminate; reflexivity].
  rewrite !processEntries_text. destruct (truthy v); [|apply IH].
  unfold bind at 1 3.
  destruct (encryptIfNeeded P (trim v) (secretKeyVariable mgr) w) as [[x|e] w1];
    [|reflexivity].
  destruct (skipsEncryption x (Text v)); [|apply IH].
  unfold bind, logger_info, logMessage. apply IH.
Qed.

(** C2.  Let the loop of a rewrite have gone through the targeted entries
    [before] and reach the targeted value [value], which is not judged
    encrypted, and let [encrypt] throw the error [e] for it in the state
    reached then (the loop passes the value trimmed; a targeted value has no
    white space at its ends).  Then [encryptEnvVariables] throws that same
    error [e], and the file system after the call is the file system before
    it: nothing has been written. *)
Theorem encryption_failure_writes_nothing (lk : option (list jsstring)) (w : World)
    (content key value : jsstring) (before after : list (jsstring * PropertyValue))
    (r : list jsstring * nat) (w1 w2 w3 : World) (e : JsError) :
  files w (environmentFilePath mgr) = Some content ->
  Object_entries (targetSet (extractEnvironmentVariables (split content NEWLINE)) lk)
  = before ++ (key, Text value) :: after ->
  processEntries P mgr before (split content NEWLINE) 0
    (snd (determineVariablesToEncrypt
            (extractEnvironmentVariables (split content NEWLINE)) lk w))
  = (Ok r, w1) ->
  isAlreadyEncrypted P value w1 = (Ok false, w2) ->
  encrypt P value (secretKeyVariable mgr) w2 = (Throw e, w3) ->
  exists w',
    encryptEnvVariables P mgr lk w = (Throw e, w') /\ files w' = files w.
Proof.
  intros Hfile Hentries Hbefore Halready Hfail.
  set (lines := split content NEWLINE) in *.
  set (all := extractEnvironmentVariables lines) in *.
  assert (validValue value) as [Hne Htight].
  { assert (In (key, Text value) (Object_entries (targetSet all lk))) as Hin
      by (rewrite Hentries; apply in_or_app; right; now left).
    apply (proj1 (Object_entries_In _ _)) in Hin.
    apply In_get in Hin; [|apply targetSet_unique].
    apply targetSet_sound in Hin; [|apply extract_unique].
    now apply extract_valid in Hin. }
  assert (readEnvFileAsLines mgr w = (Ok lines, w)) as Hread.
  { unfold readEnvFileAsLines. apply rethrowing_Ok.
    unfold bind, fs_readFileSync. now rewrite Hfile. }
  destruct (determineVariablesToEncrypt_never_warns all lk w) as [w0 [Hdet [_ Hf0]]].
  rewrite Hdet in Hbefore. cbn [snd] in Hbefore.
  assert (encryptIfNeeded P value (secretKeyVariable mgr) w1 = (Throw e, w3)) as Henc.
  { unfold encryptIfNeeded. rewrite (bind_run _ _ _ _ _ Halready).
    now apply bind_Throw. }
  assert (processEntries P mgr (Object_entries (targetSet all lk)) lines 0 w0
          = (Throw e, w3)) as Hproc.
  { rewrite Hentries, processEntries_app, Hbefore, processEntries_text.
    destruct value as [|c value]; [contradiction|]. cbn [truthy].
    rewrite (tight_trim _ Htight). now apply bind_Throw. }
  pose proof (keepsFiles_processEntries P mgr
                (Object_entries (targetSet all lk)) lines 0 w0) as Hf3.
  rewrite Hproc in Hf3. simpl in Hf3.
  unfold encryptEnvVariables.
  match goal with
  | |- exists w0, rethrowing ?s ?c ?body w = _ /\ _ =>
      assert (body w = (Throw e, w3)) as Hbody
  end.
  { rewrite (bind_run _ _ _ _ _ Hread). fold lines. fold all.
    rewrite (bind_run _ _ _ _ _ Hdet).
    apply bind_Throw. exact Hproc. }
  destruct (rethrowing_Throw "encryptEnvParameters"
              "Failed to encrypt environment parameters" _ _ _ _ Hbody)
    as [w' [Hrun Hf']].
  exists w'. split; [exact Hrun | congruence].
Qed.

End FailFast.

(** C2 on a platform whose key derivation fails for one salt only, the one
    that the second encryption of a run draws.  In the rewrite of
    [USER=alice / PASS=secret123] without lookups the value of [USER] is
    encrypted, the encryption of [PASS] then fails, the rewrite throws that
    error and leaves the files alone. *)
Lemma encryption_failure_writes_nothing_witness :
  exists w',
    encryptEnvVariables Reference.flaky Reference.manager None
      (Reference.world (js "USER=alice" ++ NEWLINE :: js "PASS=secret123") [])
    = (Throw (mkError "Error" (js "Argon2 hashing failed")), w')
    /\ files w'
       = files (Reference.world (js "USER=alice" ++ NEWLINE :: js "PASS=secret123") []).
Proof.
  pose (W := Reference.world (js "USER=alice" ++ NEWLINE :: js "PASS=secret123") []).
  pose (lines := split (js "USER=alice" ++ NEWLINE :: js "PASS=secret123") NEWLINE).
  pose (x1 := processEntries Reference.flaky Reference.manager
                [(js "USER", Text (js "alice"))] lines 0
                (snd (determineVariablesToEncrypt
                        (extractEnvironmentVariables lines) None W))).
  pose (r1 := match fst x1 with Ok r => r | Throw _ => ([], 0%nat) end).
  pose (x2 := isAlreadyEncrypted Reference.flaky (js "secret123") (snd x1)).
  pose (x3 := encrypt Reference.flaky (js "secret123")
                (secretKeyVariable Reference.manager) (snd x2)).
  apply (encryption_failure_writes_nothing Reference.flaky Reference.manager None W
           (js "USER=alice" ++ NEWLINE :: js "PASS=secret123")
           (js "PASS") (js "secret123") [(js "USER", Text (js "alice"))] []
           r1 (snd x1) (snd x2) (snd x3)
           (mkError "Error" (js "Argon2 hashing failed"))).
  - reflexivity.
  - vm_compute. reflexivity.
  - apply (outcome_and_world x1 (Ok r1)). vm_compute. reflexivity.
  - apply (outcome_and_world x2 (Ok false)). vm_compute. reflexivity.
  - apply (outcome_and_world x3). vm_compute. reflexivity.
Defined.

(** ** Round trip of encrypt and decrypt *)

(** What [decrypt] returns on the serialized result of [encrypt], for every
    plaintext: the plaintext after a pass through the text encoder and
    decoder. *)
Lemma decrypt_encrypt_general (P : Platform) (POk : PlatformOk P)
    (v s : jsstring) (w w1 w2 : World) (p : EncryptionParameters) :
  encrypt P v s w = (Ok p, w1) ->
  exists w3,
    decrypt P (JSON_stringify P (paramsObject p)) s w2
    = (Ok (TextDecoder_decode (TextEncoder_encode v)), w3).
Proof. intro H. exact (decrypt_encrypt P POk v s w w1 p H w2). Qed.

(** C1, as stated, fails: a plaintext that begins with U+FEFF comes back
    without it, because [new TextDecoder()] removes a leading byte order
    mark.  Here the plaintext is U+FEFF followed by the letter a. *)
Lemma roundtrip_loses_byte_order_mark :
  exists p w1 w2,
    encrypt Reference.platform [0xFEFF; 0x61]%N (js "k1") (Reference.world [] [])
    = (Ok p, w1)
    /\ decrypt Reference.platform
               (JSON_stringify Reference.platform (paramsObject p)) (js "k1") w1
       = (Ok [0x61]%N, w2).
Proof.
  destruct (encrypt Reference.platform [0xFEFF; 0x61]%N (js "k1")
                    (Reference.world [] [])) as [[p|e] w1] eqn:E.
  - destruct (decrypt_encrypt_general Reference.platform ReferenceFacts.platform_ok
                _ _ _ _ w1 _ E) as [w2 H].
    exists p, w1, w2. split; [reflexivity | exact H].
  - exfalso. vm_compute in E. discriminate.
Qed.

(** An unpaired surrogate comes back as U+FFFD. *)
Lemma roundtrip_replaces_lone_surrogate :
  exists p w1 w2,
    encrypt Reference.platform [0xD800]%N (js "k1") (Reference.world [] [])
    = (Ok p, w1)
    /\ decrypt Reference.platform
               (JSON_stringify Reference.platform (paramsObject p)) (js "k1") w1
       = (Ok [0xFFFD]%N, w2).
Proof.
  destruct (encrypt Reference.platform [0xD800]%N (js "k1")
                    (Reference.world [] [])) as [[p|e] w1] eqn:E.
  - destruct (decrypt_encrypt_general Reference.platform ReferenceFacts.platform_ok
                _ _ _ _ w1 _ E) as [w2 H].
    exists p, w1, w2. split; [reflexivity | exact H].
  - exfalso. vm_compute in E. discriminate.
Qed.

(** C1, amended.  For every plaintext without unpaired surrogates that does
    not begin with U+FEFF (the empty string is one) and every secret, if
    [encrypt] succeeds then [decrypt], given the serialized result and the
    same secret, returns exactly the plaintext, in whatever world it runs. *)
Theorem encrypt_decrypt_roundtrip (P : Platform) (POk : PlatformOk P)
    (v s : jsstring) (w w1 : World) (p : EncryptionParameters) :
  wellFormed v = true -> startsWith v [BOM] = false ->
  encrypt P v s w = (Ok p, w1) ->
  forall w2, exists w3,
    decrypt P (JSON_stringify P (paramsObject p)) s w2 = (Ok v, w3).
Proof.
  intros Hwf Hbom Henc w2.
  destruct (decrypt_encrypt_general P POk v s w w1 w2 p Henc) as [w3 H].
  exists w3. rewrite H. now rewrite TextDecoder_TextEncoder.
Qed.

(** C1 on the reference platform: [secret123] under the secret [k1]. *)
Lemma encrypt_decrypt_roundtrip_witness :
  exists p w1 w3,
    encrypt Reference.platform (js "secret123") (js "k1") (Reference.world [] [])
    = (Ok p, w1)
    /\ decrypt Reference.platform
               (JSON_stringify Reference.platform (paramsObject p)) (js "k1") w1
       = (Ok (js "secret123"), w3).
Proof.
  destruct (encrypt Reference.platform (js "secret123") (js "k1")
                    (Reference.world [] [])) as [[p|e] w1] eqn:E.
  - destruct (encrypt_decrypt_roundtrip Reference.platform ReferenceFacts.platform_ok
                (js "secret123") (js "k1") (Reference.world [] []) w1 p
                eq_refl eq_refl E w1) as [w3 H].
    exists p, w1, w3. split; [reflexivity | exact H].
  - exfalso. vm_compute in E. discriminate.
Defined.

(** The empty plaintext is covered: it round-trips whenever it encrypts. *)
Lemma empty_plaintext_roundtrip (P : Platform) (POk : PlatformOk P)
    (s : jsstring) (w w1 w2 : World) (p : EncryptionParameters) :
  encrypt P [] s w = (Ok p, w1) ->
  exists w3, decrypt P (JSON_stringify P (paramsObject p)) s w2 = (Ok [], w3).
Proof. intro H. exact (decrypt_encrypt_general P POk [] s w w1 w2 p H). Qed.

(** ** The secret store *)

(** C8 (the code departs from the claim).  The key name is spliced into a
    regular expression as it is.  With the key name [A.B] the dot is a
    wildcard: the store [AXB=1] has no line beginning with [A.B=], yet the
    test succeeds and nothing is appended. *)
Theorem storeBaseEnvKey_wildcard_key (P : Platform) :
  hasLineBeginning (js "AXB=1") (js "A.B=") = false
  /\ exists w',
       storeBaseEnvKey P Reference.manager (js "A.B") (js "v")
                       (Reference.world [] (js "AXB=1"))
       = (Ok tt, w')
       /\ files w' = files (Reference.world [] (js "AXB=1")).
Proof.
  split; [reflexivity|]. eexists. split; reflexivity.
Qed.

(** Whatever the key name, a call that returns either leaves the store as it
    was or appends one line to it; a call that throws leaves it as it was.
    An existing entry is never overwritten. *)
Lemma storeBaseEnvKey_appends_or_keeps (P : Platform) (mgr : EnvironmentFileManager)
    (keyName keyValue : jsstring) (w : World) :
  match storeBaseEnvKey P mgr keyName keyValue w with
  | (Ok _, w') =>
      files w' = files w
      \/ exists old,
           files w (baseEnvironmentFilePath mgr) = Some old
           /\ files w' = fun p =>
                if eqb p (baseEnvironmentFilePath mgr)
                then Some (old ++ [NEWLINE] ++ keyName ++ [EQUALS] ++ keyValue)
                else files w p
  | (Throw _, w') => files w' = files w
  end.
Proof.
  unfold storeBaseEnvKey, rethrowing, tryCatch, bind at 1.
  unfold readBaseEnvFile, rethrowing, tryCatch, fs_readFileSync.
  destruct (files w (baseEnvironmentFilePath mgr)) as [old|] eqn:Efile;
    [|reflexivity].
  unfold bind at 1, lift.
  destruct (keyExistsRegex P keyName old) as [[|]|e]; [now left | | reflexivity].
  unfold bind at 1. unfold writeKeyToBaseEnvFile.
  destruct (rethrowing "writeEnvFile" "Failed to write key to .env file" _ w)
    as [[[]|e] w1] eqn:Ew.
  - apply rethrowing_Ok in Ew. apply bind_Ok in Ew as [[] [w2 [Hw Hlog]]].
    apply writeFile_Ok in Hw as [_ [_ ->]].
    unfold logger_info, logMessage in Hlog. inversion Hlog; subst w1.
    right. exists old. split; reflexivity.
  - cbn. unfold rethrowing, tryCatch in Ew.
    match type of Ew with
    | match ?body with _ => _ end = _ =>
        pose proof (fun H => keepsFiles_bind
                      (FileManager_writeFile (baseEnvironmentFilePath mgr)
                         (old ++ [NEWLINE] ++ keyName ++ [EQUALS] ++ keyValue) keyName)
                      (fun _ => logger_info (keyName ++ js " written to .env file"))
                      H (fun _ => keepsFiles_logMessage _ _) w) as Hk
    end.
    unfold FileManager_writeFile in *.
    destruct (truthy (old ++ [NEWLINE] ++ keyName ++ [EQUALS] ++ keyValue)) eqn:Et.
    2:{ destruct old; discriminate. }
    unfold bind at 1 2 in Ew. unfold validatePath in Ew.
    unfold bind at 1 in Ew.
    destruct (truthy (baseEnvironmentFilePath mgr)); cbn [negb] in Ew.
    + unfold ret at 1 in Ew. destruct (_ && _) in Ew.
      * cbn in Ew. inversion Ew. reflexivity.
      * cbn in Ew. discriminate.
    + cbn in Ew. inversion Ew. reflexivity.
Qed.

(** ** Which lines a rewrite changes *)

Section Frame_of_rewrite.

Variable P : Platform.
Variable mgr : EnvironmentFileManager.

Lemma validKey_no_sep (k : jsstring) : validKey k -> includes k EQUALS = false.
Proof. now intros [_ [_ H]]. Qed.

(** A line that begins with white space begins with no key. *)
Lemma indented_line_has_no_key (l k : jsstring) (c : N) (r : jsstring) :
  l = c :: r -> isWhiteSpace c = true -> validKey k ->
  startsWith l (k ++ [EQUALS]) = false.
Proof.
  intros -> Hc [Hne [Ht _]]. destruct k as [|x k]; [contradiction|].
  cbn [tight] in Ht. apply andb_true_iff in Ht as [Hx _]. apply negb_true_iff in Hx.
  cbn [app startsWith]. destruct (N.eqb_spec c x) as [->|]; [congruence | reflexivity].
Qed.

(** Every successful run, in full: the file written is the old file with each
    line rewritten in place, followed by one new line for every newly
    encrypted key that no old line begins with; the newly encrypted keys are
    distinct valid keys of the target set. *)
Lemma encryptEnvVariables_shape (lk : option (list jsstring)) (w w' : World)
    (count : nat) :
  encryptEnvVariables P mgr lk w = (Ok count, w') ->
  exists content us,
    files w (environmentFilePath mgr) = Some content
    /\ count = length us
    /\ NoDup (map fst us)
    /\ (forall u, In u us -> validKey (fst u))
    /\ (forall k p, In (k, p) us ->
          exists v, get (targetSet (extractEnvironmentVariables (split content NEWLINE)) lk) k
                    = Some (Text v) /\ looksEncrypted P v = false)
    /\ (forall k v,
          get (targetSet (extractEnvironmentVariables (split content NEWLINE)) lk) k
          = Some (Text v) ->
          looksEncrypted P v = true \/ In k (map fst us))
    /\ acceptablePath (environmentFilePath mgr) = true
    /\ files w' = (fun p =>
         if eqb p (environmentFilePath mgr)
         then Some (join (map (rewriteLine P us) (split content NEWLINE)
                          ++ map (lineOf P)
                               (filter (fun u => negb (hasLineFor (split content NEWLINE) (fst u)))
                                       us))
                         NEWLINE)
         else files w p).
Proof.
  intro H. apply encryptEnvVariables_success in H
    as [content [us [Hf [Hnd [Hus [Hall [Hc [Hp [_ Hw]]]]]]]]].
  assert (forall u, In u us -> validKey (fst u)) as Hvalid.
  { intros [k p] Hin. destruct (Hus k p Hin) as [v [Hg _]].
    apply targetSet_sound in Hg; [|apply extract_unique].
    now apply extract_valid in Hg. }
  exists content, us. repeat split; try assumption.
  - apply (Hvalid u H).
  - apply (Hvalid u H).
  - apply (Hvalid u H).
  - rewrite Hw. rewrite applyUpdates_shape; [reflexivity | | assumption].
    apply Forall_forall. intros u Hu. apply validKey_no_sep. now apply Hvalid.
Qed.

(** C4, amended.  In every successful rewrite the written file consists of
    the lines of the old file, in their order and each at its old position,
    where a line is changed only if it begins with [KEY=] for a newly
    encrypted key of the target set, and is then replaced by that key's line
    [KEY=<serialized parameters>]; all other lines are unchanged; new lines,
    if any, are of the same form and come after all old ones; no other file
    is touched. *)
Theorem rewrite_changes_only_key_lines (lk : option (list jsstring)) (w w' : World)
    (count : nat) :
  encryptEnvVariables P mgr lk w = (Ok count, w') ->
  exists content us appended,
    files w (environmentFilePath mgr) = Some content
    /\ count = length us
    /\ (forall u, In u us ->
          exists v, get (targetSet (extractEnvironmentVariables (split content NEWLINE)) lk)
                        (fst u) = Some (Text v))
    /\ files w' (environmentFilePath mgr)
       = Some (join (map (rewriteLine P us) (split content NEWLINE) ++ appended) NEWLINE)
    /\ (forall p, p <> environmentFilePath mgr -> files w' p = files w p)
    /\ (forall l, (forall u, In u us -> startsWith l (fst u ++ [EQUALS]) = false) ->
                  rewriteLine P us l = l)
    /\ (forall l u, In u us -> startsWith l (fst u ++ [EQUALS]) = true ->
                    rewriteLine P us l = lineOf P u)
    /\ (forall a, In a appended -> exists u, In u us /\ a = lineOf P u).
Proof.
  intro H. apply encryptEnvVariables_shape in H
    as [content [us [Hf [Hc [Hnd [Hvalid [Hus [_ [_ Hw]]]]]]]]].
  exists content, us,
    (map (lineOf P)
         (filter (fun u => negb (hasLineFor (split content NEWLINE) (fst u))) us)).
  assert (Forall (fun u => includes (fst u) EQUALS = false) us) as Hsep.
  { apply Forall_forall. intros u Hu. apply validKey_no_sep. now apply Hvalid. }
  repeat split; try assumption.
  - intros [k p] Hin. destruct (Hus k p Hin) as [v [Hg _]]. now exists v.
  - rewrite Hw. now rewrite eqb_refl.
  - intros p Hp. rewrite Hw. apply eqb_neq in Hp. now rewrite Hp.
  - intros l Hl. now apply rewriteLine_untouched.
  - intros l u Hu Hs. now apply rewriteLine_touched.
  - intros a Ha. apply in_map_iff in Ha as [u [<- Hu]].
    apply filter_In in Hu as [Hu _]. now exists u.
Qed.

(** C9, amended.  Let a targeted entry, whose value does not look encrypted,
    come from a line with leading white space, and let no line of the file
    begin with [KEY=].  Then a successful rewrite leaves that line where and
    as it was and appends a line [KEY=<serialized parameters>] after all the
    old lines. *)
Theorem indented_entry_is_appended (lk : option (list jsstring)) (w w' : World)
    (count : nat) (content l k v : jsstring) (c : N) (r : jsstring) :
  encryptEnvVariables P mgr lk w = (Ok count, w') ->
  files w (environmentFilePath mgr) = Some content ->
  In l (split content NEWLINE) ->
  l = c :: r -> isWhiteSpace c = true ->
  parseEnvironmentLine l = Some (k, v) ->
  get (targetSet (extractEnvironmentVariables (split content NEWLINE)) lk) k
  = Some (Text v) ->
  looksEncrypted P v = false ->
  hasLineFor (split content NEWLINE) k = false ->
  exists lines' p,
    files w' (environmentFilePath mgr) = Some (join lines' NEWLINE)
    /\ (forall i, nth_error (split content NEWLINE) i = Some l ->
                  nth_error lines' i = Some l)
    /\ exists j, (length (split content NEWLINE) <= j)%nat
                 /\ nth_error lines' j = Some (lineOf P (k, p)).
Proof.
  intros Hrun Hfile Hin Hl Hc Hparse Htarget Hplain Hnone.
  apply encryptEnvVariables_shape in Hrun
    as [content' [us [Hf [_ [Hnd [Hvalid [_ [Hall [_ Hw]]]]]]]]].
  rewrite Hfile in Hf. inversion Hf; subst content'. clear Hf.
  set (lines := split content NEWLINE) in *.
  set (E := map (lineOf P) (filter (fun u => negb (hasLineFor lines (fst u))) us)) in *.
  destruct (Hall k v Htarget) as [Henc | Hk]; [congruence|].
  apply in_map_iff in Hk as [[k' p] [Hk' Hu]]. simpl in Hk'. subst k'.
  exists (map (rewriteLine P us) lines ++ E), p. split; [|split].
  - rewrite Hw. now rewrite eqb_refl.
  - intros i Hi.
    rewrite nth_error_app1
      by (rewrite length_map; apply nth_error_Some; congruence).
    rewrite nth_error_map, Hi. cbn [option_map]. f_equal.
    apply rewriteLine_untouched. intros u Hu'.
    apply indented_line_has_no_key with c r; auto.
  - assert (In (lineOf P (k, p)) E) as HE.
    { unfold E. apply in_map. apply filter_In. split; [assumption|].
      cbn [fst]. now rewrite Hnone. }
    apply In_nth_error in HE as [j Hj].
    exists (length lines + j)%nat. split; [lia|].
    rewrite nth_error_app2 by (rewrite length_map; lia).
    rewrite length_map. now replace (length lines + j - length lines)%nat with j by lia.
Qed.

End Frame_of_rewrite.

(** ** The rewrite on concrete files (reference platform) *)

Section Examples.

Import Reference.

(** C4, as stated, fails.  In the file [K= / K =secret] the first line is not
    an entry (its value is empty) and the second is the entry [(K, secret)].
    The rewrite encrypts [K] and replaces the first line, the one that is
    not an entry, by [K={...}]; the entry's own line stays as it was. *)
Lemma opaque_line_is_rewritten :
  parseEnvironmentLine (js "K=") = None
  /\ parseEnvironmentLine (js "K =secret") = Some (js "K", js "secret")
  /\ fst (rewriteOnce (js "K=" ++ NEWLINE :: js "K =secret") None) = Ok 1%nat
  /\ length (linesOf (snd (rewriteOnce (js "K=" ++ NEWLINE :: js "K =secret") None)))
     = 2%nat
  /\ startsWith
       (nth 0 (linesOf (snd (rewriteOnce (js "K=" ++ NEWLINE :: js "K =secret") None))) [])
       (js "K={") = true
  /\ nth 1 (linesOf (snd (rewriteOnce (js "K=" ++ NEWLINE :: js "K =secret") None))) []
     = js "K =secret".
Proof. repeat split; vm_compute; reflexivity. Qed.

(** C4 on the example of the specification: a comment, [USER=alice] and
    [PASS=secret123], with target [PASS]. *)
Lemma rewrite_changes_only_key_lines_witness :
  encryptEnvVariables platform manager (Some [js "PASS"])
    (world (js "# comment" ++ NEWLINE :: js "USER=alice" ++ NEWLINE :: js "PASS=secret123") [])
  = (Ok 1%nat,
     snd (rewriteOnce
            (js "# comment" ++ NEWLINE :: js "USER=alice" ++ NEWLINE :: js "PASS=secret123")
            (Some [js "PASS"])))
  /\ exists content us appended,
       files (world (js "# comment" ++ NEWLINE :: js "USER=alice"
                       ++ NEWLINE :: js "PASS=secret123") [])
             (environmentFilePath manager) = Some content
       /\ 1%nat = length us
       /\ (forall u, In u us ->
             exists v, get (targetSet (extractEnvironmentVariables (split content NEWLINE))
                                      (Some [js "PASS"])) (fst u) = Some (Text v))
       /\ files (snd (rewriteOnce
                        (js "# comment" ++ NEWLINE :: js "USER=alice"
                           ++ NEWLINE :: js "PASS=secret123")
                        (Some [js "PASS"])))
                (environmentFilePath manager)
          = Some (join (map (rewriteLine platform us) (split content NEWLINE) ++ appended)
                       NEWLINE)
       /\ (forall p, p <> environmentFilePath manager ->
             files (snd (rewriteOnce
                           (js "# comment" ++ NEWLINE :: js "USER=alice"
                              ++ NEWLINE :: js "PASS=secret123")
                           (Some [js "PASS"]))) p
             = files (world (js "# comment" ++ NEWLINE :: js "USER=alice"
                               ++ NEWLINE :: js "PASS=secret123") []) p)
       /\ (forall l, (forall u, In u us -> startsWith l (fst u ++ [EQUALS]) = false) ->
                     rewriteLine platform us l = l)
       /\ (forall l u, In u us -> startsWith l (fst u ++ [EQUALS]) = true ->
                       rewriteLine platform us l = lineOf platform u)
       /\ (forall a, In a appended -> exists u, In u us /\ a = lineOf platform u).
Proof.
  assert (encryptEnvVariables platform manager (Some [js "PASS"])
            (world (js "# comment" ++ NEWLINE :: js "USER=alice"
                      ++ NEWLINE :: js "PASS=secret123") [])
          = (Ok 1%nat,
             snd (rewriteOnce
                    (js "# comment" ++ NEWLINE :: js "USER=alice"
                       ++ NEWLINE :: js "PASS=secret123")
                    (Some [js "PASS"])))) as Hrun.
  { apply (outcome_and_world (rewriteOnce _ _)). vm_compute. reflexivity. }
  split; [exact Hrun|].
  exact (rewrite_changes_only_key_lines platform manager _ _ _ _ Hrun).
Defined.

(** C9, as stated, fails.  In the file [K=a / (two spaces)K=b] the entry
    [(K, b)] comes from the indented second line.  The rewrite does not append
    anything: it overwrites the first line, which begins with [K=], and the
    file keeps its two lines. *)
Lemma indented_entry_not_appended :
  parseEnvironmentLine (js "  K=b") = Some (js "K", js "b")
  /\ get (extractEnvironmentVariables (split (js "K=a" ++ NEWLINE :: js "  K=b") NEWLINE))
         (js "K") = Some (js "b")
  /\ fst (rewriteOnce (js "K=a" ++ NEWLINE :: js "  K=b") None) = Ok 1%nat
  /\ length (linesOf (snd (rewriteOnce (js "K=a" ++ NEWLINE :: js "  K=b") None)))
     = 2%nat
  /\ startsWith
       (nth 0 (linesOf (snd (rewriteOnce (js "K=a" ++ NEWLINE :: js "  K=b") None))) [])
       (js "K={") = true
  /\ nth 1 (linesOf (snd (rewriteOnce (js "K=a" ++ NEWLINE :: js "  K=b") None))) []
     = js "  K=b".
Proof. repeat split; vm_compute; reflexivity. Qed.

(** C9 on the one-line file [(two spaces)K=b]. *)
Lemma indented_entry_is_appended_witness :
  encryptEnvVariables platform manager None (world (js "  K=b") [])
  = (Ok 1%nat, snd (rewriteOnce (js "  K=b") None))
  /\ exists lines' p,
       files (snd (rewriteOnce (js "  K=b") None)) (environmentFilePath manager)
       = Some (join lines' NEWLINE)
       /\ (forall i, nth_error (split (js "  K=b") NEWLINE) i = Some (js "  K=b") ->
                     nth_error lines' i = Some (js "  K=b"))
       /\ exists j, (length (split (js "  K=b") NEWLINE) <= j)%nat
                    /\ nth_error lines' j = Some (lineOf platform (js "K", p)).
Proof.
  assert (encryptEnvVariables platform manager None (world (js "  K=b") [])
          = (Ok 1%nat, snd (rewriteOnce (js "  K=b") None))) as Hrun.
  { apply (outcome_and_world (rewriteOnce _ _)). vm_compute. reflexivity. }
  split; [exact Hrun|].
  apply (indented_entry_is_appended platform manager None
           (world (js "  K=b") []) _ 1%nat (js "  K=b") (js "  K=b") (js "K") (js "b")
           0x20%N (js " K=b") Hrun); reflexivity || (left; reflexivity).
Defined.

(** The objects of the program inherit from [Object.prototype].  A lookup
    that is no key of the file but the name of an inherited method is
    therefore found, as a function; the loop over the target set calls
    [trim] on it, and the rewrite fails with a TypeError before it writes. *)
Lemma inherited_method_lookup_is_fatal :
  fst (rewriteOnce (js "A=1") (Some [js "toString"]))
  = Throw (mkError "TypeError" (js "value.trim is not a function"))
  /\ linesOf (snd (rewriteOnce (js "A=1") (Some [js "toString"]))) = [js "A=1"].
Proof. split; vm_compute; reflexivity. Qed.

(** A line with the key [__proto__] parses as an entry, but the assignment
    to the record runs the inherited setter and creates no property: the
    line is never encrypted. *)
Lemma proto_line_is_no_entry :
  parseEnvironmentLine (js "__proto__=x") = Some (js "__proto__", js "x")
  /\ extractEnvironmentVariables [js "__proto__=x"] = []
  /\ fst (rewriteOnce (js "__proto__=x") None) = Ok 0%nat
  /\ linesOf (snd (rewriteOnce (js "__proto__=x") None)) = [js "__proto__=x"].
Proof. repeat split; vm_compute; reflexivity. Qed.

End Examples.

(** ** Running the rewrite a second time *)

Section Idempotence.

Variable P : Platform.
Hypothesis POk : PlatformOk P.
Variable mgr : EnvironmentFileManager.

Lemma stringify_params_tight (p : EncryptionParameters) :
  tight (JSON_stringify P (paramsObject p)) = true.
Proof.
  destruct (json_params_braces P POk p) as [body ->].
  apply tight_edges; [discriminate|]. split; [reflexivity|].
  change (LBRACE :: body ++ [RBRACE]) with ((LBRACE :: body) ++ [RBRACE]).
  rewrite last_last. reflexivity.
Qed.

Lemma stringify_params_valid (p : EncryptionParameters) :
  validValue (JSON_stringify P (paramsObject p)).
Proof.
  split; [|apply stringify_params_tight].
  pose proof (stringify_params_truthy P POk p) as H. intro E. now rewrite E in H.
Qed.

(** The serialized parameters look encrypted. *)
Lemma stringify_params_looksEncrypted (p : EncryptionParameters) :
  looksEncrypted P (JSON_stringify P (paramsObject p)) = true.
Proof.
  unfold looksEncrypted.
  rewrite (stringify_params_truthy P POk), (json_params_roundtrip P POk).
  rewrite (tight_trim _ (stringify_params_tight p)).
  destruct (json_params_braces P POk p) as [body ->].
  unfold endsWith.
  change (LBRACE :: body ++ [RBRACE]) with ((LBRACE :: body) ++ [RBRACE]) at 2.
  rewrite rev_unit. cbn [startsWith rev app]. rewrite !N.eqb_refl. reflexivity.
Qed.

Lemma parse_lineOf (u : jsstring * EncryptionParameters) :
  validKey (fst u) ->
  parseEnvironmentLine (lineOf P u)
  = Some (fst u, JSON_stringify P (paramsObject (snd u))).
Proof.
  intro Hk. unfold lineOf. apply parseEnvironmentLine_canonical; [assumption|].
  apply stringify_params_valid.
Qed.

Lemma trim_incl (s : jsstring) (x : N) : In x (trim s) -> In x s.
Proof.
  intro H. destruct (trim_decompose s) as [a [b [Hs _]]]. rewrite Hs.
  apply in_or_app. right. apply in_or_app. now left.
Qed.

Lemma parse_key_incl (l k v : jsstring) (x : N) :
  parseEnvironmentLine l = Some (k, v) -> In x k -> In x l.
Proof.
  intros H Hx. apply parseEnvironmentLine_spec in H
    as [k0 [v0 [Ht [_ [_ [_ [-> _]]]]]]].
  apply trim_incl. rewrite Ht. apply in_or_app. left. now apply trim_incl.
Qed.

Lemma matchKey_cons (l : jsstring) (lines : list jsstring) (k : jsstring) :
  lastValue (l :: lines) k =
  match lastValue lines k with Some v => Some v | None => matchKey k l end.
Proof. rewrite lastValue_cons. reflexivity. Qed.

Lemma lastValue_map_same (f : jsstring -> jsstring) (lines : list jsstring)
    (k : jsstring) :
  (forall l, In l lines -> matchKey k (f l) = matchKey k l) ->
  lastValue (map f lines) k = lastValue lines k.
Proof.
  induction lines as [|l lines IH]; intro H; [reflexivity|].
  cbn [map]. rewrite !matchKey_cons, IH, H.
  - reflexivity.
  - now left.
  - intros l' Hl'. apply H. now right.
Qed.

Lemma lastValue_map_range (f : jsstring -> jsstring) (lines : list jsstring)
    (k j : jsstring) :
  (forall l, In l lines -> matchKey k (f l) = None \/ matchKey k (f l) = Some j) ->
  lastValue (map f lines) k = None \/ lastValue (map f lines) k = Some j.
Proof.
  induction lines as [|l lines IH]; intro H; [now left|].
  cbn [map]. rewrite matchKey_cons.
  destruct IH as [-> | ->]; [intros; apply H; now right | | now right].
  apply H. now left.
Qed.

Lemma lastValue_map_const (f : jsstring -> jsstring) (lines : list jsstring)
    (k j : jsstring) :
  (forall l, In l lines -> matchKey k (f l) = None \/ matchKey k (f l) = Some j) ->
  (exists l, In l lines /\ matchKey k (f l) = Some j) ->
  lastValue (map f lines) k = Some j.
Proof.
  induction lines as [|l lines IH]; intros H [l0 [Hin H0]]; [contradiction|].
  assert (forall l', In l' lines ->
            matchKey k (f l') = None \/ matchKey k (f l') = Some j) as H'
    by (intros; apply H; now right).
  cbn [map]. rewrite matchKey_cons.
  destruct (lastValue_map_range f lines k j H') as [E | E]; rewrite E; [|reflexivity].
  destruct Hin as [<- | Hin]; [exact H0|].
  rewrite IH in E; [discriminate | exact H' | now exists l0].
Qed.

Lemma lastValue_app (a b : list jsstring) (k : jsstring) :
  lastValue (a ++ b) k =
  match lastValue b k with Some v => Some v | None => lastValue a k end.
Proof.
  induction a as [|l a IH]; simpl.
  - now destruct (lastValue b k).
  - rewrite !lastValue_cons, IH. now destruct (lastValue b k), (lastValue a k).
Qed.

Lemma NoDup_keys_filter {V} (f : jsstring * V -> bool) (o : RecordOf V) :
  NoDup (map fst o) -> NoDup (map fst (filter f o)).
Proof.
  induction o as [|e o IH]; simpl; intro H; [constructor|].
  inversion H as [|? ? Hnot Hnd]; subst. destruct (f e); simpl; [|now apply IH].
  constructor; [|now apply IH]. intro Hin. apply Hnot.
  apply in_map_iff in Hin as [e' [He Hin]]. apply filter_In in Hin as [Hin _].
  apply in_map_iff. now exists e'.
Qed.

(** A line that begins with [k=], for a key as [parseEnvironmentLine]
    produces them, is an entry for no other key. *)
Lemma prefix_parse_key (l k k' v : jsstring) :
  validKey k' -> startsWith l (k' ++ [EQUALS]) = true ->
  parseEnvironmentLine l = Some (k, v) -> k = k'.
Proof.
  intros [Hne [Ht Hsep]] Hs Hp.
  apply parseEnvironmentLine_spec in Hp as [k0 [v0 [Htrim [Hsep0 [_ [_ [-> _]]]]]]].
  apply startsWith_iff in Hs as [r ->].
  assert (isWhiteSpace (hd 0%N k') = false) as Hhd.
  { apply (tight_edges k' Hne) in Ht as [H _]. exact H. }
  assert (exists x, trim ((k' ++ [EQUALS]) ++ r) = (k' ++ [EQUALS]) ++ x) as [x Hx].
  { unfold trim. destruct k' as [|c k']; [contradiction|]. cbn [hd] in Hhd.
    change (((c :: k') ++ [EQUALS]) ++ r) with (c :: (k' ++ [EQUALS]) ++ r).
    rewrite (trimStart_head c _ Hhd).
    destruct (trimEnd_decompose (c :: (k' ++ [EQUALS]) ++ r)) as [b [Hb Hws]].
    set (T := trimEnd (c :: (k' ++ [EQUALS]) ++ r)) in *.
    change (c :: (k' ++ [EQUALS]) ++ r) with (((c :: k') ++ [EQUALS]) ++ r) in Hb.
    apply app_eq_app in Hb as [l2 [[H1 H2] | [H1 H2]]].
    - destruct l2 as [|y l2] using rev_ind.
      + exists []. rewrite !app_nil_r in *. now symmetry.
      + exfalso. clear IHl2. rewrite app_assoc in H1. apply app_inj_tail in H1 as [_ Hy].
        subst y. rewrite H2 in Hws. rewrite forallb_app in Hws.
        apply andb_true_iff in Hws as [Hws _]. rewrite forallb_app in Hws.
        apply andb_true_iff in Hws as [_ Hws]. discriminate.
    - exists l2. exact H1. }
  rewrite Hx in Htrim. rewrite <- app_assoc in Htrim. cbn [app] in Htrim.
  apply (f_equal (fun s => split s EQUALS)) in Htrim.
  rewrite !split_at_first in Htrim by assumption.
  inversion Htrim as [[Hk Hrest]]. rewrite <- Hk. now apply tight_trim.
Qed.

Lemma matchKey_lineOf (u : jsstring * EncryptionParameters) (k : jsstring) :
  validKey (fst u) ->
  matchKey k (lineOf P u)
  = if eqb (fst u) k then Some (JSON_stringify P (paramsObject (snd u))) else None.
Proof. intro H. unfold matchKey. now rewrite (parse_lineOf u H). Qed.

(** The lines appended for new keys: each is an entry of its own key. *)
Lemma lastValue_lineOf_other (vs : list (jsstring * EncryptionParameters)) (k : jsstring) :
  (forall u, In u vs -> validKey (fst u)) -> ~ In k (map fst vs) ->
  lastValue (map (lineOf P) vs) k = None.
Proof.
  induction vs as [|u vs IH]; intros Hvalid Hk; [reflexivity|].
  cbn [map]. rewrite matchKey_cons, IH.
  - rewrite matchKey_lineOf by (apply Hvalid; now left).
    destruct (eqb (fst u) k) eqn:E; [|reflexivity].
    apply eqb_eq in E. exfalso. apply Hk. now left.
  - intros u' Hu'. apply Hvalid. now right.
  - intro H. apply Hk. now right.
Qed.

Lemma lastValue_lineOf_key (vs : list (jsstring * EncryptionParameters))
    (u : jsstring * EncryptionParameters) :
  (forall u', In u' vs -> validKey (fst u')) -> NoDup (map fst vs) -> In u vs ->
  lastValue (map (lineOf P) vs) (fst u)
  = Some (JSON_stringify P (paramsObject (snd u))).
Proof.
  induction vs as [|u0 vs IH]; intros Hvalid Hnd Hu; [contradiction|].
  inversion Hnd as [|? ? Hnot Hnd']; subst.
  assert (forall u', In u' vs -> validKey (fst u')) as Hvalid'
    by (intros; apply Hvalid; now right).
  cbn [map]. rewrite matchKey_cons. destruct Hu as [-> | Hu].
  - rewrite (lastValue_lineOf_other vs (fst u) Hvalid' Hnot).
    rewrite matchKey_lineOf by (apply Hvalid; now left). now rewrite eqb_refl.
  - now rewrite (IH Hvalid' Hnd' Hu).
Qed.

Lemma lastValue_no_match (ls : list jsstring) (k : jsstring) :
  (forall l, In l ls -> matchKey k l = None) -> lastValue ls k = None.
Proof.
  induction ls as [|l ls IH]; intro H; [reflexivity|].
  rewrite matchKey_cons, IH by (intros; apply H; now right). apply H. now left.
Qed.

(** The last line that mentions a key, as a prefix or as an entry. *)
Lemma last_mention (lines : list jsstring) (k : jsstring) :
  (forall l, In l lines ->
     matchKey k l = None /\ startsWith l (k ++ [EQUALS]) = false)
  \/ exists before l after,
       lines = before ++ l :: after
       /\ (startsWith l (k ++ [EQUALS]) = true
           \/ (startsWith l (k ++ [EQUALS]) = false /\ exists v, matchKey k l = Some v))
       /\ forall l', In l' after ->
            matchKey k l' = None /\ startsWith l' (k ++ [EQUALS]) = false.
Proof.
  induction lines as [|l lines IH].
  - left. intros l [].
  - destruct IH as [Hnone | [before [l0 [after [-> [H0 Hafter]]]]]].
    + destruct (startsWith l (k ++ [EQUALS])) eqn:Es.
      * right. exists [], l, lines. repeat split; auto; now apply Hnone.
      * destruct (matchKey k l) as [v|] eqn:Em.
        -- right. exists [], l, lines. split; [reflexivity|]. split; [|exact Hnone].
           right. split; [assumption | now exists v].
        -- left. intros l' [<- | Hin]; [now split | now apply Hnone].
    + right. exists (l :: before), l0, after.
      split; [reflexivity|]. split; assumption.
Qed.

(** A key is settled, or the last line that mentions it is an entry that
    does not begin with [k=] while an earlier line does. *)
Lemma settledKey_cases (lines : list jsstring) (k : jsstring) :
  settledKey lines k
  \/ exists before l after v,
       lines = before ++ l :: after
       /\ hasLineFor before k = true
       /\ startsWith l (k ++ [EQUALS]) = false
       /\ matchKey k l = Some v
       /\ forall l', In l' after ->
            matchKey k l' = None /\ startsWith l' (k ++ [EQUALS]) = false.
Proof.
  assert (forall ls, (forall l', In l' ls ->
                        matchKey k l' = None /\ startsWith l' (k ++ [EQUALS]) = false) ->
                     hasLineFor ls k = false) as Hno.
  { intros ls H. unfold hasLineFor.
    destruct (existsb _ ls) eqn:E; [|reflexivity].
    apply existsb_exists in E as [l' [Hin Hs]]. destruct (H l' Hin). congruence. }
  destruct (last_mention lines k) as [Hnone | [before [l [after [-> [Hl Hafter]]]]]].
  - left. left. now apply Hno.
  - destruct Hl as [Hs | [Hs [v Hv]]].
    + left. right. exists before, l, after.
      split; [reflexivity|]. split; [assumption|].
      intros l' Hin. now apply Hafter.
    + destruct (hasLineFor before k) eqn:Eb.
      * right. exists before, l, after, v.
        split; [reflexivity|]. repeat (split; [assumption|]). exact Hafter.
      * left. left. unfold hasLineFor in *. rewrite existsb_app, Eb. cbn [existsb].
        rewrite Hs. now apply Hno.
Qed.

Section Rewritten.

Variable lines : list jsstring.
Variable us : list (jsstring * EncryptionParameters).
Hypothesis Hvalid : forall u, In u us -> validKey (fst u).
Hypothesis Hnd : NoDup (map fst us).
Hypothesis Hsource :
  forall u, In u us -> exists l v, In l lines /\ parseEnvironmentLine l = Some (fst u, v).

(** The lines that the rewrite writes: the old lines, rewritten where they
    begin with a newly encrypted key, and a new line for each such key that
    no line begins with. *)
Local Abbreviation appended :=
  (map (lineOf P) (filter (fun u => negb (hasLineFor lines (fst u))) us)).
Local Abbreviation written := (map (rewriteLine P us) lines ++ appended).

Lemma us_no_sep : Forall (fun u => includes (fst u) EQUALS = false) us.
Proof. apply Forall_forall. intros u Hu. now apply validKey_no_sep, Hvalid. Qed.

Lemma same_key_same_update (u u' : jsstring * EncryptionParameters) :
  In u us -> In u' us -> fst u = fst u' -> u = u'.
Proof.
  clear Hsource Hvalid. induction us as [|u0 us0 IH]; [contradiction|].
  intros Hu Hu' Hk. inversion Hnd as [|? ? Hnot Hnd']; subst.
  destruct Hu as [-> | Hu]; destruct Hu' as [-> | Hu'].
  - reflexivity.
  - exfalso. apply Hnot. rewrite Hk. now apply in_map.
  - exfalso. apply Hnot. rewrite <- Hk. now apply in_map.
  - now apply IH.
Qed.

Lemma appended_valid (u : jsstring * EncryptionParameters) :
  In u (filter (fun u => negb (hasLineFor lines (fst u))) us) -> validKey (fst u).
Proof. intro H. apply filter_In in H as [H _]. now apply Hvalid. Qed.

(** A line that is rewritten was no entry of a key that is not rewritten. *)
Lemma matchKey_rewrite_other (k l : jsstring) :
  ~ In k (map fst us) ->
  matchKey k (rewriteLine P us l) = matchKey k l.
Proof.
  intros Hk.
  destruct (rewriteLine_cases P us l us_no_sep Hnd) as [[-> _] | [u [Hu [Hs ->]]]];
    [reflexivity|].
  rewrite (matchKey_lineOf u k (Hvalid u Hu)).
  destruct (eqb (fst u) k) eqn:E.
  { apply eqb_eq in E. subst k. exfalso. apply Hk. now apply in_map. }
  unfold matchKey.
  destruct (parseEnvironmentLine l) as [[k' v]|] eqn:Ep; [|reflexivity].
  destruct (eqb k' k) eqn:E'; [|reflexivity].
  apply eqb_eq in E'. subst k'. exfalso. apply Hk.
  rewrite (prefix_parse_key l k (fst u) v (Hvalid u Hu) Hs Ep). now apply in_map.
Qed.

Lemma matchKey_rewrite_key (u : jsstring * EncryptionParameters) (l : jsstring) :
  In u us -> matchKey (fst u) l = None ->
  matchKey (fst u) (rewriteLine P us l) = None
  \/ matchKey (fst u) (rewriteLine P us l)
     = Some (JSON_stringify P (paramsObject (snd u))).
Proof.
  intros Hu Hl.
  destruct (rewriteLine_cases P us l us_no_sep Hnd) as [[-> _] | [u' [Hu' [_ ->]]]];
    [now left|].
  rewrite (matchKey_lineOf u' (fst u) (Hvalid u' Hu')).
  destruct (eqb (fst u') (fst u)) eqn:E; [|now left].
  apply eqb_eq in E. right. now rewrite (same_key_same_update u' u Hu' Hu E).
Qed.

Lemma matchKey_rewrite_prefix (u : jsstring * EncryptionParameters) (l : jsstring) :
  In u us -> startsWith l (fst u ++ [EQUALS]) = true ->
  matchKey (fst u) (rewriteLine P us l)
  = Some (JSON_stringify P (paramsObject (snd u))).
Proof.
  intros Hu Hs. rewrite (rewriteLine_touched P us u l us_no_sep Hnd Hu Hs).
  rewrite (matchKey_lineOf u (fst u) (Hvalid u Hu)). now rewrite eqb_refl.
Qed.

(** After the rewrite, a newly encrypted key that is settled has its
    serialized parameters as value, and every key that was not encrypted has
    the value it had. *)
Lemma lastValue_rewritten_key (u : jsstring * EncryptionParameters) :
  In u us -> settledKey lines (fst u) ->
  lastValue written (fst u) = Some (JSON_stringify P (paramsObject (snd u))).
Proof.
  intros Hu Hs. rewrite lastValue_app.
  destruct (hasLineFor lines (fst u)) eqn:Eh.
  - assert (lastValue appended (fst u) = None) as ->.
    { apply lastValue_lineOf_other; [exact appended_valid|].
      intro Hin. apply in_map_iff in Hin as [u' [Hk Hu']].
      apply filter_In in Hu' as [Hu' Hf].
      rewrite (same_key_same_update u' u Hu' Hu Hk), Eh in Hf. discriminate. }
    destruct Hs as [Hs | [before [l [after [Hl [Hp Hafter]]]]]]; [congruence|].
    rewrite Hl, map_app, lastValue_app.
    rewrite (lastValue_map_const (rewriteLine P us) (l :: after) (fst u)
               (JSON_stringify P (paramsObject (snd u)))); [reflexivity | |].
    + intros l' [<- | Hin].
      * right. now apply matchKey_rewrite_prefix.
      * apply matchKey_rewrite_key; [assumption | now apply Hafter].
    + exists l. split; [now left | now apply matchKey_rewrite_prefix].
  - rewrite lastValue_lineOf_key; [reflexivity | exact appended_valid | |].
    + now apply NoDup_keys_filter.
    + apply filter_In. split; [assumption | now rewrite Eh].
Qed.

Lemma lastValue_rewritten_other (k : jsstring) :
  ~ In k (map fst us) -> lastValue written k = lastValue lines k.
Proof.
  intro Hk. rewrite lastValue_app.
  rewrite lastValue_lineOf_other; [| exact appended_valid |].
  - apply lastValue_map_same. intros l _. now apply matchKey_rewrite_other.
  - intro Hin. apply Hk. apply in_map_iff in Hin as [u [Hku Hu]].
    apply filter_In in Hu as [Hu _]. apply in_map_iff. now exists u.
Qed.

Lemma lineOf_one_line (u : jsstring * EncryptionParameters) :
  (forall l, In l lines -> includes l NEWLINE = false) ->
  In u us -> includes (lineOf P u) NEWLINE = false.
Proof.
  intros Hone Hu. unfold lineOf. rewrite includes_app.
  change (EQUALS :: ?j) with ([EQUALS] ++ j). rewrite includes_app.
  apply orb_false_iff. split;
    [|apply orb_false_iff; split; [reflexivity | apply (json_params_one_line P POk)]].
  destruct (Hsource u Hu) as [l0 [v [Hl0 Hp]]].
  apply includes_false_iff. intro Hx.
  apply (parse_key_incl _ _ _ _ Hp) in Hx.
  apply (proj1 (includes_false_iff l0 NEWLINE) (Hone l0 Hl0)). exact Hx.
Qed.

Lemma rewritten_one_line (l' : jsstring) :
  (forall l, In l lines -> includes l NEWLINE = false) ->
  In l' written -> includes l' NEWLINE = false.
Proof.
  intros Hone Hin. apply in_app_or in Hin as [Hin | Hin].
  - apply in_map_iff in Hin as [l [<- Hl]].
    destruct (rewriteLine_cases P us l us_no_sep Hnd) as [[-> _] | [u [Hu [_ ->]]]];
      [now apply Hone | now apply lineOf_one_line].
  - apply in_map_iff in Hin as [u [<- Hu]]. apply filter_In in Hu as [Hu _].
    now apply lineOf_one_line.
Qed.

(** Every newly encrypted key is still a key of the lines written. *)
Lemma lastValue_rewritten_some (u : jsstring * EncryptionParameters) :
  In u us -> exists v, lastValue written (fst u) = Some v.
Proof.
  intro Hu.
  apply lastValue_present
    with (l := lineOf P u) (v := JSON_stringify P (paramsObject (snd u)));
    [|now apply parse_lineOf, Hvalid].
  apply in_or_app. destruct (hasLineFor lines (fst u)) eqn:Eh.
  - left. unfold hasLineFor in Eh. apply existsb_exists in Eh as [l [Hl Hs]].
    apply in_map_iff. exists l. split; [|assumption].
    now apply (rewriteLine_touched P us u l us_no_sep Hnd Hu).
  - right. apply in_map. apply filter_In. split; [assumption | now rewrite Eh].
Qed.

(** A newly encrypted key that is not settled keeps its old value: the entry
    that gave it is not rewritten, and no line after it is one for the key. *)
Lemma lastValue_rewritten_unsettled (u : jsstring * EncryptionParameters)
    (before after : list jsstring) (l v : jsstring) :
  In u us -> lines = before ++ l :: after ->
  hasLineFor before (fst u) = true ->
  startsWith l (fst u ++ [EQUALS]) = false ->
  matchKey (fst u) l = Some v ->
  (forall l', In l' after ->
     matchKey (fst u) l' = None /\ startsWith l' (fst u ++ [EQUALS]) = false) ->
  lastValue written (fst u) = Some v /\ lastValue lines (fst u) = Some v.
Proof.
  intros Hu Hl Hb Hs Hm Hafter.
  assert (forall l0, startsWith l0 (fst u ++ [EQUALS]) = false ->
                     matchKey (fst u) (rewriteLine P us l0) = matchKey (fst u) l0) as Hsame.
  { intros l0 Hs0.
    destruct (rewriteLine_cases P us l0 us_no_sep Hnd) as [[-> _] | [u' [Hu' [Hs' ->]]]];
      [reflexivity|].
    rewrite (matchKey_lineOf u' (fst u) (Hvalid u' Hu')).
    destruct (eqb (fst u') (fst u)) eqn:E.
    { apply eqb_eq in E. rewrite E in Hs'. congruence. }
    unfold matchKey. destruct (parseEnvironmentLine l0) as [[k' v']|] eqn:Ep; [|reflexivity].
    destruct (eqb k' (fst u)) eqn:E'; [|reflexivity].
    apply eqb_eq in E'. subst k'.
    rewrite (prefix_parse_key l0 (fst u) (fst u') v' (Hvalid u' Hu') Hs' Ep) in E.
    now rewrite eqb_refl in E. }
  assert (hasLineFor lines (fst u) = true) as Hh.
  { rewrite Hl. unfold hasLineFor in *. rewrite existsb_app, Hb. reflexivity. }
  split.
  - rewrite lastValue_app.
    assert (lastValue appended (fst u) = None) as ->.
    { apply lastValue_lineOf_other; [exact appended_valid|].
      intro Hin. apply in_map_iff in Hin as [u' [Hk Hu']].
      apply filter_In in Hu' as [Hu' Hf].
      rewrite (same_key_same_update u' u Hu' Hu Hk), Hh in Hf. discriminate. }
    rewrite Hl, map_app, lastValue_app. cbn [map]. rewrite matchKey_cons.
    rewrite lastValue_no_match.
    + now rewrite (Hsame l Hs), Hm.
    + intros l' Hin. apply in_map_iff in Hin as [l0 [<- Hl0]].
      destruct (Hafter l0 Hl0) as [H1 H2]. now rewrite (Hsame l0 H2).
  - rewrite Hl, lastValue_app, matchKey_cons.
    rewrite lastValue_no_match by (intros l' Hin; now apply Hafter). now rewrite Hm.
Qed.

End Rewritten.

(** *** The target set of the second run *)

Lemma foundEntry_cases (all : Record) (l k v : jsstring) :
  NoDup (map fst all) ->
  (forall k0 v0, get all k0 = Some v0 -> truthy v0 = true) ->
  get (foundEntry all l) k = Some (Text v) ->
  (k = l /\ get all l = Some v)
  \/ (get all l = None /\ isPrototypeMethod l = false /\ l <> PROTO
      /\ v = l /\ get all k = Some l).
Proof.
  intros Hnd Htruthy. unfold foundEntry, readProperty. cbv zeta.
  destruct (get all l) as [x|] eqn:E.
  - cbn [truthyProperty]. rewrite (Htruthy l x E).
    intro H. apply get_set_empty in H as [-> [H _]]. inversion H; subst. now left.
  - destruct (eqb l PROTO) eqn:Ep.
    { cbn [truthyProperty]. intro H. apply get_set_empty in H as [_ [_ H]].
      apply eqb_eq in Ep. contradiction. }
    destruct (isPrototypeMethod l) eqn:Em.
    { cbn [truthyProperty]. intro H. apply get_set_empty in H as [_ [H _]].
      discriminate. }
    destruct (find _ _) as [[k1 v1]|] eqn:Ef; [|discriminate].
    apply find_some in Ef as [Hin Heq]. cbn [snd] in Heq. apply eqb_eq in Heq. subst v1.
    intro H. apply get_set_empty in H as [-> [H _]]. inversion H; subst.
    right. apply eqb_neq in Ep. repeat split; try reflexivity; try assumption.
    apply In_get; [assumption|]. now apply Object_entries_In.
Qed.

Lemma fold_assign_origin (all : Record) (ls : list jsstring)
    (acc : RecordOf PropertyValue) (k : jsstring) (x : PropertyValue) :
  get (fold_left (fun acc l => Object_assign acc (foundEntry all l)) ls acc) k = Some x ->
  (exists x', get acc k = Some x')
  \/ exists l x', In l ls /\ get (foundEntry all l) k = Some x'.
Proof.
  revert acc. induction ls as [|l ls IH]; intros acc H.
  - left. now exists x.
  - cbn [fold_left] in H. destruct (IH _ H) as [[v' Hv'] | [l' [v' [Hin Hf]]]].
    + rewrite Object_assign_get in Hv'
        by (apply foundEntry_unique || apply foundEntry_no_proto).
      destruct (get (foundEntry all l) k) as [y|] eqn:E.
      * right. exists l, y. split; [now left | assumption].
      * left. now exists v'.
    + right. exists l', v'. split; [now right | assumption].
Qed.

Lemma fold_assign_keeps (all : Record) (ls : list jsstring)
    (acc : RecordOf PropertyValue) (k : jsstring) :
  (exists x, get acc k = Some x) ->
  exists x, get (fold_left (fun acc l => Object_assign acc (foundEntry all l)) ls acc) k
            = Some x.
Proof.
  revert acc. induction ls as [|l ls IH]; intros acc H; [exact H|].
  cbn [fold_left]. apply IH.
  rewrite Object_assign_get by (apply foundEntry_unique || apply foundEntry_no_proto).
  destruct (get (foundEntry all l) k) as [y|]; [now exists y | exact H].
Qed.

Lemma fold_assign_complete (all : Record) (ls : list jsstring)
    (acc : RecordOf PropertyValue) (l k : jsstring) (x : PropertyValue) :
  In l ls -> get (foundEntry all l) k = Some x ->
  exists x', get (fold_left (fun acc l => Object_assign acc (foundEntry all l)) ls acc) k
             = Some x'.
Proof.
  revert acc. induction ls as [|l0 ls IH]; intros acc Hin Hf; [contradiction|].
  cbn [fold_left]. destruct Hin as [-> | Hin].
  - apply fold_assign_keeps.
    rewrite Object_assign_get by (apply foundEntry_unique || apply foundEntry_no_proto).
    rewrite Hf. now exists x.
  - now apply IH.
Qed.

(** The entries extracted from the lines that the rewrite writes: a newly
    encrypted key has its serialized parameters as value, every other key
    the value it had. *)
Lemma rewritten_extract (lines : list jsstring)
    (us : list (jsstring * EncryptionParameters)) :
  (forall u, In u us -> validKey (fst u)) ->
  NoDup (map fst us) ->
  (forall u, In u us -> settledKey lines (fst u)) ->
  (forall u, In u us -> fst u <> PROTO) ->
  (forall u, In u us ->
     get (extractEnvironmentVariables
            (map (rewriteLine P us) lines
             ++ map (lineOf P) (filter (fun u => negb (hasLineFor lines (fst u))) us)))
         (fst u)
     = Some (JSON_stringify P (paramsObject (snd u))))
  /\ (forall k, ~ In k (map fst us) ->
        get (extractEnvironmentVariables
               (map (rewriteLine P us) lines
                ++ map (lineOf P) (filter (fun u => negb (hasLineFor lines (fst u))) us)))
            k
        = get (extractEnvironmentVariables lines) k).
Proof.
  intros Hvalid Hnd Hsettled Hkeys. split.
  - intros u Hu. rewrite get_extract by now apply Hkeys.
    apply lastValue_rewritten_key; auto.
  - intros k Hk. destruct (eqb k PROTO) eqn:E.
    + apply eqb_eq in E. subst k. now rewrite !extract_no_proto.
    + apply eqb_neq in E. rewrite !get_extract by assumption.
      now apply lastValue_rewritten_other.
Qed.

Section SecondTargets.

Variable lk : option (list jsstring).
Variables all1 all2 : Record.
Variable us : list (jsstring * EncryptionParameters).

Hypothesis Hnd1 : NoDup (map fst all1).
Hypothesis Hnd2 : NoDup (map fst all2).
Hypothesis Hp1 : get all1 PROTO = None.
Hypothesis Hp2 : get all2 PROTO = None.
Hypothesis Htruthy1 : forall k v, get all1 k = Some v -> truthy v = true.
Hypothesis Htruthy2 : forall k v, get all2 k = Some v -> truthy v = true.
Hypothesis Hkey :
  forall u, In u us -> get all2 (fst u) = Some (JSON_stringify P (paramsObject (snd u))).
Hypothesis Hother : forall k, ~ In k (map fst us) -> get all2 k = get all1 k.
Hypothesis Hold : forall u, In u us -> exists v, get all1 (fst u) = Some v.
Hypothesis Hcover : sharedValuesCovered P all1 lk.

Lemma same_keys (k : jsstring) : get all2 k = None <-> get all1 k = None.
Proof.
  destruct (in_dec (list_eq_dec N.eq_dec) k (map fst us)) as [Hin | Hnot].
  - apply in_map_iff in Hin as [u [<- Hu]]. rewrite (Hkey u Hu).
    destruct (Hold u Hu) as [v ->]. split; discriminate.
  - now rewrite (Hother k Hnot).
Qed.

(** A string selected by the second run is new, or was selected by the first
    run too, or looks encrypted. *)
Lemma second_target_origin (k v : jsstring) :
  get (targetSet all2 lk) k = Some (Text v) ->
  (exists u, In u us /\ fst u = k /\ v = JSON_stringify P (paramsObject (snd u)))
  \/ get (targetSet all1 lk) k = Some (Text v)
  \/ looksEncrypted P v = true.
Proof using All.
  intro Hg. pose proof (targetSet_sound all2 lk k v Hnd2 Hg) as Hv2.
  destruct (in_dec (list_eq_dec N.eq_dec) k (map fst us)) as [Hin | Hnot].
  { left. apply in_map_iff in Hin as [u [Hk Hu]]. exists u. subst k.
    rewrite (Hkey u Hu) in Hv2. inversion Hv2. auto. }
  right. rewrite (Hother k Hnot) in Hv2.
  destruct (looksEncrypted P v) eqn:El; [now right | left].
  assert (exists x, get (targetSet all1 lk) k = Some x) as [x Hx].
  { destruct lk as [[|l0 ls]|].
    - exists (Text v). rewrite targetSet_all by auto. now rewrite Hv2.
    - cbn [targetSet] in Hg |- *.
      destruct (fold_assign_origin all2 (l0 :: ls) [] k _ Hg)
        as [[y Hy] | [l [y [Hl Hy]]]]; [discriminate|].
      assert (exists v', y = Text v') as [v' ->].
      { apply foundEntry_kinds in Hy as [[v' [-> _]] | [_ [-> [Hn _]]]];
          [now exists v' | | assumption].
        apply same_keys in Hn. congruence. }
      apply foundEntry_cases in Hy
        as [[Hkl Hy] | [Hnone [Hm [Hlp [Hxl Hy]]]]]; try assumption.
      + subst l. apply (fold_assign_complete all1 (l0 :: ls) [] k k (Text v));
          [assumption|].
        unfold foundEntry, readProperty. cbv zeta. rewrite Hv2. cbn [truthyProperty].
        rewrite (Htruthy1 k v Hv2).
        assert (eqb k PROTO = false) as Hkp by (apply eqb_neq; intros ->; congruence).
        unfold set. rewrite Hkp. cbn [store get]. now rewrite eqb_refl.
      + subst v'. rewrite (Hother k Hnot) in Hy.
        apply same_keys in Hnone.
        assert (l = v) as -> by congruence.
        apply (Hcover v k Hl); try assumption.
        unfold readProperty. rewrite Hnone, Hm.
        apply eqb_neq in Hlp. now rewrite Hlp.
    - exists (Text v). rewrite targetSet_all by auto. now rewrite Hv2. }
  apply targetSet_kinds in Hx as Hkind; [|assumption].
  destruct Hkind as [[v' [-> Hv']] | [_ [Hn _]]]; [|congruence].
  rewrite Hv2 in Hv'. inversion Hv'; subst v'. exact Hx.
Qed.

(** A method selected by the second run was selected by the first run. *)
Lemma second_target_method (k : jsstring) (x : PropertyValue) :
  get (targetSet all2 lk) k = Some x -> (forall v, x <> Text v) ->
  exists y, get (targetSet all1 lk) k = Some y /\ forall v, y <> Text v.
Proof using All.
  intros Hg Hx.
  apply targetSet_kinds in Hg as Hkind; [|assumption].
  destruct Hkind as [[v [-> _]] | [-> [Hn Hm]]]; [now destruct (Hx v)|].
  apply same_keys in Hn.
  destruct lk as [[|l0 ls]|].
  - rewrite targetSet_all in Hg by auto. destruct (get all2 k); discriminate.
  - cbn [targetSet] in Hg.
    destruct (fold_assign_origin all2 (l0 :: ls) [] k _ Hg)
      as [[y Hy] | [l [y [Hl Hy]]]]; [discriminate|].
    assert (l = k) as ->.
    { apply foundEntry_kinds in Hy as [[v' [_ Hv']] | [_ [Hkl _]]];
        [|now symmetry|assumption].
      apply same_keys in Hn. congruence. }
    destruct (fold_assign_complete all1 (l0 :: ls) [] k k (Method k) Hl) as [y' Hy'].
    { rewrite (inherited_method_lookup all1 k Hn Hm). cbn [get]. now rewrite eqb_refl. }
    exists y'. split; [exact Hy'|].
    change (get (targetSet all1 (Some (l0 :: ls))) k = Some y') in Hy'.
    apply targetSet_kinds in Hy' as [[v' [_ Hv']] | [-> _]]; [congruence | | assumption].
    discriminate.
  - rewrite targetSet_all in Hg by auto. destruct (get all2 k); discriminate.
Qed.

End SecondTargets.

(** When every entry already looks encrypted the loop changes nothing. *)
Lemma processEntries_skip (entries : list (jsstring * PropertyValue)) :
  forall (lines : list jsstring) (n : nat) (w : World),
    (forall k x, In (k, x) entries ->
       exists v, x = Text v /\ looksEncrypted P v = true /\ trim v = v) ->
    exists w', processEntries P mgr entries lines n w = (Ok (lines, n), w').
Proof.
  induction entries as [|[key x] rest IH]; intros lines n w H.
  - exists w. reflexivity.
  - assert (forall k x, In (k, x) rest ->
              exists v, x = Text v /\ looksEncrypted P v = true /\ trim v = v) as H'
      by (intros k y Hin; apply (H k y); now right).
    destruct (H key x (or_introl eq_refl)) as [value [-> [Hl Ht]]].
    rewrite processEntries_text. destruct (truthy value); [|now apply IH].
    rewrite Ht.
    assert (exists w0, encryptIfNeeded P value (secretKeyVariable mgr) w
                       = (Ok (Unchanged value), w0)) as [w0 E0].
    { unfold encryptIfNeeded, bind.
      pose proof (isAlreadyEncrypted_result P value w) as Hr.
      destruct (isAlreadyEncrypted P value w) as [[b|e] w0] eqn:E; simpl in Hr;
        [|discriminate].
      inversion Hr; subst b. rewrite Hl. now exists w0. }
    unfold bind at 1. rewrite E0. cbn [skipsEncryption].
    rewrite (eqb_refl value), orb_true_r.
    unfold bind at 1. unfold logger_info, logMessage. cbn beta iota zeta.
    apply IH. exact H'.
Qed.

(** A successful rewrite leaves a non-empty environment file. *)
Lemma encryptEnvVariables_written (lk : option (list jsstring)) (w w' : World)
    (count : nat) :
  encryptEnvVariables P mgr lk w = (Ok count, w') ->
  exists c, files w' (environmentFilePath mgr) = Some c /\ truthy c = true.
Proof.
  intro H. apply encryptEnvVariables_success in H
    as [content [us [_ [_ [_ [_ [_ [_ [Ht Hw]]]]]]]]].
  exists (join (applyUpdates P us (split content NEWLINE)) NEWLINE).
  split; [|exact Ht]. rewrite Hw. cbv beta. now rewrite eqb_refl.
Qed.

(** Sufficiency.  Let every targeted key whose value is not yet encrypted be
    settled in the file, and let the shared values be covered.  Then a second
    rewrite right after a successful first one succeeds, encrypts nothing
    and leaves every file exactly as the first rewrite left it. *)
Lemma settled_second_rewrite (lk : option (list jsstring)) (w w1 : World)
    (count : nat) (content : jsstring) :
  encryptEnvVariables P mgr lk w = (Ok count, w1) ->
  files w (environmentFilePath mgr) = Some content ->
  settledTargets P (split content NEWLINE) lk ->
  sharedValuesCovered P (extractEnvironmentVariables (split content NEWLINE)) lk ->
  exists w2,
    encryptEnvVariables P mgr lk w1 = (Ok 0%nat, w2)
    /\ forall p, files w2 p = files w1 p.
Proof.
  intros Hrun Hfile Hsettled Hcover.
  destruct (encryptEnvVariables_written lk w w1 count Hrun) as [c [Hc Htruthy]].
  pose proof (encryptEnvVariables_texts P mgr lk w w1 count content Hrun Hfile) as Htexts.
  apply encryptEnvVariables_shape in Hrun
    as [content' [us [Hf [Hcount [Hnd [Hvalid [Hus [Hall [Hpath Hw]]]]]]]]].
  rewrite Hfile in Hf. inversion Hf; subst content'. clear Hf.
  set (lines := split content NEWLINE) in *.
  set (all1 := extractEnvironmentVariables lines) in *.
  assert (forall u, In u us -> exists v, get all1 (fst u) = Some v) as Hold.
  { intros [k p] Hu. destruct (Hus k p Hu) as [v [Hg _]].
    apply targetSet_sound in Hg; [|apply extract_unique]. now exists v. }
  assert (forall u, In u us -> fst u <> PROTO) as Hkeys.
  { intros u Hu. destruct (Hold u Hu) as [v Hv].
    now apply get_extract_Some in Hv as [Hk _]. }
  assert (forall u, In u us ->
            exists l v, In l lines /\ parseEnvironmentLine l = Some (fst u, v)) as Hsource.
  { intros u Hu. destruct (Hold u Hu) as [v Hv].
    apply get_extract_Some in Hv as [_ Hv].
    destruct (lastValue_source _ _ _ Hv) as [l [Hl Hp]].
    exists l, v. split; assumption. }
  assert (forall u, In u us -> settledKey lines (fst u)) as Hset.
  { intros [k p] Hu. destruct (Hus k p Hu) as [v [Hg Hl]]. exact (Hsettled k v Hg Hl). }
  set (L1 := map (rewriteLine P us) lines
             ++ map (lineOf P) (filter (fun u => negb (hasLineFor lines (fst u))) us)) in *.
  assert (files w1 (environmentFilePath mgr) = Some (join L1 NEWLINE)) as Hf1.
  { rewrite Hw. cbv beta. now rewrite eqb_refl. }
  rewrite Hf1 in Hc. inversion Hc; subst c. clear Hc.
  assert (split (join L1 NEWLINE) NEWLINE = L1) as Hsplit.
  { apply split_join.
    - unfold L1. intro E. apply app_eq_nil in E as [E _].
      apply map_eq_nil in E. revert E. apply split_nonempty.
    - apply Forall_forall. intros l' Hl'.
      apply (rewritten_one_line lines us Hvalid Hnd Hsource l'); [|exact Hl'].
      intros l Hl. pose proof (split_pieces content NEWLINE) as Hp.
      rewrite Forall_forall in Hp. now apply Hp. }
  set (all2 := extractEnvironmentVariables L1).
  destruct (rewritten_extract lines us Hvalid Hnd Hset Hkeys) as [Hkey Hother].
  fold L1 in Hkey, Hother. fold all2 in Hkey, Hother. fold all1 in Hother.
  assert (forall k0 v0, get all1 k0 = Some v0 -> truthy v0 = true) as Htruthy1.
  { intros k0 v0 H. apply extract_valid in H as [_ [Hne _]]. now destruct v0. }
  assert (forall k0 v0, get all2 k0 = Some v0 -> truthy v0 = true) as Htruthy2.
  { intros k0 v0 H. apply extract_valid in H as [_ [Hne _]]. now destruct v0. }
  destruct (determineVariablesToEncrypt_run all2 lk w1) as [wa [Hdet _]].
  pose proof (keepsFiles_determineVariablesToEncrypt all2 lk w1) as Hfa.
  rewrite Hdet in Hfa. simpl in Hfa.
  destruct (processEntries_skip (Object_entries (targetSet all2 lk)) L1 0 wa)
    as [wb Hproc].
  { intros k x Hin. apply (proj1 (Object_entries_In _ _)) in Hin.
    apply In_get in Hin; [|apply targetSet_unique].
    assert (exists v, x = Text v) as [v ->].
    { destruct x as [v|m|]; [now exists v| |].
      - destruct (second_target_method lk all1 all2 us (extract_unique _)
                    (extract_unique _) (extract_no_proto _) (extract_no_proto _)
                    Htruthy1 Htruthy2 Hkey Hother Hold Hcover k _ Hin)
          as [y [Hy Hny]]; [discriminate|].
        destruct (Htexts k y Hy) as [v ->]. now destruct (Hny v).
      - destruct (second_target_method lk all1 all2 us (extract_unique _)
                    (extract_unique _) (extract_no_proto _) (extract_no_proto _)
                    Htruthy1 Htruthy2 Hkey Hother Hold Hcover k _ Hin)
          as [y [Hy Hny]]; [discriminate|].
        destruct (Htexts k y Hy) as [v ->]. now destruct (Hny v). }
    exists v. split; [reflexivity|]. split.
    - destruct (second_target_origin lk all1 all2 us (extract_unique _)
                  (extract_unique _) (extract_no_proto _) (extract_no_proto _)
                  Htruthy1 Htruthy2 Hkey Hother Hold Hcover k v Hin)
        as [[u [Hu [_ ->]]] | [H1 | H1]].
      + apply stringify_params_looksEncrypted.
      + destruct (Hall k v H1) as [H | H]; [exact H|].
        apply in_map_iff in H as [u [Hk Hu]]. subst k.
        pose proof (targetSet_sound all2 lk _ _ (extract_unique _) Hin) as H2.
        rewrite (Hkey u Hu) in H2. inversion H2.
        apply stringify_params_looksEncrypted.
      + exact H1.
    - apply tight_trim. apply targetSet_sound in Hin; [|apply extract_unique].
      now apply extract_valid in Hin as [_ [_ Ht]]. }
  pose proof (keepsFiles_processEntries P mgr
                (Object_entries (targetSet all2 lk)) L1 0 wa) as Hfb.
  rewrite Hproc in Hfb. simpl in Hfb.
  exists (setFile wb (environmentFilePath mgr) (join L1 NEWLINE)). split.
  - unfold encryptEnvVariables. apply rethrowing_Ok.
    assert (readEnvFileAsLines mgr w1 = (Ok L1, w1)) as Hread.
    { unfold readEnvFileAsLines. apply rethrowing_Ok.
      unfold bind, fs_readFileSync. rewrite Hf1. unfold ret. now rewrite Hsplit. }
    rewrite (bind_run _ _ _ _ _ Hread). cbv zeta. fold all2.
    rewrite (bind_run _ _ _ _ _ Hdet).
    unfold processVariablesForEncryption. rewrite (bind_run _ _ _ _ _ Hproc).
    cbn [fst snd].
    assert (writeEnvFileLines mgr L1 wb
            = (Ok tt, setFile wb (environmentFilePath mgr) (join L1 NEWLINE))) as Hwrite.
    { unfold writeEnvFileLines. apply rethrowing_Ok. now apply writeFile_accept. }
    rewrite (bind_run _ _ _ _ _ Hwrite).
    assert (forall n w', logEncryptionSuccess mgr n 0 w' = (Ok tt, w')) as Hlog.
    { intros n w'. unfold logEncryptionSuccess. apply rethrowing_Ok. reflexivity. }
    rewrite (bind_run _ _ _ _ _ (Hlog _ _)). reflexivity.
  - intro p. rewrite (setFile_files wb _ _ (files w1)) by congruence.
    destruct (eqb p (environmentFilePath mgr)) eqn:E; [|reflexivity].
    apply eqb_eq in E. subst p. now rewrite Hf1.
Qed.

(** *** The two conditions are needed *)

(** A lookup that is a key selects that key's entry; a lookup that is
    resolved by value selects an entry with that value, if there is one. *)
Lemma key_lookup_is_targeted (all : Record) (lookups : list jsstring) (k v : jsstring) :
  NoDup (map fst all) -> get all PROTO = None ->
  (forall k0 v0, get all k0 = Some v0 -> truthy v0 = true) ->
  In k lookups -> get all k = Some v ->
  get (targetSet all (Some lookups)) k = Some (Text v).
Proof.
  intros Hnd Hp Ht Hin Hg.
  destruct lookups as [|l0 ls]; [contradiction|].
  destruct (fold_assign_complete all (l0 :: ls) [] k k (Text v) Hin) as [x Hx].
  { unfold foundEntry, readProperty. cbv zeta. rewrite Hg. cbn [truthyProperty].
    rewrite (Ht k v Hg).
    assert (eqb k PROTO = false) as Hkp by (apply eqb_neq; intros ->; congruence).
    unfold set. rewrite Hkp. cbn [store get]. now rewrite eqb_refl. }
  change (get (targetSet all (Some (l0 :: ls))) k = Some x) in Hx.
  apply targetSet_kinds in Hx as Hkind; [|assumption].
  destruct Hkind as [[v' [-> Hv']] | [_ [Hn _]]]; [|congruence].
  rewrite Hg in Hv'. inversion Hv'; subst v'. exact Hx.
Qed.

Lemma value_lookup_is_targeted (all : Record) (lookups : list jsstring) (l k : jsstring) :
  NoDup (map fst all) -> get all PROTO = None ->
  In l lookups -> readProperty all l = None -> get all k = Some l ->
  exists k', get (targetSet all (Some lookups)) k' = Some (Text l).
Proof.
  intros Hnd Hp Hin Hr Hg. destruct lookups as [|l0 ls]; [contradiction|].
  assert (exists k', get (foundEntry all l) k' = Some (Text l) /\ get all k' = Some l)
    as [k' [Hf Hk']].
  { unfold foundEntry. cbv zeta. rewrite Hr.
    destruct (find (fun e => eqb (snd e) l) (Object_entries all)) as [[k1 v1]|] eqn:Ef.
    - apply find_some in Ef as [Hin1 Heq]. cbn [snd] in Heq. apply eqb_eq in Heq. subst v1.
      apply (proj1 (Object_entries_In _ _)) in Hin1. apply In_get in Hin1; [|assumption].
      exists k1. split; [|assumption].
      assert (eqb k1 PROTO = false) as Hkp by (apply eqb_neq; intros ->; congruence).
      unfold set. rewrite Hkp. cbn [store get]. now rewrite eqb_refl.
    - exfalso. apply get_In in Hg. apply Object_entries_In in Hg.
      pose proof (find_none _ _ Ef _ Hg) as Hn. cbn [snd] in Hn.
      now rewrite eqb_refl in Hn. }
  destruct (fold_assign_complete all (l0 :: ls) [] l k' (Text l) Hin Hf) as [x Hx].
  change (get (targetSet all (Some (l0 :: ls))) k' = Some x) in Hx.
  apply targetSet_kinds in Hx as Hkind; [|assumption].
  destruct Hkind as [[v' [-> Hv']] | [_ [Hn _]]]; [|congruence].
  rewrite Hk' in Hv'. inversion Hv'; subst v'. now exists k'.
Qed.

(** Necessity.  If the second rewrite encrypts nothing, every targeted key
    that the first rewrite encrypted was settled, and the shared values were
    covered: otherwise the second rewrite finds a targeted value that does
    not look encrypted. *)
Lemma second_rewrite_needs (lk : option (list jsstring)) (w w1 w2 : World)
    (count : nat) (content : jsstring) :
  encryptEnvVariables P mgr lk w = (Ok count, w1) ->
  files w (environmentFilePath mgr) = Some content ->
  encryptEnvVariables P mgr lk w1 = (Ok 0%nat, w2) ->
  settledTargets P (split content NEWLINE) lk
  /\ sharedValuesCovered P (extractEnvironmentVariables (split content NEWLINE)) lk.
Proof.
  intros Hrun Hfile Hrun2.
  apply encryptEnvVariables_shape in Hrun
    as [content' [us [Hf [Hcount [Hnd [Hvalid [Hus [Hall [Hpath Hw]]]]]]]]].
  rewrite Hfile in Hf. inversion Hf; subst content'. clear Hf.
  set (lines := split content NEWLINE) in *.
  set (all1 := extractEnvironmentVariables lines) in *.
  assert (forall u, In u us -> exists v, get all1 (fst u) = Some v) as Hold.
  { intros [k p] Hu. destruct (Hus k p Hu) as [v [Hg _]].
    apply targetSet_sound in Hg; [|apply extract_unique]. now exists v. }
  assert (forall u, In u us -> fst u <> PROTO) as Hkeys.
  { intros u Hu. destruct (Hold u Hu) as [v Hv].
    now apply get_extract_Some in Hv as [Hk _]. }
  assert (forall u, In u us ->
            exists l v, In l lines /\ parseEnvironmentLine l = Some (fst u, v)) as Hsource.
  { intros u Hu. destruct (Hold u Hu) as [v Hv].
    apply get_extract_Some in Hv as [_ Hv].
    destruct (lastValue_source _ _ _ Hv) as [l [Hl Hp]].
    exists l, v. split; assumption. }
  set (L1 := map (rewriteLine P us) lines
             ++ map (lineOf P) (filter (fun u => negb (hasLineFor lines (fst u))) us)) in *.
  assert (files w1 (environmentFilePath mgr) = Some (join L1 NEWLINE)) as Hf1.
  { rewrite Hw. cbv beta. now rewrite eqb_refl. }
  assert (split (join L1 NEWLINE) NEWLINE = L1) as Hsplit.
  { apply split_join.
    - unfold L1. intro E. apply app_eq_nil in E as [E _].
      apply map_eq_nil in E. revert E. apply split_nonempty.
    - apply Forall_forall. intros l' Hl'.
      apply (rewritten_one_line lines us Hvalid Hnd Hsource l'); [|exact Hl'].
      intros l Hl. pose proof (split_pieces content NEWLINE) as Hp.
      rewrite Forall_forall in Hp. now apply Hp. }
  set (all2 := extractEnvironmentVariables L1).
  apply encryptEnvVariables_success in Hrun2
    as [c2 [us2 [Hc2 [_ [_ [Hall2 [Hcount2 _]]]]]]].
  rewrite Hf1 in Hc2. inversion Hc2; subst c2. clear Hc2.
  rewrite Hsplit in Hall2. fold all2 in Hall2.
  destruct us2 as [|u2 us2]; [|discriminate].
  assert (forall k v, get (targetSet all2 lk) k = Some (Text v) ->
                      looksEncrypted P v = true) as Hplain.
  { intros k v H. destruct (Hall2 k v H) as [H' | []]. exact H'. }
  assert (forall k, ~ In k (map fst us) -> get all2 k = get all1 k) as Hother.
  { intros k Hk. unfold all1, all2. destruct (eqb k PROTO) eqn:E.
    - apply eqb_eq in E. subst k. now rewrite !extract_no_proto.
    - apply eqb_neq in E. rewrite !get_extract by assumption.
      now apply lastValue_rewritten_other. }
  assert (forall u, In u us -> exists v, get all2 (fst u) = Some v) as Hsome.
  { intros u Hu. destruct (lastValue_rewritten_some lines us Hvalid Hnd u Hu) as [v Hv].
    exists v. unfold all2. rewrite get_extract by now apply Hkeys. exact Hv. }
  assert (forall k, get all1 k = None -> get all2 k = None) as Hsame.
  { intros k Hk.
    destruct (in_dec (list_eq_dec N.eq_dec) k (map fst us)) as [Hin | Hnot].
    - apply in_map_iff in Hin as [u [<- Hu]]. destruct (Hold u Hu) as [v' Hv'].
      congruence.
    - now rewrite (Hother k Hnot). }
  split.
  - intros k v Hg Hl.
    destruct (Hall k v Hg) as [H | Hin]; [congruence|].
    apply in_map_iff in Hin as [u [Hk Hu]]. subst k.
    destruct (settledKey_cases lines (fst u))
      as [H | [before [l [after [v' [Hlines [Hb [Hs [Hm Hafter]]]]]]]]]; [exact H|].
    exfalso.
    destruct (lastValue_rewritten_unsettled lines us Hvalid Hnd u before after l v'
                Hu Hlines Hb Hs Hm Hafter) as [H2 H1].
    assert (get all1 (fst u) = Some v) as Hv1.
    { apply targetSet_sound in Hg; [exact Hg | apply extract_unique]. }
    assert (v' = v) as ->.
    { unfold all1 in Hv1. rewrite get_extract in Hv1 by now apply Hkeys. congruence. }
    assert (get all2 (fst u) = Some v) as Hv2.
    { unfold all2. rewrite get_extract by now apply Hkeys. exact H2. }
    assert (exists k', get (targetSet all2 lk) k' = Some (Text v)) as [k' Hk'].
    { destruct lk as [[|l0 ls]|].
      - exists (fst u). rewrite targetSet_all;
          [now rewrite Hv2 | now right | apply extract_unique | apply extract_no_proto].
      - destruct (fold_assign_origin all1 (l0 :: ls) [] (fst u) _ Hg)
          as [[y Hy] | [l1 [y [Hl1 Hy]]]]; [discriminate|].
        apply foundEntry_kinds in Hy as Hkind; [|apply extract_unique].
        destruct Hkind as [[v'' [-> Hv'']] | [_ [Hkl [Hn _]]]].
        2:{ destruct (Hold u Hu) as [x Hx]. rewrite <- Hkl in Hn. congruence. }
        apply foundEntry_cases in Hy
          as [[Hkl Hy] | [Hnone [Hmth [Hlp [Hxl Hy]]]]];
          [| |apply extract_unique
           |intros k0 v0 H; apply extract_valid in H as [_ [Hne _]]; now destruct v0].
        + subst l1. exists (fst u). apply key_lookup_is_targeted; try assumption.
          * apply extract_unique.
          * apply extract_no_proto.
          * intros k0 v0 H. apply extract_valid in H as [_ [Hne _]]. now destruct v0.
        + subst v''. assert (l1 = v) as -> by congruence.
          apply (value_lookup_is_targeted all2 (l0 :: ls) v (fst u));
            [apply extract_unique | apply extract_no_proto | assumption | | assumption].
          unfold readProperty. rewrite (Hsame v Hnone), Hmth.
          apply eqb_neq in Hlp. now rewrite Hlp.
      - exists (fst u). rewrite targetSet_all;
          [now rewrite Hv2 | now left | apply extract_unique | apply extract_no_proto]. }
    rewrite (Hplain k' v Hk') in Hl. discriminate.
  - destruct lk as [lookups|]; [|exact I]. cbn [sharedValuesCovered].
    intros l k Hin Hr Hl Hg.
    destruct (get (targetSet all1 (Some lookups)) k) as [x|] eqn:E; [now exists x|].
    exfalso.
    assert (~ In k (map fst us)) as Hnot.
    { intro H. apply in_map_iff in H as [[k0 p] [Hk Hu]]. simpl in Hk. subst k0.
      destruct (Hus k p Hu) as [v [Hgv _]]. congruence. }
    assert (get all2 k = Some l) as Hg2 by (rewrite (Hother k Hnot); exact Hg).
    assert (readProperty all2 l = None) as Hr2.
    { unfold readProperty in *. destruct (get all1 l) eqn:E1; [discriminate|].
      now rewrite (Hsame l E1). }
    destruct (value_lookup_is_targeted all2 lookups l k (extract_unique _)
                (extract_no_proto _) Hin Hr2 Hg2) as [k' Hk'].
    rewrite (Hplain k' l Hk') in Hl. discriminate.
Qed.

(** C3, amended.  After a successful first rewrite, a second rewrite right
    after it succeeds, encrypts nothing (its count is zero) and leaves every
    file, the environment file included, exactly as the first rewrite left
    it, if and only if two conditions hold of the file and the lookups: every
    targeted key whose value is not yet encrypted is settled in the file (no
    line begins with [KEY=], or some line that begins with [KEY=] has no
    entry for the key after it), and for every lookup that is resolved by
    value and does not look encrypted all entries with that value are
    targeted. *)
Theorem second_rewrite_changes_nothing (lk : option (list jsstring)) (w w1 : World)
    (count : nat) (content : jsstring) :
  encryptEnvVariables P mgr lk w = (Ok count, w1) ->
  files w (environmentFilePath mgr) = Some content ->
  (settledTargets P (split content NEWLINE) lk
   /\ sharedValuesCovered P (extractEnvironmentVariables (split content NEWLINE)) lk)
  <-> (exists w2,
         encryptEnvVariables P mgr lk w1 = (Ok 0%nat, w2)
         /\ forall p, files w2 p = files w1 p).
Proof.
  intros Hrun Hfile. split.
  - intros [Hs Hc]. exact (settled_second_rewrite lk w w1 count content Hrun Hfile Hs Hc).
  - intros [w2 [Hrun2 _]].
    exact (second_rewrite_needs lk w w1 w2 count content Hrun Hfile Hrun2).
Qed.

End Idempotence.

(** ** The empty lookup array *)

Section EmptyLookups.

Variable P : Platform.
Variable mgr : EnvironmentFileManager.

(** C10.  An empty lookup array is treated exactly as an omitted one: target
    selection and the whole rewrite do the same thing in both cases, and the
    target set holds every entry extracted from the file.  In a run that
    succeeds every entry is therefore encrypted: its value, which is never
    empty, either looks encrypted already, or [encrypt] has returned
    parameters for it under the manager's secret and the file written holds
    the line [KEY=] followed by their serialized form; on a platform that
    meets its contracts these parameters decrypt to the value.  The count of
    the run is the number of entries whose value did not look encrypted. *)
Theorem empty_lookups_target_everything :
  (forall all w,
      determineVariablesToEncrypt all (Some []) w
      = determineVariablesToEncrypt all None w)
  /\ (forall w, encryptEnvVariables P mgr (Some []) w = encryptEnvVariables P mgr None w)
  /\ (forall lines k,
        get (targetSet (extractEnvironmentVariables lines) (Some [])) k
        = option_map Text (get (extractEnvironmentVariables lines) k))
  /\ (forall w w' count,
        encryptEnvVariables P mgr (Some []) w = (Ok count, w') ->
        exists content lines',
          files w (environmentFilePath mgr) = Some content
          /\ files w' (environmentFilePath mgr) = Some (join lines' NEWLINE)
          /\ count
             = length (filter (fun e => negb (looksEncrypted P (snd e)))
                              (extractEnvironmentVariables (split content NEWLINE)))
          /\ forall k v,
               get (extractEnvironmentVariables (split content NEWLINE)) k = Some v ->
               v <> []
               /\ (looksEncrypted P v = true
                   \/ exists p w0 w0',
                        encrypt P v (secretKeyVariable mgr) w0 = (Ok p, w0')
                        /\ In (lineOf P (k, p)) lines'
                        /\ (PlatformOk P ->
                            forall w2, exists w3,
                              decrypt P (JSON_stringify P (paramsObject p))
                                      (secretKeyVariable mgr) w2
                              = (Ok (TextDecoder_decode (TextEncoder_encode v)), w3)))).
Proof.
  split; [reflexivity|]. split; [reflexivity|].
  assert (forall lines k,
            get (targetSet (extractEnvironmentVariables lines) (Some [])) k
            = option_map Text (get (extractEnvironmentVariables lines) k)) as Htarget.
  { intros lines k. apply targetSet_all; [now right | apply extract_unique |].
    apply extract_no_proto. }
  split; [exact Htarget|].
  intros w w' count H.
  apply encryptEnvVariables_history in H
    as [content [us [Hf [Hnd [Hus [Hall [Hc [_ [_ [Hw Henc]]]]]]]]]].
  assert (forall u, In u us -> validKey (fst u)) as Hvalid.
  { intros [k p] Hu. destruct (Hus k p Hu) as [v [Hg _]].
    apply targetSet_sound in Hg; [|apply extract_unique].
    now apply extract_valid in Hg. }
  assert (Forall (fun u => includes (fst u) EQUALS = false) us) as Hsep.
  { apply Forall_forall. intros u Hu. now apply validKey_no_sep, Hvalid. }
  rewrite (applyUpdates_shape P us (split content NEWLINE) Hsep Hnd) in Hw.
  exists content,
    (map (rewriteLine P us) (split content NEWLINE)
     ++ map (lineOf P) (filter (fun u => negb (hasLineFor (split content NEWLINE) (fst u))) us)).
  split; [exact Hf|]. split; [rewrite Hw; cbv beta; now rewrite eqb_refl|]. split.
  - rewrite Hc, <- (length_map fst us).
    rewrite <- (length_map fst (filter _ (extractEnvironmentVariables (split content NEWLINE)))).
    apply Permutation_length. apply NoDup_Permutation.
    + exact Hnd.
    + apply NoDup_keys_filter, extract_unique.
    + intro k. split; intro Hin.
      * apply in_map_iff in Hin as [[k' p] [Hk Hin]]. simpl in Hk. subst k'.
        destruct (Hus k p Hin) as [v [Hg Hl]].
        apply targetSet_sound in Hg; [|apply extract_unique].
        apply in_map_iff. exists (k, v). split; [reflexivity|].
        apply filter_In. split; [now apply get_In|]. cbn [snd]. now rewrite Hl.
      * apply in_map_iff in Hin as [[k' v] [Hk Hin]]. simpl in Hk. subst k'.
        apply filter_In in Hin as [Hin Hl]. cbn [snd] in Hl.
        apply negb_true_iff in Hl.
        apply In_get in Hin; [|apply extract_unique].
        destruct (Hall k v) as [H | H]; [|congruence|exact H].
        rewrite Htarget. now rewrite Hin.
  - intros k v Hg. split.
    + apply extract_valid in Hg as [_ [Hne _]]. exact Hne.
    + destruct (looksEncrypted P v) eqn:El; [now left | right].
      destruct (Hall k v) as [H | H]; [|congruence|].
      { rewrite Htarget. now rewrite Hg. }
      apply in_map_iff in H as [[k' p] [Hk Hu]]. simpl in Hk. subst k'.
      destruct (Henc k p Hu) as [v' [w0 [w0' [Hg' He]]]].
      apply targetSet_sound in Hg'; [|apply extract_unique].
      rewrite Hg in Hg'. inversion Hg'; subst v'.
      exists p, w0, w0'. split; [exact He|]. split.
      * apply in_or_app. destruct (hasLineFor (split content NEWLINE) k) eqn:Eh.
        -- left. unfold hasLineFor in Eh. apply existsb_exists in Eh as [l [Hl Hs]].
           apply in_map_iff. exists l. split; [|assumption].
           now apply (rewriteLine_touched P us (k, p) l Hsep Hnd Hu).
        -- right. apply in_map_iff. exists (k, p). split; [reflexivity|].
           apply filter_In. split; [assumption|]. cbn [fst]. now rewrite Eh.
      * intros POk w2. exact (decrypt_encrypt P POk v _ w0 w0' p He w2).
Qed.

End EmptyLookups.

(** ** The second run on concrete files *)

Section SecondRun.

Import Reference.

(** C3, as stated, fails.  In the file [K=a / (two spaces)K=b] the entry
    [(K, b)] comes from the indented second line.  The first rewrite encrypts
    [b] and overwrites the first line; the second line, and with it the entry
    [(K, b)], stays.  The second rewrite therefore encrypts [b] once more:
    its count is one, not zero, and it writes a different first line. *)
Lemma second_rewrite_encrypts_again :
  fst (rewriteOnce (js "K=a" ++ NEWLINE :: js "  K=b") None) = Ok 1%nat
  /\ fst (rewriteTwice (js "K=a" ++ NEWLINE :: js "  K=b") None) = Ok 1%nat
  /\ nth 1 (linesOf (snd (rewriteOnce (js "K=a" ++ NEWLINE :: js "  K=b") None))) []
     = js "  K=b"
  /\ eqb (nth 0 (linesOf (snd (rewriteOnce (js "K=a" ++ NEWLINE :: js "  K=b") None))) [])
         (nth 0 (linesOf (snd (rewriteTwice (js "K=a" ++ NEWLINE :: js "  K=b") None))) [])
     = false.
Proof. repeat split; vm_compute; reflexivity. Qed.

(** The same happens when a lookup is the value of two entries: it selects
    the first of them only, and after the first rewrite it selects the
    second. *)
Lemma shared_value_is_encrypted_in_turn :
  fst (rewriteOnce (js "USER=admin" ++ NEWLINE :: js "PASS=admin") (Some [js "admin"]))
  = Ok 1%nat
  /\ nth 1 (linesOf (snd (rewriteOnce (js "USER=admin" ++ NEWLINE :: js "PASS=admin")
                                      (Some [js "admin"])))) [] = js "PASS=admin"
  /\ fst (rewriteTwice (js "USER=admin" ++ NEWLINE :: js "PASS=admin") (Some [js "admin"]))
     = Ok 1%nat
  /\ startsWith
       (nth 1 (linesOf (snd (rewriteTwice (js "USER=admin" ++ NEWLINE :: js "PASS=admin")
                                          (Some [js "admin"])))) [])
       (js "PASS={") = true.
Proof. repeat split; vm_compute; reflexivity. Qed.

(** C3, amended, on a file with an indented entry and a shared value:
    [(two spaces)K=b / USER=admin / PASS=admin] with the lookups [K], [admin]
    and [PASS].  The line for [K] is appended, [admin] selects [USER], and
    [PASS] is selected by its key. *)
Lemma second_rewrite_changes_nothing_witness :
  exists w2,
    encryptEnvVariables platform manager (Some [js "K"; js "admin"; js "PASS"])
      (snd (rewriteOnce
              (js "  K=b" ++ NEWLINE :: js "USER=admin" ++ NEWLINE :: js "PASS=admin")
              (Some [js "K"; js "admin"; js "PASS"])))
    = (Ok 0%nat, w2)
    /\ forall p,
         files w2 p
         = files (snd (rewriteOnce
                         (js "  K=b" ++ NEWLINE :: js "USER=admin"
                            ++ NEWLINE :: js "PASS=admin")
                         (Some [js "K"; js "admin"; js "PASS"]))) p.
Proof.
  assert (encryptEnvVariables platform manager (Some [js "K"; js "admin"; js "PASS"])
            (world (js "  K=b" ++ NEWLINE :: js "USER=admin"
                      ++ NEWLINE :: js "PASS=admin") [])
          = (Ok 3%nat,
             snd (rewriteOnce
                    (js "  K=b" ++ NEWLINE :: js "USER=admin"
                       ++ NEWLINE :: js "PASS=admin")
                    (Some [js "K"; js "admin"; js "PASS"])))) as Hrun.
  { apply (outcome_and_world (rewriteOnce _ _)). vm_compute. reflexivity. }
  apply (proj1 (second_rewrite_changes_nothing platform ReferenceFacts.platform_ok
                  manager (Some [js "K"; js "admin"; js "PASS"]) _ _ 3%nat
                  (js "  K=b" ++ NEWLINE :: js "USER=admin" ++ NEWLINE :: js "PASS=admin")
                  Hrun eq_refl)).
  split.
  - intros k v Hg _. apply get_In in Hg. vm_compute in Hg.
    destruct Hg as [E | [E | [E | []]]]; inversion E; subst k v.
    + left. reflexivity.
    + right. exists [js "  K=b"], (js "USER=admin"), [js "PASS=admin"].
      split; [reflexivity|]. split; [reflexivity|].
      intros l' [<- | []]. reflexivity.
    + right. exists [js "  K=b"; js "USER=admin"], (js "PASS=admin"), [].
      split; [reflexivity|]. split; [reflexivity|]. intros l' [].
  - intros l k Hin Hr _ Hg. destruct Hin as [<- | [<- | [<- | []]]].
    + vm_compute in Hr. discriminate.
    + apply get_In in Hg. vm_compute in Hg.
      destruct Hg as [E | [E | [E | []]]]; inversion E; subst k;
        eexists; vm_compute; reflexivity.
    + vm_compute in Hr. discriminate.
Defined.

End SecondRun.

(* ================================================================== *)
(** * Part IV.  Further properties of the code                         *)
(* ================================================================== *)

(** ** Lines and entries *)

Section Lines.

(** A line is an entry exactly when its trimmed form is [K=V] with [K]
    non-empty and free of '=' and [V] non-empty (everything after the first
    '=', further '=' included); the entry is then the pair of the trimmed [K]
    and the trimmed [V].  Blank lines, lines without '=', [KEY=] and [=VALUE]
    are no entries. *)
Theorem line_is_entry_iff (l k v : jsstring) :
  parseEnvironmentLine l = Some (k, v) <->
  exists k0 v0, trim l = k0 ++ EQUALS :: v0 /\ includes k0 EQUALS = false
                /\ k0 <> [] /\ v0 <> [] /\ k = trim k0 /\ v = trim v0.
Proof. apply parseEnvironmentLine_spec. Qed.

(** Writing an entry as [KEY=VALUE], with any white space around it, and
    parsing the line gives the entry back, also when the value contains
    '='. *)
Theorem formatted_entry_parses (k v a b : jsstring) :
  validKey k -> validValue v ->
  forallb isWhiteSpace a = true -> forallb isWhiteSpace b = true ->
  parseEnvironmentLine (a ++ (k ++ EQUALS :: v) ++ b) = Some (k, v).
Proof.
  intros Hk Hv Ha Hb. apply parseEnvironmentLine_spec.
  exists k, v. destruct Hk as [Hk1 [Hk2 Hk3]]. destruct Hv as [Hv1 Hv2].
  repeat split; try assumption.
  - apply trim_sandwich; try assumption.
    + now apply tight_glue.
    + now destruct k.
  - symmetry. now apply tight_trim.
  - symmetry. now apply tight_trim.
Qed.

Lemma formatted_entry_parses_witness :
  parseEnvironmentLine (js "  " ++ (js "URL" ++ EQUALS :: js "http://h/?a=b") ++ js " ")
  = Some (js "URL", js "http://h/?a=b").
Proof.
  apply (formatted_entry_parses (js "URL") (js "http://h/?a=b") (js "  ") (js " "));
    repeat split; try discriminate; reflexivity.
Defined.

Lemma lastValue_None (lines : list jsstring) (k : jsstring) :
  lastValue lines k = None ->
  forall l v, In l lines -> parseEnvironmentLine l <> Some (k, v).
Proof.
  intros H l v Hin Hp. destruct (lastValue_present lines l k v Hin Hp) as [v' Hv'].
  congruence.
Qed.

Lemma lastValue_absent (lines : list jsstring) (k : jsstring) :
  (forall l v, In l lines -> parseEnvironmentLine l <> Some (k, v)) ->
  lastValue lines k = None.
Proof.
  intro H. destruct (lastValue lines k) as [v|] eqn:E; [|reflexivity].
  destruct (lastValue_source _ _ _ E) as [l [Hin Hp]]. now destruct (H l v Hin).
Qed.

(** The extracted value of a key is the value of the last line that is an
    entry for that key: earlier lines for the same key are overridden.  A
    line whose key is [__proto__] leaves no entry. *)
Theorem extracted_value_is_last (lines : list jsstring) (k v : jsstring) :
  get (extractEnvironmentVariables lines) k = Some v <->
  k <> PROTO
  /\ exists before l after,
       lines = before ++ l :: after
       /\ parseEnvironmentLine l = Some (k, v)
       /\ forall l' v', In l' after -> parseEnvironmentLine l' <> Some (k, v').
Proof.
  split.
  - intro H. apply get_extract_Some in H as [Hk H]. split; [exact Hk|]. clear Hk.
    induction lines as [|l0 lines IH]; [discriminate|].
    rewrite lastValue_cons in H. destruct (lastValue lines k) as [v'|] eqn:E.
    + inversion H; subst v'. destruct (IH eq_refl) as [b [l [a [-> [Hp Ha]]]]].
      exists (l0 :: b), l, a. repeat split; assumption.
    + destruct (parseEnvironmentLine l0) as [[k' x]|] eqn:Ep; [|discriminate].
      destruct (eqb k' k) eqn:Ek; [|discriminate]. apply eqb_eq in Ek. subst k'.
      inversion H; subst x. exists [], l0, lines. repeat split; [assumption|].
      intros l' v' Hin. exact (lastValue_None lines k E l' v' Hin).
  - intros [Hk [b [l [a [-> [Hp Ha]]]]]]. rewrite get_extract by assumption.
    rewrite lastValue_app, lastValue_cons, (lastValue_absent a k Ha), Hp.
    now rewrite eqb_refl.
Qed.

Lemma store_length {V} (o : RecordOf V) (k : jsstring) (v : V) :
  (length (store o k v) <= S (length o))%nat.
Proof.
  induction o as [|[k' v'] o IH]; simpl; [lia|].
  destruct (eqb k' k); simpl; lia.
Qed.

Lemma set_length {V} (o : RecordOf V) (k : jsstring) (v : V) :
  (length (set o k v) <= S (length o))%nat.
Proof. unfold set. destruct (eqb k PROTO); [lia | apply store_length]. Qed.

Lemma Object_assign_length {V} (t s : RecordOf V) :
  (length (Object_assign t s) <= length t + length s)%nat.
Proof.
  unfold Object_assign.
  rewrite <- (Permutation_length (Object_entries_perm s)).
  generalize (Object_entries s) as L. intro L. revert t.
  induction L as [|e L IH]; intro t; simpl; [lia|].
  specialize (IH (set t (fst e) (snd e))).
  pose proof (set_length t (fst e) (snd e)). lia.
Qed.

Lemma foundEntry_length (all : Record) (l : jsstring) :
  (length (foundEntry all l) <= 1)%nat.
Proof.
  unfold foundEntry. cbv zeta.
  assert (forall k (x : PropertyValue), (length (set [] k x) <= 1)%nat) as Hs
    by (intros; apply (set_length [])).
  destruct (readProperty all l) as [x|]; [destruct (truthyProperty x)|];
    try destruct (find _ _) as [[k y]|]; simpl; auto.
Qed.

(** Every lookup selects at most one entry, so a list of lookups selects at
    most as many entries as it has elements; and a lookup that is a key of
    the file selects that key's entry, whatever values other entries have. *)
Theorem lookups_select_at_most_one_entry_each (all : Record) (l : jsstring)
    (rest : list jsstring) :
  (length (foundEntry all l) <= 1)%nat
  /\ (Object_keys_length (targetSet all (Some (l :: rest))) <= length (l :: rest))%nat
  /\ (forall v, get all l = Some v -> v <> [] -> l <> PROTO ->
                foundEntry all l = [(l, Text v)]).
Proof.
  split; [apply foundEntry_length|]. split.
  - unfold Object_keys_length.
    rewrite (Permutation_length (Object_entries_perm _)). cbn [targetSet].
    assert (forall ls acc,
              (length (fold_left (fun acc l0 => Object_assign acc (foundEntry all l0))
                                 ls acc)
               <= length acc + length ls)%nat) as H.
    { induction ls as [|l0 ls IH]; intro acc; simpl; [lia|].
      specialize (IH (Object_assign acc (foundEntry all l0))).
      pose proof (Object_assign_length acc (foundEntry all l0)).
      pose proof (foundEntry_length all l0). lia. }
    apply (H (l :: rest) []).
  - intros v Hv Hne Hl. unfold foundEntry, readProperty. cbv zeta. rewrite Hv.
    cbn [truthyProperty]. destruct v as [|c v]; [contradiction|]. cbn [truthy].
    unfold set. apply eqb_neq in Hl. now rewrite Hl.
Qed.

(** *** updateEnvironmentLines *)


Lemma updated_line_starts (k v line : jsstring) :
  startsWith (if startsWith line (k ++ [EQUALS]) then k ++ [EQUALS] ++ v else line)
             (k ++ [EQUALS])
  = startsWith line (k ++ [EQUALS]).
Proof.
  destruct (startsWith line (k ++ [EQUALS])) eqn:E; [|exact E].
  rewrite app_assoc. apply startsWith_app.
Qed.

Lemma existsb_after_update (k v : jsstring) (ls : list jsstring) :
  existsb (fun line => startsWith line (k ++ [EQUALS]))
          (map (fun line => if startsWith line (k ++ [EQUALS])
                            then k ++ [EQUALS] ++ v else line) ls)
  = existsb (fun line => startsWith line (k ++ [EQUALS])) ls.
Proof.
  induction ls as [|l ls IH]; [reflexivity|].
  cbn [map existsb]. now rewrite updated_line_starts, IH.
Qed.


(** An update keeps the number of lines when some line begins with [KEY=],
    and adds exactly one line otherwise; either way some line begins with
    [KEY=] afterwards; and every line that does not begin with [KEY=] stays
    where and as it was. *)
Theorem update_keeps_or_appends (ls : list jsstring) (k v : jsstring) :
  length (updateEnvironmentLines ls k v)
  = (if hasLineFor ls k then length ls else S (length ls))
  /\ hasLineFor (updateEnvironmentLines ls k v) k = true
  /\ (forall i line, nth_error ls i = Some line ->
        startsWith line (k ++ [EQUALS]) = false ->
        nth_error (updateEnvironmentLines ls k v) i = Some line).
Proof.
  unfold updateEnvironmentLines, hasLineFor. cbv zeta.
  destruct (existsb (fun line => startsWith line (k ++ [EQUALS])) ls) eqn:E.
  - split; [apply length_map|]. split.
    + now rewrite existsb_after_update.
    + intros i line Hi Hs. rewrite nth_error_map, Hi. cbn [option_map]. now rewrite Hs.
  - split; [rewrite length_app, length_map; simpl; lia|]. split.
    + rewrite existsb_app. cbn [existsb].
      rewrite (app_assoc k [EQUALS] v), startsWith_app. apply orb_true_r.
    + intros i line Hi Hs.
      rewrite nth_error_app1
        by (rewrite length_map; apply nth_error_Some; congruence).
      rewrite nth_error_map, Hi. cbn [option_map]. now rewrite Hs.
Qed.

End Lines.

(** ** The rewrite as a whole *)

Section Rewrite.

Variable P : Platform.
Variable mgr : EnvironmentFileManager.

Lemma bind_Throw_cases {A B} (m : M A) (k : A -> M B) (w w' : World) (e : JsError) :
  bind m k w = (Throw e, w') ->
  m w = (Throw e, w') \/ exists a w1, m w = (Ok a, w1) /\ k a w1 = (Throw e, w').
Proof.
  unfold bind. destruct (m w) as [[a|e0] w1]; intro H.
  - right. now exists a, w1.
  - left. now inversion H.
Qed.

Lemma keepsFiles_validatePath (path paramName : jsstring) :
  keepsFiles (validatePath path paramName).
Proof.
  unfold validatePath. pose proof @keepsFiles_logAndThrow. auto 10 with frame.
Qed.

Lemma rethrowing_Throw_inv {A} (source context : string) (body : M A) (w w' : World)
    (e : JsError) :
  rethrowing source context body w = (Throw e, w') ->
  exists w1, body w = (Throw e, w1) /\ files w' = files w1.
Proof.
  unfold rethrowing, tryCatch. destruct (body w) as [[a|e0] w1]; [discriminate|].
  unfold bind, captureError, logger_error, logMessage, throw. intro H.
  inversion H; subst. exists w1. split; reflexivity.
Qed.

Lemma writeFile_Throw (path content keyName : jsstring) (w w' : World) (e : JsError) :
  FileManager_writeFile path content keyName w = (Throw e, w') -> files w' = files w.
Proof.
  destruct (acceptablePath path) eqn:Ep.
  - destruct (truthy content) eqn:Ec.
    + rewrite (writeFile_accept path content keyName w Ep Ec). discriminate.
    + unfold FileManager_writeFile. rewrite (bind_run _ _ _ _ _ (validatePath_accept _ w Ep)).
      rewrite Ec. cbn. intro H. inversion H. reflexivity.
  - unfold FileManager_writeFile. intro H.
    apply bind_Throw_cases in H as [H | [[] [w1 [H _]]]].
    + pose proof (keepsFiles_validatePath path (js "filePath") w) as Hk.
      rewrite H in Hk. exact Hk.
    + apply validatePath_Ok in H as [H _]. congruence.
Qed.

Lemma encryptEnvVariables_Throw_files (lk : option (list jsstring)) (w : World) :
  match encryptEnvVariables P mgr lk w with
  | (Throw _, w') => files w' = files w
  | (Ok _, _) => True
  end.
Proof.
  destruct (encryptEnvVariables P mgr lk w) as [[n|e] w'] eqn:E; [exact I|].
  unfold encryptEnvVariables in E.
  apply rethrowing_Throw_inv in E as [w0 [E ->]].
  apply bind_Throw_cases in E as [E | [lines [w1 [Hread E]]]].
  { pose proof (keepsFiles_readEnvFileAsLines mgr w) as Hk. now rewrite E in Hk. }
  pose proof (keepsFiles_readEnvFileAsLines mgr w) as H1. rewrite Hread in H1.
  cbn [snd] in H1. cbv zeta in E.
  apply bind_Throw_cases in E as [E | [targets [w2 [Hdet E]]]].
  { pose proof (keepsFiles_determineVariablesToEncrypt
                  (extractEnvironmentVariables lines) lk w1) as Hk.
    rewrite E in Hk. cbn [snd] in Hk. congruence. }
  pose proof (keepsFiles_determineVariablesToEncrypt
                (extractEnvironmentVariables lines) lk w1) as H2.
  rewrite Hdet in H2. cbn [snd] in H2.
  apply bind_Throw_cases in E as [E | [result [w3 [Hproc E]]]].
  { unfold processVariablesForEncryption in E.
    pose proof (keepsFiles_processEntries P mgr (Object_entries targets) lines 0 w2) as Hk.
    rewrite E in Hk. cbn [snd] in Hk. congruence. }
  unfold processVariablesForEncryption in Hproc.
  pose proof (keepsFiles_processEntries P mgr (Object_entries targets) lines 0 w2) as H3.
  rewrite Hproc in H3. cbn [snd] in H3.
  apply bind_Throw_cases in E as [E | [[] [w4 [Hwrite E]]]].
  { unfold writeEnvFileLines in E. apply rethrowing_Throw_inv in E as [w5 [E ->]].
    apply writeFile_Throw in E. congruence. }
  exfalso. apply bind_Throw_cases in E as [E | [[] [w5 [_ E]]]].
  - unfold logEncryptionSuccess in E. apply rethrowing_Throw_inv in E as [w6 [E _]].
    destruct (0 <? snd result)%nat; discriminate.
  - discriminate.
Qed.

(** Whatever makes a rewrite fail (a missing or unreadable file, a lookup
    that finds a function, a value that cannot be encrypted, a path or a
    content that the file manager refuses), the files are afterwards what
    they were before: every step that can fail comes before the one write,
    and the write of the file system itself is taken to succeed. *)
Theorem failed_rewrite_writes_nothing (lk : option (list jsstring)) (w : World) :
  match encryptEnvVariables P mgr lk w with
  | (Throw _, w') => files w' = files w
  | (Ok _, _) => True
  end.
Proof. apply encryptEnvVariables_Throw_files. Qed.

(** A rewrite of a file that does not exist fails and creates no file. *)
Theorem rewrite_of_missing_file_fails (lk : option (list jsstring)) (w : World) :
  files w (environmentFilePath mgr) = None ->
  exists e w', encryptEnvVariables P mgr lk w = (Throw e, w')
               /\ files w' = files w.
Proof.
  intro H. pose proof (encryptEnvVariables_Throw_files lk w) as Hf.
  destruct (encryptEnvVariables P mgr lk w) as [[n|e] w'] eqn:E.
  - apply encryptEnvVariables_success in E as [content [us [Hc _]]]. congruence.
  - exists e, w'. split; [reflexivity | exact Hf].
Qed.

(** The count of a successful rewrite, the [encryptedCount] that it passes
    to [logEncryptionSuccess], is exactly the number of entries of the target
    set whose value did not already look encrypted. *)
Theorem count_is_number_of_plain_targets (lk : option (list jsstring)) (w w' : World)
    (count : nat) (content : jsstring) :
  encryptEnvVariables P mgr lk w = (Ok count, w') ->
  files w (environmentFilePath mgr) = Some content ->
  count = length (plainTargets P (targetSet (extractEnvironmentVariables
                                               (split content NEWLINE)) lk)).
Proof.
  intros Hrun Hfile.
  apply encryptEnvVariables_success in Hrun
    as [content' [us [Hf [Hnd [Hus [Hall [Hc _]]]]]]].
  rewrite Hfile in Hf. inversion Hf; subst content'. clear Hf.
  set (T := targetSet (extractEnvironmentVariables (split content NEWLINE)) lk) in *.
  assert (NoDup (map fst T)) as HT by apply targetSet_unique.
  rewrite Hc, <- (length_map fst us), <- (length_map fst (plainTargets P T)).
  apply Permutation_length. apply NoDup_Permutation.
  - exact Hnd.
  - now apply NoDup_keys_filter.
  - intro k. split; intro Hin.
    + apply in_map_iff in Hin as [[k' p] [Hk Hin]]. simpl in Hk. subst k'.
      destruct (Hus k p Hin) as [v [Hg Hl]].
      apply in_map_iff. exists (k, Text v). split; [reflexivity|].
      apply filter_In. split; [now apply get_In|]. cbn [snd]. now rewrite Hl.
    + apply in_map_iff in Hin as [[k' x] [Hk Hin]]. simpl in Hk. subst k'.
      apply filter_In in Hin as [Hin Hx]. cbn [snd] in Hx.
      destruct x as [v|m|]; try discriminate.
      apply negb_true_iff in Hx.
      destruct (Hall k v (In_get _ _ _ HT Hin)) as [H | H]; [congruence | exact H].
Qed.

(** A value that already looks encrypted is never encrypted again: in a
    successful rewrite every line that begins with [KEY=], for a key whose
    extracted value looks encrypted, stays where and as it was. *)
Theorem encrypted_value_is_left_alone (lk : option (list jsstring)) (w w' : World)
    (count : nat) (content k v : jsstring) :
  encryptEnvVariables P mgr lk w = (Ok count, w') ->
  files w (environmentFilePath mgr) = Some content ->
  get (extractEnvironmentVariables (split content NEWLINE)) k = Some v ->
  looksEncrypted P v = true ->
  exists lines',
    files w' (environmentFilePath mgr) = Some (join lines' NEWLINE)
    /\ forall i l, nth_error (split content NEWLINE) i = Some l ->
                   startsWith l (k ++ [EQUALS]) = true ->
                   nth_error lines' i = Some l.
Proof.
  intros Hrun Hfile Hk Henc.
  apply encryptEnvVariables_shape in Hrun
    as [content' [us [Hf [_ [Hnd [Hvalid [Hus [_ [_ Hw]]]]]]]]].
  rewrite Hfile in Hf. inversion Hf; subst content'. clear Hf.
  set (lines := split content NEWLINE) in *.
  exists (map (rewriteLine P us) lines
          ++ map (lineOf P) (filter (fun u => negb (hasLineFor lines (fst u))) us)).
  split; [rewrite Hw; now rewrite eqb_refl|].
  intros i l Hi Hs.
  rewrite nth_error_app1 by (rewrite length_map; apply nth_error_Some; congruence).
  rewrite nth_error_map, Hi. cbn [option_map]. f_equal.
  assert (Forall (fun u => includes (fst u) EQUALS = false) us) as Hsep.
  { apply Forall_forall. intros u Hu. apply validKey_no_sep. now apply Hvalid. }
  destruct (rewriteLine_cases P us l Hsep Hnd) as [[H _] | [[k' p] [Hu [Hs' _]]]];
    [exact H|].
  exfalso. cbn [fst] in Hs'.
  assert (k' = k) as ->.
  { apply prefix_key_unique with l; try assumption.
    - apply validKey_no_sep. apply (Hvalid (k', p) Hu).
    - apply extract_valid in Hk as [Hvk _]. now apply validKey_no_sep. }
  destruct (Hus k p Hu) as [v' [Hg Hplain]].
  apply targetSet_sound in Hg; [|apply extract_unique]. congruence.
Qed.

(** A lookup that is no key of the file but the name of a method that every
    object inherits ([toString], [constructor], ...) makes the whole rewrite
    fail: the lookup finds the function, and the loop over the target set
    cannot trim it.  Nothing is written. *)
Theorem inherited_method_lookup_fails (lookups : list jsstring) (w : World)
    (content l : jsstring) :
  files w (environmentFilePath mgr) = Some content ->
  In l lookups ->
  get (extractEnvironmentVariables (split content NEWLINE)) l = None ->
  isPrototypeMethod l = true ->
  exists e w', encryptEnvVariables P mgr (Some lookups) w = (Throw e, w')
               /\ files w' = files w.
Proof.
  intros Hfile Hin Hnone Hm.
  pose proof (encryptEnvVariables_Throw_files (Some lookups) w) as Hf.
  destruct (encryptEnvVariables P mgr (Some lookups) w) as [[n|e] w'] eqn:E.
  - exfalso.
    pose proof (encryptEnvVariables_texts P mgr (Some lookups) w w' n content E Hfile)
      as Htexts.
    set (all := extractEnvironmentVariables (split content NEWLINE)) in *.
    assert (exists x, get (targetSet all (Some lookups)) l = Some x) as [x Hx].
    { destruct lookups as [|l0 ls]; [contradiction|]. cbn [targetSet].
      apply (fold_assign_complete all (l0 :: ls) [] l l (Method l) Hin).
      rewrite (inherited_method_lookup all l Hnone Hm). cbn [get]. now rewrite eqb_refl. }
    destruct (Htexts l x Hx) as [v ->].
    apply targetSet_sound in Hx; [|apply extract_unique]. fold all in Hx. congruence.
  - exists e, w'. split; [reflexivity | exact Hf].
Qed.

(** A value that already looks encrypted is returned as it is, and no random
    byte is requested for it: the world is left exactly as it was. *)
Theorem encrypted_value_costs_no_randomness (value secretKey : jsstring) (w : World) :
  looksEncrypted P value = true ->
  encryptIfNeeded P value secretKey w = (Ok (Unchanged value), w).
Proof.
  intro H. unfold looksEncrypted in H.
  apply andb_true_iff in H as [H Hp]. apply andb_true_iff in H as [Ht Hb].
  unfold encryptIfNeeded, isAlreadyEncrypted. rewrite Ht, Hb. cbn [negb].
  unfold bind, tryCatch, lift, ret.
  destruct (JSON_parse P value) as [parsed|e]; [|discriminate].
  now rewrite Hp.
Qed.

(** [FileManager.writeFile] refuses an empty path, a file path that ends in
    a directory separator and an empty content: it throws, and no file is
    created or changed. *)
Theorem writeFile_refuses (path content keyName : jsstring) (w : World) :
  acceptablePath path = false \/ content = [] ->
  exists e w', FileManager_writeFile path content keyName w = (Throw e, w')
               /\ files w' = files w.
Proof.
  intro H.
  destruct (FileManager_writeFile path content keyName w) as [[[]|e] w'] eqn:E.
  - apply writeFile_Ok in E as [Hp [Hc _]]. destruct H as [H | ->]; [congruence|].
    discriminate.
  - exists e, w'. split; [reflexivity|]. now apply writeFile_Throw in E.
Qed.

End Rewrite.

(** ** Random generation, encryption and decryption *)

Section Cipher.

Variable P : Platform.

Lemma randomBytes_run (n : Z) (w : World) :
  (0 <= n <= 2147483647)%Z ->
  crypto_randomBytes n w
  = (Ok (takeEntropy (Z.to_nat n) w), consumeEntropy (Z.to_nat n) w).
Proof.
  intros [H1 H2]. unfold crypto_randomBytes.
  rewrite (proj2 (Z.ltb_ge n 0) H1), (proj2 (Z.ltb_ge 2147483647 n) H2). reflexivity.
Qed.

(** Called with a length from 1 to 2^27, each generator that draws from
    [crypto.randomBytes] succeeds: it returns the next bytes of the random
    source, exactly as many as asked for, as a buffer or as their base64
    text, and moves the source past them.  The bound keeps the base64 text,
    four characters for every three bytes, within the length of a JavaScript
    string. *)
Theorem generators_return_fresh_bytes (n : Z) (w : World) :
  (0 < n <= 134217728)%Z ->
  generateBufferIV n w
  = (Ok (takeEntropy (Z.to_nat n) w), consumeEntropy (Z.to_nat n) w)
  /\ generateBase64IV P n w
     = (Ok (base64_encode P (takeEntropy (Z.to_nat n) w)), consumeEntropy (Z.to_nat n) w)
  /\ generateBase64Salt P n w
     = (Ok (base64_encode P (takeEntropy (Z.to_nat n) w)), consumeEntropy (Z.to_nat n) w)
  /\ generateBase64SecretKey P n w
     = (Ok (base64_encode P (takeEntropy (Z.to_nat n) w)), consumeEntropy (Z.to_nat n) w).
Proof.
  intros [H1 H2].
  assert (crypto_randomBytes n w
          = (Ok (takeEntropy (Z.to_nat n) w), consumeEntropy (Z.to_nat n) w)) as Hr
    by (apply randomBytes_run; lia).
  assert ((n <=? 0)%Z = false) as Hn by (apply Z.leb_gt; lia).
  unfold generateBufferIV, generateBase64IV, generateBase64Salt, generateBase64SecretKey.
  rewrite Hn. repeat split; apply rethrowing_Ok;
    try exact Hr; now rewrite (bind_run _ _ _ _ _ Hr).
Qed.

(** Where the Web Crypto API is available the IV generator draws from
    [crypto.getRandomValues], which serves at most 65536 bytes: a longer IV is
    refused, and no random byte is consumed. *)
Theorem webcrypto_iv_is_bounded (n : Z) (w : World) :
  hasWebCrypto P = true -> (65536 < n)%Z ->
  exists e w', generateWebCryptoIV P n w = (Throw e, w')
               /\ entropyUsed w' = entropyUsed w /\ files w' = files w.
Proof.
  intros Hweb Hn.
  assert (crypto_getRandomValues n w
          = (Throw (mkError "QuotaExceededError"
                            (js "The requested length exceeds 65,536 bytes")),
             consumeEntropy 0 w)) as Hr.
  { unfold crypto_getRandomValues.
    rewrite (proj2 (Z.ltb_ge n 0)) by lia. now rewrite (proj2 (Z.ltb_lt 65536 n) Hn). }
  unfold generateWebCryptoIV, isWebCryptoIv. rewrite Hweb.
  rewrite (proj2 (Z.leb_gt n 0)) by lia.
  destruct (rethrowing_Throw "generateWebCryptoIV" "Failed to generate IV"
              (iv <- crypto_getRandomValues n ;; ret iv) w (consumeEntropy 0 w) _
              (bind_Throw _ _ _ _ _ Hr)) as [w' [Hrun Hf]].
  eexists. exists w'. split; [exact Hrun|]. split; [|exact Hf].
  unfold rethrowing, tryCatch in Hrun. rewrite (bind_Throw _ _ _ _ _ Hr) in Hrun.
  unfold bind, captureError, logger_error, logMessage, throw in Hrun.
  inversion Hrun. cbn. lia.
Qed.

Lemma generateBase64Salt_run (n : Z) (w w' : World) (x : jsstring) :
  generateBase64Salt P n w = (Ok x, w') ->
  (0 < n)%Z /\ x = base64_encode P (takeEntropy (Z.to_nat n) w)
  /\ w' = consumeEntropy (Z.to_nat n) w.
Proof.
  unfold generateBase64Salt. destruct (Z.leb_spec n 0) as [Hn|Hn]; [discriminate|].
  intro H. apply rethrowing_Ok in H. apply bind_Ok in H as [bytes [w1 [Hr H]]].
  unfold ret in H. inversion H; subst.
  unfold crypto_randomBytes in Hr. destruct (_ || _); [discriminate|].
  inversion Hr. auto.
Qed.

Lemma generateWebCryptoIV_run (n : Z) (w w' : World) (x : list byte) :
  generateWebCryptoIV P n w = (Ok x, w') ->
  (0 < n)%Z /\ x = takeEntropy (Z.to_nat n) w /\ w' = consumeEntropy (Z.to_nat n) w.
Proof.
  unfold generateWebCryptoIV. destruct (Z.leb_spec n 0) as [Hn|Hn]; [discriminate|].
  intro H. apply rethrowing_Ok in H. apply bind_Ok in H as [bytes [w1 [Hr H]]].
  unfold ret in H. inversion H; subst.
  destruct isWebCryptoIv.
  - unfold crypto_getRandomValues in Hr. destruct (n <? 0)%Z; [discriminate|].
    destruct (65536 <? n)%Z; [discriminate|]. inversion Hr. auto.
  - unfold crypto_randomBytes in Hr. destruct (_ || _); [discriminate|].
    inversion Hr. auto.
Qed.

Lemma deriveKeyWithArgon2_world (secretKey : jsstring) (s : JsonValue) (w w' : World)
    (key : list byte) :
  deriveKeyWithArgon2 P secretKey s w = (Ok key, w') -> w' = w.
Proof.
  unfold deriveKeyWithArgon2. intro H. apply rethrowing_Ok in H.
  apply bind_Ok in H as [sb [w1 [Ha H]]]. unfold lift in Ha.
  apply bind_Ok in H as [kb [w2 [Hb H]]].
  unfold argon2Hashing in Hb. apply rethrowing_Ok in Hb. unfold lift in Hb.
  unfold importKeyForCrypto in H. apply rethrowing_Ok in H. unfold lift in H.
  congruence.
Qed.

(** A successful [encrypt] has drawn a fresh salt and a fresh IV, in this
    order, from the random source, and has done nothing else to the world:
    no file is touched and nothing is logged. *)
Theorem encrypt_draws_fresh_salt_and_iv (value secretKey : jsstring) (w w' : World)
    (p : EncryptionParameters) :
  encrypt P value secretKey w = (Ok p, w') ->
  (0 < SALT_LENGTH P)%Z /\ (0 < WEB_CRYPTO_IV_LENGTH P)%Z
  /\ salt p = base64_encode P (takeEntropy (Z.to_nat (SALT_LENGTH P)) w)
  /\ iv p = base64_encode P
              (takeEntropy (Z.to_nat (WEB_CRYPTO_IV_LENGTH P))
                           (consumeEntropy (Z.to_nat (SALT_LENGTH P)) w))
  /\ w' = consumeEntropy (Z.to_nat (WEB_CRYPTO_IV_LENGTH P))
                         (consumeEntropy (Z.to_nat (SALT_LENGTH P)) w).
Proof.
  unfold encrypt. intro H. apply rethrowing_Ok in H.
  apply bind_Ok in H as [s [w1 [Hsalt H]]].
  apply bind_Ok in H as [ivb [w2 [Hiv H]]].
  apply bind_Ok in H as [key [w3 [Hkey H]]].
  apply bind_Ok in H as [ct [w4 [Hct H]]].
  unfold ret in H. inversion H; subst p w4. clear H.
  apply generateBase64Salt_run in Hsalt as [Hs [-> ->]].
  apply generateWebCryptoIV_run in Hiv as [Hi [-> ->]].
  apply deriveKeyWithArgon2_world in Hkey. subst w3.
  unfold encryptBuffer in Hct. apply rethrowing_Ok in Hct.
  unfold lift in Hct. inversion Hct; subst.
  cbn [salt iv]. repeat split; assumption.
Qed.

(** With a salt length that is not positive every encryption fails, before
    any random byte is requested. *)
Theorem encrypt_needs_positive_salt_length (value secretKey : jsstring) (w : World) :
  (SALT_LENGTH P <= 0)%Z ->
  exists w', encrypt P value secretKey w
             = (Throw (mkError "Error" (js "Salt length must be greater than zero.")), w')
             /\ randomCalls w' = randomCalls w /\ files w' = files w.
Proof.
  intro H. apply Z.leb_le in H. unfold encrypt, generateBase64Salt. rewrite H.
  eexists. split; [reflexivity|]. split; reflexivity.
Qed.

(** *** decrypt *)

Lemma returns_logAndThrow {A} (message source : jsstring) :
  returns (@logAndThrow A message source) (Throw (mkError "Error" message)).
Proof. intro w. eexists. reflexivity. Qed.

(** [decrypt] refuses the empty string, whatever the secret. *)
Lemma decrypt_rejects_empty_input (secretKey : jsstring) (w : World) :
  exists w', decrypt P [] secretKey w
             = (Throw (mkError "Error" (js "Encrypted data is required.")), w')
             /\ files w' = files w /\ entropyUsed w' = entropyUsed w.
Proof. eexists. split; [reflexivity|]. split; reflexivity. Qed.

(** [decrypt] refuses a text that parses to a value without a truthy [salt],
    [iv] or [cipherText]: a number, a string, an array, an object that lacks
    one of the three or holds an empty string or null there. *)
Theorem decrypt_rejects_incomplete_parameters (data secretKey : jsstring)
    (v : JsonValue) :
  data <> [] -> JSON_parse P data = Ok v -> v <> JNull ->
  truthyValue (getProperty v (js "salt"))
  && truthyValue (getProperty v (js "iv"))
  && truthyValue (getProperty v (js "cipherText")) = false ->
  returns (decrypt P data secretKey)
          (Throw (mkError "Error"
                    (js "Missing required properties in encryption parameters."))).
Proof.
  intros Hne Hparse Hnull Hmiss.
  unfold decrypt. apply returns_rethrowing. apply returns_bind_Throw.
  unfold parseEncryptedData. apply returns_rethrowing.
  destruct data as [|c data]; [contradiction|]. cbn [truthy negb].
  apply returns_bind with tt; [apply returns_ret|].
  rewrite Hparse. apply returns_bind with v; [apply returns_lift|].
  apply returns_bind_Throw. unfold validateParsedData. apply returns_rethrowing.
  assert (negb (truthyValue (getProperty v (js "salt")))
          || negb (truthyValue (getProperty v (js "iv")))
          || negb (truthyValue (getProperty v (js "cipherText"))) = true) as Hm.
  { destruct (truthyValue (getProperty v (js "salt"))),
             (truthyValue (getProperty v (js "iv"))),
             (truthyValue (getProperty v (js "cipherText"))); try discriminate;
      reflexivity. }
  destruct v; try contradiction; rewrite Hm; apply returns_logAndThrow.
Qed.

(** The serialized result of an encryption is recognised as encrypted, and
    recognising it logs nothing. *)
Theorem serialized_parameters_are_recognised (p : EncryptionParameters) (w : World) :
  PlatformOk P ->
  isAlreadyEncrypted P (JSON_stringify P (paramsObject p)) w = (Ok true, w).
Proof.
  intro POk. pose proof (stringify_params_looksEncrypted P POk p) as H.
  unfold looksEncrypted in H.
  apply andb_true_iff in H as [H Hp]. apply andb_true_iff in H as [Ht Hb].
  unfold isAlreadyEncrypted. rewrite Ht, Hb. cbn [negb].
  unfold bind, tryCatch, lift, ret.
  destruct (JSON_parse P (JSON_stringify P (paramsObject p))) as [parsed|e];
    [|discriminate].
  now rewrite Hp.
Qed.

End Cipher.

(** ** The secret store *)

Section KeyStore.

Variable P : Platform.
Variable RegExp_match_m : jsstring -> jsstring -> Outcome (option jsstring).
Variable mgr : EnvironmentFileManager.

#[local] Arguments N.eqb : simpl never.

(** *** The two regular expressions *)

Lemma matchHere_self (p rest : jsstring) : matchHere p (p ++ rest) = true.
Proof.
  induction p as [|c p IH]; [reflexivity|]. cbn [app matchHere]. rewrite IH.
  destruct (N.eqb_spec c DOT) as [->|]; [reflexivity|]. now rewrite N.eqb_refl.
Qed.

Lemma matchHere_length (p t : jsstring) :
  matchHere p t = true -> (length p <= length t)%nat.
Proof.
  revert t. induction p as [|c p IH]; intros [|x t] H; simpl in *; try lia;
    try discriminate.
  apply andb_true_iff in H as [_ H]. specialize (IH t H). lia.
Qed.

Lemma matchAtLineStart_here (p t : jsstring) :
  matchHere p t = true -> matchAtLineStart p t true = true.
Proof. destruct t; simpl; intros ->; reflexivity. Qed.

(** A line that begins with the pattern, after a line feed, is found. *)
Lemma matchAtLineStart_next_line (p a b : jsstring) (s : bool) :
  matchHere p b = true -> matchAtLineStart p (a ++ NEWLINE :: b) s = true.
Proof.
  intro H. revert s. induction a as [|x a IH]; intro s.
  - cbn [app matchAtLineStart].
    change (isLineTerminator NEWLINE) with true.
    rewrite (matchAtLineStart_here p b H). apply orb_true_r.
  - cbn [app matchAtLineStart]. rewrite IH. apply orb_true_r.
Qed.

(** The test of [storeBaseEnvKey] succeeds exactly when the match of
    [getKeyValue] finds something. *)
Lemma test_agrees_with_match (p t : jsstring) (s : bool) :
  matchAtLineStart p t s
  = match captureAtLineStart p t s with Some _ => true | None => false end.
Proof.
  revert s. induction t as [|c t IH]; intro s; cbn [matchAtLineStart captureAtLineStart].
  - now destruct (s && matchHere p []).
  - destruct (s && matchHere p (c :: t)); [reflexivity|]. apply IH.
Qed.

Lemma lineBound_matchHere (p t b : jsstring) :
  forallb (fun c => negb (isLineTerminator c)) p = true ->
  matchHere p (t ++ NEWLINE :: b) = matchHere p t.
Proof.
  revert t. induction p as [|c p IH]; intros t Hp; [now destruct t|].
  cbn [forallb] in Hp. apply andb_true_iff in Hp as [Hc Hp].
  destruct t as [|x t]; cbn [app matchHere].
  - destruct (N.eqb_spec c DOT) as [->|Hd]; [reflexivity|].
    destruct (N.eqb_spec NEWLINE c) as [<-|]; [discriminate | reflexivity].
  - now rewrite IH.
Qed.

Lemma restOfLine_next_line (x b : jsstring) :
  restOfLine (x ++ NEWLINE :: b) = restOfLine x.
Proof.
  induction x as [|c x IH]; [reflexivity|]. cbn [app restOfLine].
  destruct (isLineTerminator c); [reflexivity | now rewrite IH].
Qed.

Lemma restOfLine_singleLine (v : jsstring) : singleLine v = true -> restOfLine v = v.
Proof.
  induction v as [|c v IH]; [reflexivity|]. cbn [singleLine forallb restOfLine].
  intro H. apply andb_true_iff in H as [Hc H]. apply negb_true_iff in Hc.
  rewrite Hc. f_equal. now apply IH.
Qed.

Lemma skipn_app_short {A} (n : nat) (t r : list A) :
  (n <= length t)%nat -> skipn n (t ++ r) = skipn n t ++ r.
Proof.
  revert t. induction n as [|n IH]; intros t H; [reflexivity|].
  destruct t as [|x t]; simpl in *; [lia|]. apply IH. lia.
Qed.

(** The first match in a text that continues on a new line is the first match
    before the line feed, if there is one, and else the first match after
    it. *)
Lemma capture_next_line (p a b : jsstring) (s : bool) :
  p <> [] -> forallb (fun c => negb (isLineTerminator c)) p = true ->
  captureAtLineStart p (a ++ NEWLINE :: b) s
  = match captureAtLineStart p a s with
    | Some x => Some x
    | None => captureAtLineStart p b true
    end.
Proof.
  intros Hne Hp. revert s. induction a as [|x a IH]; intro s.
  - cbn [app captureAtLineStart].
    pose proof (lineBound_matchHere p [] b Hp) as Hm. cbn [app] in Hm. rewrite Hm.
    assert (matchHere p [] = false) as -> by (destruct p; [contradiction | reflexivity]).
    rewrite andb_false_r. reflexivity.
  - cbn [captureAtLineStart]. change ((x :: a) ++ NEWLINE :: b)
      with (x :: a ++ NEWLINE :: b). cbn [captureAtLineStart].
    change (x :: a ++ NEWLINE :: b) with ((x :: a) ++ NEWLINE :: b).
    rewrite (lineBound_matchHere p (x :: a) b Hp).
    destruct (s && matchHere p (x :: a)) eqn:E.
    + apply andb_true_iff in E as [_ E]. apply matchHere_length in E.
      rewrite skipn_app_short by assumption. now rewrite restOfLine_next_line.
    + apply IH.
Qed.

Lemma capture_self (p v : jsstring) :
  singleLine v = true ->
  captureAtLineStart p (p ++ v) true = Some v.
Proof.
  intro Hv. destruct (p ++ v) as [|c t] eqn:E.
  - apply app_eq_nil in E as [-> ->]. reflexivity.
  - cbn [captureAtLineStart andb]. rewrite <- E, matchHere_self.
    rewrite skipn_app_short by lia. rewrite skipn_all. cbn [app].
    now rewrite restOfLine_singleLine.
Qed.

Lemma singleLineKey_pattern (k : jsstring) :
  singleLineKey k = true ->
  inFragment k = true /\ k ++ [EQUALS] <> []
  /\ forallb (fun c => negb (isLineTerminator c)) (k ++ [EQUALS]) = true.
Proof.
  unfold singleLineKey. intro H. apply andb_true_iff in H as [H1 H2].
  split; [exact H1|]. split; [now destruct k|].
  rewrite forallb_app, H2. reflexivity.
Qed.

(** For a key name of the fragment the test of [storeBaseEnvKey] and the match
    of [getKeyValue] agree: the key is reported as existing exactly when
    [getKeyValue] finds a value for it. *)
Theorem key_exists_iff_value_found (keyName text : jsstring) :
  inFragment keyName = true ->
  exists found,
    keyValueRegex RegExp_match_m keyName text = Ok found
    /\ keyExistsRegex P keyName text
       = Ok (match found with Some _ => true | None => false end).
Proof.
  intro H. unfold keyValueRegex, keyExistsRegex. rewrite H.
  eexists. split; [reflexivity|]. now rewrite test_agrees_with_match.
Qed.

(** *** storeBaseEnvKey *)

Lemma readBaseEnvFile_run (w : World) (c : jsstring) :
  files w (baseEnvironmentFilePath mgr) = Some c -> readBaseEnvFile mgr w = (Ok c, w).
Proof.
  intro H. unfold readBaseEnvFile. apply rethrowing_Ok.
  unfold fs_readFileSync. now rewrite H.
Qed.

Lemma readBaseEnvFile_Ok (w w' : World) (c : jsstring) :
  readBaseEnvFile mgr w = (Ok c, w') ->
  files w (baseEnvironmentFilePath mgr) = Some c /\ w' = w.
Proof.
  unfold readBaseEnvFile. intro H. apply rethrowing_Ok in H.
  unfold fs_readFileSync in H.
  destruct (files w (baseEnvironmentFilePath mgr)); inversion H; auto.
Qed.

(** What a successful call has done. *)
Lemma storeBaseEnvKey_Ok (keyName keyValue : jsstring) (w w' : World) :
  storeBaseEnvKey P mgr keyName keyValue w = (Ok tt, w') ->
  exists old b,
    files w (baseEnvironmentFilePath mgr) = Some old
    /\ keyExistsRegex P keyName old = Ok b
    /\ entropyUsed w' = entropyUsed w /\ randomCalls w' = randomCalls w
    /\ files w' = (if b then files w
                   else fun p =>
                          if eqb p (baseEnvironmentFilePath mgr)
                          then Some (old ++ [NEWLINE] ++ keyName ++ [EQUALS] ++ keyValue)
                          else files w p).
Proof.
  unfold storeBaseEnvKey. intro H. apply rethrowing_Ok in H.
  apply bind_Ok in H as [old [w1 [Hread H]]].
  apply readBaseEnvFile_Ok in Hread as [Hfile ->].
  apply bind_Ok in H as [b [w2 [Hb H]]]. unfold lift in Hb. inversion Hb; subst w2.
  exists old, b. split; [exact Hfile|]. split; [assumption|].
  destruct b.
  - unfold logger_info, logMessage in H. inversion H. repeat split.
  - apply bind_Ok in H as [[] [w3 [Hw H]]].
    unfold writeKeyToBaseEnvFile in Hw. apply rethrowing_Ok in Hw.
    apply bind_Ok in Hw as [[] [w4 [Hw Hlog]]].
    apply writeFile_Ok in Hw as [_ [_ ->]].
    unfold logger_info, logMessage in Hlog, H. inversion Hlog; subst w3.
    inversion H. repeat split.
Qed.

Lemma storeBaseEnvKey_present (keyName keyValue c : jsstring) (w : World) :
  files w (baseEnvironmentFilePath mgr) = Some c ->
  keyExistsRegex P keyName c = Ok true ->
  exists w', storeBaseEnvKey P mgr keyName keyValue w = (Ok tt, w')
             /\ files w' = files w.
Proof.
  intros Hfile Hk. eexists. split.
  - unfold storeBaseEnvKey. apply rethrowing_Ok.
    rewrite (bind_run _ _ _ _ _ (readBaseEnvFile_run w c Hfile)).
    unfold bind at 1. unfold lift. rewrite Hk. reflexivity.
  - reflexivity.
Qed.

(** Storing a key a second time changes nothing: after a successful call,
    with a key name of the fragment, a further call for the same key,
    whatever its value, succeeds and leaves every file as it is.  A stored
    secret is never replaced. *)
Theorem storeBaseEnvKey_twice (keyName v1 v2 : jsstring) (w w1 : World) :
  inFragment keyName = true ->
  storeBaseEnvKey P mgr keyName v1 w = (Ok tt, w1) ->
  exists w2, storeBaseEnvKey P mgr keyName v2 w1 = (Ok tt, w2)
             /\ files w2 = files w1.
Proof.
  intros Hfrag H. apply storeBaseEnvKey_Ok in H as [old [b [Hfile [Hb [_ [_ Hw]]]]]].
  unfold keyExistsRegex in Hb. rewrite Hfrag in Hb. inversion Hb as [Hb'].
  destruct b.
  - apply storeBaseEnvKey_present with old; [now rewrite Hw|].
    unfold keyExistsRegex. now rewrite Hfrag, Hb'.
  - apply storeBaseEnvKey_present
      with (old ++ [NEWLINE] ++ keyName ++ [EQUALS] ++ v1).
    + rewrite Hw. now rewrite eqb_refl.
    + unfold keyExistsRegex. rewrite Hfrag. f_equal.
      change (old ++ [NEWLINE] ++ keyName ++ [EQUALS] ++ v1)
        with (old ++ NEWLINE :: keyName ++ [EQUALS] ++ v1).
      apply matchAtLineStart_next_line. rewrite app_assoc. apply matchHere_self.
Qed.

(** *** Key names of ordinary characters *)

Lemma ordinaryKey_literal (k : jsstring) (c : N) :
  ordinaryKey k = true -> In c (k ++ [EQUALS]) ->
  (c =? DOT)%N = false /\ isLineTerminator c = false.
Proof.
  unfold ordinaryKey. intros H Hin. apply in_app_or in Hin as [Hin | [<- | []]].
  - rewrite forallb_forall in H. specialize (H c Hin).
    apply andb_true_iff in H as [H1 H2]. apply negb_true_iff in H1, H2.
    split; [|exact H2]. destruct (N.eqb_spec c DOT) as [->|]; [|reflexivity].
    discriminate.
  - split; reflexivity.
Qed.

Lemma ordinaryKey_inFragment (k : jsstring) : ordinaryKey k = true -> inFragment k = true.
Proof.
  unfold ordinaryKey, inFragment. intro H. apply forallb_forall. intros c Hc.
  rewrite forallb_forall in H. specialize (H c Hc).
  apply andb_true_iff in H as [H _]. now rewrite H.
Qed.

Lemma literal_matchHere (p t : jsstring) :
  (forall c, In c p -> (c =? DOT)%N = false) ->
  matchHere p t = startsWith t p.
Proof.
  revert t. induction p as [|c p IH]; intros t H; [now destruct t|].
  destruct t as [|x t]; [reflexivity|]. cbn [matchHere startsWith].
  rewrite (H c (or_introl eq_refl)). rewrite IH by (intros; apply H; now right).
  reflexivity.
Qed.

Lemma startsWith_first_line (p text : jsstring) :
  includes p NEWLINE = false ->
  startsWith (hd [] (split text NEWLINE)) p = startsWith text p.
Proof.
  revert p. induction text as [|c text IH]; intros p Hp; [reflexivity|].
  cbn [split]. destruct (N.eqb_spec c NEWLINE) as [->|Hc].
  - cbn [hd]. destruct p as [|x p]; [reflexivity|]. cbn [startsWith].
    cbn [includes existsb] in Hp. apply orb_false_iff in Hp as [Hx _].
    unfold includes in *. destruct (N.eqb_spec x NEWLINE) as [->|Hx'];
      [discriminate|].
    destruct (N.eqb_spec NEWLINE x) as [<-|]; [contradiction | reflexivity].
  - destruct p as [|x p].
    + now destruct (split text NEWLINE).
    + specialize (IH p). assert (includes p NEWLINE = false) as Hp'.
      { unfold includes in *. cbn [existsb] in Hp. now apply orb_false_iff in Hp. }
      specialize (IH Hp').
      destruct (split text NEWLINE) as [|l ls] eqn:E;
        [now destruct (split_nonempty text NEWLINE)|].
      cbn [hd startsWith] in IH |- *. now rewrite IH.
Qed.

(** For a key of ordinary characters and a text with line feeds only, the
    regular expression finds what a reader expects: a line that begins with
    the key and the equals sign. *)
Lemma ordinary_test_is_line_search (k text : jsstring) (s : bool) :
  ordinaryKey k = true -> unixText text = true ->
  matchAtLineStart (k ++ [EQUALS]) text s
  = (s && startsWith text (k ++ [EQUALS]))
    || existsb (fun l => startsWith l (k ++ [EQUALS])) (tl (split text NEWLINE)).
Proof.
  intros Hk. set (p := k ++ [EQUALS]).
  assert (forall t, matchHere p t = startsWith t p) as Hm.
  { intro t. apply literal_matchHere. intros c Hc.
    now apply (ordinaryKey_literal k c Hk). }
  assert (includes p NEWLINE = false) as Hnl.
  { apply includes_false_iff. intro Hin.
    destruct (ordinaryKey_literal k NEWLINE Hk Hin) as [_ H]. discriminate. }
  assert (p <> []) as Hne by (unfold p; now destruct k).
  revert s. induction text as [|c text IH]; intros s Ht.
  - cbn [matchAtLineStart split tl existsb]. rewrite Hm.
    destruct p; [contradiction|]. cbn [startsWith]. now rewrite !andb_false_r.
  - cbn [unixText forallb] in Ht. apply andb_true_iff in Ht as [Hc Ht].
    cbn [matchAtLineStart]. rewrite Hm, (IH _ Ht). f_equal.
    cbn [split]. destruct (N.eqb_spec c NEWLINE) as [->|Hc'].
    + change (isLineTerminator NEWLINE) with true. cbn [andb tl].
      destruct (split text NEWLINE) as [|l ls] eqn:E;
        [now destruct (split_nonempty text NEWLINE)|].
      cbn [existsb tl]. f_equal.
      pose proof (startsWith_first_line p text Hnl) as H. rewrite E in H.
      cbn [hd] in H. now rewrite H.
    + assert (isLineTerminator c = false) as ->.
      { apply orb_true_iff in Hc as [Hc | Hc]; [now apply negb_true_iff in Hc|].
        first [discriminate | apply N.eqb_eq in Hc; contradiction]. }
      cbn [andb orb].
      destruct (split text NEWLINE) as [|l ls] eqn:E;
        [now destruct (split_nonempty text NEWLINE)|].
      reflexivity.
Qed.

Lemma ordinary_test_is_hasLineBeginning (k text : jsstring) :
  ordinaryKey k = true -> unixText text = true ->
  matchAtLineStart (k ++ [EQUALS]) text true = hasLineBeginning text (k ++ [EQUALS]).
Proof.
  intros Hk Ht. rewrite (ordinary_test_is_line_search k text true Hk Ht).
  unfold hasLineBeginning. cbn [andb].
  assert (includes (k ++ [EQUALS]) NEWLINE = false) as Hnl.
  { apply includes_false_iff. intro Hin.
    destruct (ordinaryKey_literal k NEWLINE Hk Hin) as [_ H]. discriminate. }
  rewrite <- (startsWith_first_line _ text Hnl).
  destruct (split text NEWLINE) as [|l ls] eqn:E;
    [now destruct (split_nonempty text NEWLINE)|].
  reflexivity.
Qed.

(** For a key name of ordinary characters (no character that a regular
    expression reads as syntax, no line terminator) and a store whose lines
    end in line feeds, [storeBaseEnvKey] does what its description says: if a
    line of the store begins with [keyName=] the store is left as it is, and
    otherwise the text of a line feed, the key name, the equals sign and the
    value is appended to it. *)
Theorem storeBaseEnvKey_ordinary_key (keyName keyValue old : jsstring) (w w' : World) :
  ordinaryKey keyName = true -> unixText old = true ->
  files w (baseEnvironmentFilePath mgr) = Some old ->
  storeBaseEnvKey P mgr keyName keyValue w = (Ok tt, w') ->
  (hasLineBeginning old (keyName ++ [EQUALS]) = true /\ files w' = files w)
  \/ (hasLineBeginning old (keyName ++ [EQUALS]) = false
      /\ files w' = fun p =>
           if eqb p (baseEnvironmentFilePath mgr)
           then Some (old ++ [NEWLINE] ++ keyName ++ [EQUALS] ++ keyValue)
           else files w p).
Proof.
  intros Hk Ht Hfile H.
  apply storeBaseEnvKey_Ok in H as [old' [b [Hfile' [Hb [_ [_ Hw]]]]]].
  rewrite Hfile in Hfile'. inversion Hfile'; subst old'.
  unfold keyExistsRegex in Hb. rewrite (ordinaryKey_inFragment _ Hk) in Hb.
  rewrite (ordinary_test_is_hasLineBeginning _ _ Hk Ht) in Hb. inversion Hb as [Hb'].
  destruct b; [left | right]; split; auto.
Qed.

(** *** getKeyValue *)

Lemma getKeyValue_run (keyName c : jsstring) (w : World) (found : option jsstring) :
  files w (baseEnvironmentFilePath mgr) = Some c ->
  keyValueRegex RegExp_match_m keyName c = Ok found ->
  getKeyValue RegExp_match_m mgr keyName w = (Ok found, w).
Proof.
  intros Hfile Hk. unfold getKeyValue. apply rethrowing_Ok.
  rewrite (bind_run _ _ _ _ _ (readBaseEnvFile_run w c Hfile)).
  unfold lift. now rewrite Hk.
Qed.

(** Reading back what was stored.  After a successful [storeBaseEnvKey], for
    a key name of the fragment without line terminator and a value without
    line terminator, [getKeyValue] finds a value for the key: the value just
    stored if the key had none before, and else the value it had. *)
Theorem getKeyValue_after_store (keyName keyValue : jsstring) (w w' : World) :
  singleLineKey keyName = true -> singleLine keyValue = true ->
  storeBaseEnvKey P mgr keyName keyValue w = (Ok tt, w') ->
  exists before,
    getKeyValue RegExp_match_m mgr keyName w = (Ok before, w)
    /\ getKeyValue RegExp_match_m mgr keyName w'
       = (Ok (Some (match before with Some v => v | None => keyValue end)), w').
Proof.
  intros Hk Hv H. destruct (singleLineKey_pattern keyName Hk) as [Hfrag [Hne Hp]].
  apply storeBaseEnvKey_Ok in H as [old [b [Hfile [Hb [_ [_ Hw]]]]]].
  unfold keyExistsRegex in Hb. rewrite Hfrag in Hb. inversion Hb as [Hb']. clear Hb.
  rewrite test_agrees_with_match in Hb'.
  exists (captureAtLineStart (keyName ++ [EQUALS]) old true). split.
  - apply getKeyValue_run with old; [exact Hfile|].
    unfold keyValueRegex. now rewrite Hfrag.
  - destruct (captureAtLineStart (keyName ++ [EQUALS]) old true) as [v0|] eqn:E.
    + subst b. apply getKeyValue_run with old; [now rewrite Hw|].
      unfold keyValueRegex. now rewrite Hfrag, E.
    + subst b.
      apply getKeyValue_run with (old ++ [NEWLINE] ++ keyName ++ [EQUALS] ++ keyValue).
      * rewrite Hw. now rewrite eqb_refl.
      * unfold keyValueRegex. rewrite Hfrag. f_equal.
        change (old ++ [NEWLINE] ++ keyName ++ [EQUALS] ++ keyValue)
          with (old ++ NEWLINE :: keyName ++ [EQUALS] ++ keyValue).
        rewrite (capture_next_line _ old _ true Hne Hp), E.
        rewrite app_assoc. now apply capture_self.
Qed.

Lemma capture_single_line (p l : jsstring) :
  singleLine l = true -> captureAtLineStart p l false = None.
Proof.
  induction l as [|c l IH]; intro H; [reflexivity|].
  cbn [singleLine forallb] in H. apply andb_true_iff in H as [Hc H].
  apply negb_true_iff in Hc. cbn [captureAtLineStart andb]. rewrite Hc. now apply IH.
Qed.

Lemma capture_other_line (p l : jsstring) :
  p <> [] -> singleLine l = true -> matchHere p l = false ->
  captureAtLineStart p l true = None.
Proof.
  intros Hne Hl Hm. destruct l as [|c l].
  - cbn [captureAtLineStart andb]. now rewrite Hm.
  - cbn [captureAtLineStart andb]. rewrite Hm.
    cbn [singleLine forallb] in Hl. apply andb_true_iff in Hl as [Hc Hl].
    apply negb_true_iff in Hc. rewrite Hc. now apply capture_single_line.
Qed.

(** Of several lines for the same key [getKeyValue] reads the first, where
    the extraction of an environment file keeps the last.  Let the key name
    be made of ordinary characters (none that a regular expression reads as
    syntax, no line terminator), and let the store be the lines [before],
    each without line terminator and none beginning with [keyName=], then the
    line [keyName=value] with a value without line terminator, then the
    lines [after].  Then the value found is [value], whatever the lines of
    [after] are.  (For a key name with a wildcard the first line that the
    pattern matches is read instead, as in C8.) *)
Theorem getKeyValue_reads_first_line (keyName value : jsstring)
    (before after : list jsstring) (w : World) :
  ordinaryKey keyName = true -> singleLine value = true ->
  Forall (fun l => singleLine l = true
                   /\ startsWith l (keyName ++ [EQUALS]) = false) before ->
  files w (baseEnvironmentFilePath mgr)
  = Some (join (before ++ (keyName ++ [EQUALS] ++ value) :: after) NEWLINE) ->
  getKeyValue RegExp_match_m mgr keyName w = (Ok (Some value), w).
Proof.
  intros Hk Hv Hbefore Hfile. apply getKeyValue_run with (1 := Hfile).
  unfold keyValueRegex. rewrite (ordinaryKey_inFragment _ Hk). f_equal.
  set (p := keyName ++ [EQUALS]).
  assert (p <> []) as Hne by (unfold p; now destruct keyName).
  assert (forallb (fun c => negb (isLineTerminator c)) p = true) as Hp.
  { apply forallb_forall. intros c Hc.
    destruct (ordinaryKey_literal keyName c Hk Hc) as [_ H]. now rewrite H. }
  assert (forall t, matchHere p t = startsWith t p) as Hm.
  { intro t. apply literal_matchHere. intros c Hc.
    now apply (ordinaryKey_literal keyName c Hk). }
  assert (forall rest, captureAtLineStart p (join ((p ++ value) :: rest) NEWLINE) true
                       = Some value) as Hhere.
  { intro rest. destruct rest as [|r rest].
    - cbn [join]. now apply capture_self.
    - rewrite join_cons by discriminate.
      rewrite (capture_next_line p _ _ true Hne Hp). now rewrite capture_self. }
  change (keyName ++ [EQUALS] ++ value) with (keyName ++ ([EQUALS] ++ value)).
  rewrite app_assoc. fold p.
  clear Hfile. induction before as [|l before IH]; [apply Hhere|].
  inversion Hbefore as [|? ? [Hl Hs] Hrest]; subst.
  cbn [app]. rewrite join_cons by (destruct before; discriminate).
  rewrite (capture_next_line p _ _ true Hne Hp).
  rewrite (capture_other_line p l Hne Hl) by (rewrite Hm; exact Hs).
  now apply IH.
Qed.


(** *** createAndSaveSecretKey *)

(** The secret is generated before the store is consulted: a successful call
    has consumed the bytes of a secret even when the key exists already and
    nothing is stored; and what it stores otherwise is the base64 text of
    those bytes. *)
Theorem createAndSaveSecretKey_generates_first (keyName : jsstring) (w w' : World) :
  createAndSaveSecretKey P mgr keyName w = (Ok tt, w') ->
  entropyUsed w' = (entropyUsed w + Z.to_nat (SECRET_KEY_LENGTH P))%nat
  /\ randomCalls w' = S (randomCalls w)
  /\ (files w' = files w
      \/ exists old,
           files w (baseEnvironmentFilePath mgr) = Some old
           /\ files w' (baseEnvironmentFilePath mgr)
              = Some (old ++ [NEWLINE] ++ keyName ++ [EQUALS]
                          ++ base64_encode P
                               (takeEntropy (Z.to_nat (SECRET_KEY_LENGTH P)) w))).
Proof.
  unfold createAndSaveSecretKey. intro H. apply rethrowing_Ok in H.
  apply bind_Ok in H as [key [w1 [Hgen H]]].
  unfold generateSecretKey, generateBase64SecretKey in Hgen.
  apply rethrowing_Ok in Hgen. apply rethrowing_Ok in Hgen.
  apply bind_Ok in Hgen as [bytes [w2 [Hr Hgen]]].
  unfold ret in Hgen. inversion Hgen; subst key w2. clear Hgen.
  unfold crypto_randomBytes in Hr. destruct (_ || _); [discriminate|].
  inversion Hr; subst bytes w1. clear Hr.
  unfold storeSecretKeyInEnvironmentFile in H. apply rethrowing_Ok in H.
  apply storeBaseEnvKey_Ok in H as [old [b [Hfile [_ [He [Hc Hw]]]]]].
  split; [exact He|]. split; [exact Hc|].
  destruct b; [left; exact Hw|].
  right. exists old. split; [exact Hfile|]. rewrite Hw. now rewrite eqb_refl.
Qed.

End KeyStore.

(** ** The entry point of a rewrite *)

Section EntryPoint.

Variable P : Platform.
Variable path_resolve : jsstring -> jsstring -> jsstring.

(** Called with an empty secret, [encryptEnvironmentVariables] throws
    [Key not found in .env file] before it reads anything: no file is changed
    and no random byte is drawn.  The shared manager is left half
    initialised: its environment file path is the new one already, its
    secret is the old one still. *)
Theorem empty_secret_stops_the_rewrite (environmentDirectory envFilePath : jsstring)
    (envVariables : option (list jsstring)) (mgr : EnvironmentFileManager) (w : World) :
  exists w',
    encryptEnvironmentVariables P path_resolve environmentDirectory envFilePath []
                                envVariables mgr w
    = (Throw (mkError "Error" (js "Key not found in .env file")),
       mkManager (path_resolve environmentDirectory envFilePath)
                 (secretKeyVariable mgr) (baseEnvironmentFilePath mgr),
       w')
    /\ files w' = files w /\ entropyUsed w' = entropyUsed w.
Proof. eexists. split; [reflexivity|]. split; reflexivity. Qed.

(** Called with a secret that is not empty, [encryptEnvironmentVariables] is
    the rewrite of the file at the resolved path under that secret, whatever
    path and secret the manager held before: it fails exactly when that
    rewrite fails, with the same error, and the files are afterwards what
    that rewrite leaves, so unchanged when it fails. *)
Theorem entry_point_rewrites_resolved_file (environmentDirectory envFilePath secret : jsstring)
    (envVariables : option (list jsstring)) (mgr : EnvironmentFileManager) (w : World) :
  truthy secret = true ->
  let mgr' := mkManager (path_resolve environmentDirectory envFilePath) secret
                        (baseEnvironmentFilePath mgr) in
  let run := encryptEnvironmentVariables P path_resolve environmentDirectory envFilePath
                                         secret envVariables mgr w in
  fst (fst run)
  = match fst (encryptEnvVariables P mgr' envVariables w) with
    | Ok _ => Ok tt
    | Throw e => Throw e
    end
  /\ snd (fst run) = mgr'
  /\ files (snd run) = files (snd (encryptEnvVariables P mgr' envVariables w))
  /\ (forall e, fst (fst run) = Throw e -> files (snd run) = files w).
Proof.
  intros Hs mgr' run.
  assert (getSecretKey secret w = (Ok secret, w)) as Hk.
  { unfold getSecretKey. apply rethrowing_Ok. rewrite Hs. reflexivity. }
  pose proof (encryptEnvVariables_Throw_files P mgr' envVariables w) as Hf.
  unfold run, encryptEnvironmentVariables, initializeEncryption. rewrite Hk.
  cbn [environmentFilePath baseEnvironmentFilePath]. fold mgr'.
  destruct (encryptEnvVariables P mgr' envVariables w) as [[n|e] w'] eqn:E; cbn.
  - repeat split. discriminate.
  - repeat split. intros _ _. exact Hf.
Qed.

End EntryPoint.

(** ** The further properties on concrete inputs (reference platform) *)

Section FurtherExamples.

Import Reference.

(** The rewrite of [/repo/envs/.env.qa], which does not exist. *)
Lemma rewrite_of_missing_file_fails_witness :
  exists e w',
    encryptEnvVariables platform (mkManager (js "/repo/envs/.env.qa") (js "passphrase") basePath)
                        None (world (js "USER=alice") [])
    = (Throw e, w')
    /\ files w' = files (world (js "USER=alice") []).
Proof.
  apply (rewrite_of_missing_file_fails platform
           (mkManager (js "/repo/envs/.env.qa") (js "passphrase") basePath)
           None (world (js "USER=alice") [])).
  reflexivity.
Defined.

(** [USER=alice / PASS=secret123] with target [PASS]: one plain target. *)
Lemma count_is_number_of_plain_targets_witness :
  1%nat
  = length (plainTargets platform
              (targetSet (extractEnvironmentVariables
                            (split (js "USER=alice" ++ NEWLINE :: js "PASS=secret123")
                                   NEWLINE))
                         (Some [js "PASS"]))).
Proof.
  apply (count_is_number_of_plain_targets platform manager (Some [js "PASS"])
           (world (js "USER=alice" ++ NEWLINE :: js "PASS=secret123") [])
           (snd (rewriteOnce (js "USER=alice" ++ NEWLINE :: js "PASS=secret123")
                             (Some [js "PASS"])))
           1%nat (js "USER=alice" ++ NEWLINE :: js "PASS=secret123")).
  - apply (outcome_and_world (rewriteOnce _ _)). vm_compute. reflexivity.
  - reflexivity.
Defined.

(** A file whose [TOKEN] is encrypted already and whose [PASS] is not. *)
Lemma encrypted_value_is_left_alone_witness :
  exists lines',
    files (snd (rewriteOnce
                  (js "TOKEN="
                     ++ stringify (paramsObject (mkParams (js "c2FsdA") (js "aXY") (js "Y3Q")))
                     ++ NEWLINE :: js "PASS=secret123")
                  None))
          (environmentFilePath manager)
    = Some (join lines' NEWLINE)
    /\ forall i l,
         nth_error
           (split (js "TOKEN="
                     ++ stringify (paramsObject (mkParams (js "c2FsdA") (js "aXY") (js "Y3Q")))
                     ++ NEWLINE :: js "PASS=secret123")
                  NEWLINE) i = Some l ->
         startsWith l (js "TOKEN" ++ [EQUALS]) = true ->
         nth_error lines' i = Some l.
Proof.
  apply (encrypted_value_is_left_alone platform manager None
           (world (js "TOKEN="
                     ++ stringify (paramsObject (mkParams (js "c2FsdA") (js "aXY") (js "Y3Q")))
                     ++ NEWLINE :: js "PASS=secret123") [])
           _ 1%nat _ (js "TOKEN")
           (stringify (paramsObject (mkParams (js "c2FsdA") (js "aXY") (js "Y3Q"))))).
  - apply (outcome_and_world (rewriteOnce _ _)). vm_compute. reflexivity.
  - reflexivity.
  - vm_compute. reflexivity.
  - vm_compute. reflexivity.
Defined.

(** The lookup [toString] in a file that has no such key. *)
Lemma inherited_method_lookup_fails_witness :
  exists e w',
    encryptEnvVariables platform manager (Some [js "toString"])
                        (world (js "USER=alice") [])
    = (Throw e, w')
    /\ files w' = files (world (js "USER=alice") []).
Proof.
  apply (inherited_method_lookup_fails platform manager [js "toString"]
           (world (js "USER=alice") []) (js "USER=alice") (js "toString")).
  - reflexivity.
  - now left.
  - vm_compute. reflexivity.
  - vm_compute. reflexivity.
Defined.

Lemma encrypted_value_costs_no_randomness_witness :
  encryptIfNeeded platform
    (stringify (paramsObject (mkParams (js "c2FsdA") (js "aXY") (js "Y3Q"))))
    (js "passphrase") (world [] [])
  = (Ok (Unchanged (stringify (paramsObject (mkParams (js "c2FsdA") (js "aXY") (js "Y3Q"))))),
     world [] []).
Proof.
  apply (encrypted_value_costs_no_randomness platform
           (stringify (paramsObject (mkParams (js "c2FsdA") (js "aXY") (js "Y3Q"))))
           (js "passphrase") (world [] [])).
  vm_compute. reflexivity.
Defined.

(** An empty content for the base file. *)
Lemma writeFile_refuses_witness :
  exists e w',
    FileManager_writeFile basePath [] (js "SECRET_KEY") (world [] (js "A=1"))
    = (Throw e, w')
    /\ files w' = files (world [] (js "A=1")).
Proof.
  apply (writeFile_refuses basePath [] (js "SECRET_KEY") (world [] (js "A=1"))).
  right. reflexivity.
Defined.

Lemma generators_return_fresh_bytes_witness :
  generateBufferIV 16 (world [] [])
  = (Ok (takeEntropy (Z.to_nat 16) (world [] [])),
     consumeEntropy (Z.to_nat 16) (world [] []))
  /\ generateBase64IV platform 16 (world [] [])
     = (Ok (base64_encode platform (takeEntropy (Z.to_nat 16) (world [] []))),
        consumeEntropy (Z.to_nat 16) (world [] []))
  /\ generateBase64Salt platform 16 (world [] [])
     = (Ok (base64_encode platform (takeEntropy (Z.to_nat 16) (world [] []))),
        consumeEntropy (Z.to_nat 16) (world [] []))
  /\ generateBase64SecretKey platform 16 (world [] [])
     = (Ok (base64_encode platform (takeEntropy (Z.to_nat 16) (world [] []))),
        consumeEntropy (Z.to_nat 16) (world [] [])).
Proof. apply (generators_return_fresh_bytes platform 16 (world [] [])). lia. Defined.

Lemma webcrypto_iv_is_bounded_witness :
  exists e w',
    generateWebCryptoIV platform 65537 (world [] []) = (Throw e, w')
    /\ entropyUsed w' = entropyUsed (world [] [])
    /\ files w' = files (world [] []).
Proof.
  apply (webcrypto_iv_is_bounded platform 65537 (world [] [])); [reflexivity | lia].
Defined.

Lemma encrypt_draws_fresh_salt_and_iv_witness :
  exists p w',
    encrypt platform (js "secret123") (js "passphrase") (world [] []) = (Ok p, w')
    /\ (0 < SALT_LENGTH platform)%Z /\ (0 < WEB_CRYPTO_IV_LENGTH platform)%Z
    /\ salt p = base64_encode platform
                  (takeEntropy (Z.to_nat (SALT_LENGTH platform)) (world [] []))
    /\ iv p = base64_encode platform
                (takeEntropy (Z.to_nat (WEB_CRYPTO_IV_LENGTH platform))
                             (consumeEntropy (Z.to_nat (SALT_LENGTH platform)) (world [] [])))
    /\ w' = consumeEntropy (Z.to_nat (WEB_CRYPTO_IV_LENGTH platform))
                           (consumeEntropy (Z.to_nat (SALT_LENGTH platform)) (world [] [])).
Proof.
  destruct (encrypt platform (js "secret123") (js "passphrase") (world [] []))
    as [[p|e] w'] eqn:E.
  - exists p, w'. split; [reflexivity|].
    exact (encrypt_draws_fresh_salt_and_iv platform (js "secret123") (js "passphrase")
             (world [] []) w' p E).
  - vm_compute in E. discriminate.
Defined.

Lemma encrypt_needs_positive_salt_length_witness :
  exists w',
    encrypt misconfigured (js "secret123") (js "passphrase") (world [] [])
    = (Throw (mkError "Error" (js "Salt length must be greater than zero.")), w')
    /\ randomCalls w' = randomCalls (world [] [])
    /\ files w' = files (world [] []).
Proof.
  apply (encrypt_needs_positive_salt_length misconfigured (js "secret123")
           (js "passphrase") (world [] [])).
  simpl. lia.
Defined.

(** Parameters whose salt is the empty string. *)
Lemma decrypt_rejects_incomplete_parameters_witness :
  exists w',
    decrypt platform (stringify (paramsObject (mkParams [] (js "aXY") (js "Y3Q"))))
            (js "passphrase") (world [] [])
    = (Throw (mkError "Error"
                (js "Missing required properties in encryption parameters.")), w').
Proof.
  apply (decrypt_rejects_incomplete_parameters platform
           (stringify (paramsObject (mkParams [] (js "aXY") (js "Y3Q"))))
           (js "passphrase")
           (paramsObject (mkParams [] (js "aXY") (js "Y3Q")))).
  - discriminate.
  - vm_compute. reflexivity.
  - discriminate.
  - vm_compute. reflexivity.
Defined.

Lemma serialized_parameters_are_recognised_witness :
  isAlreadyEncrypted platform
    (JSON_stringify platform (paramsObject (mkParams (js "c2FsdA") (js "aXY") (js "Y3Q"))))
    (world [] [])
  = (Ok true, world [] []).
Proof.
  apply (serialized_parameters_are_recognised platform
           (mkParams (js "c2FsdA") (js "aXY") (js "Y3Q")) (world [] [])).
  exact ReferenceFacts.platform_ok.
Defined.

Lemma guarded_generators_refuse_witness :
  (exists e, generateBase64IV platform 0 (world [] []) = (Throw e, world [] []))
  /\ (exists e, generateBufferIV 0 (world [] []) = (Throw e, world [] []))
  /\ (exists e, generateWebCryptoIV platform 0 (world [] []) = (Throw e, world [] []))
  /\ (exists e, generateBase64Salt platform 0 (world [] []) = (Throw e, world [] [])).
Proof. apply (guarded_generators_refuse platform 0 (world [] [])). lia. Defined.

(** *** The secret store *)

Lemma key_exists_iff_value_found_witness :
  exists found,
    keyValueRegex noEngine (js "SECRET_KEY") (js "A=1" ++ NEWLINE :: js "SECRET_KEY=abc")
    = Ok found
    /\ keyExistsRegex platform (js "SECRET_KEY")
                      (js "A=1" ++ NEWLINE :: js "SECRET_KEY=abc")
       = Ok (match found with Some _ => true | None => false end).
Proof.
  apply (key_exists_iff_value_found platform noEngine (js "SECRET_KEY")
           (js "A=1" ++ NEWLINE :: js "SECRET_KEY=abc")).
  reflexivity.
Defined.

Lemma storeBaseEnvKey_twice_witness :
  exists w2,
    storeBaseEnvKey platform manager (js "SECRET_KEY") (js "second")
      (snd (storeBaseEnvKey platform manager (js "SECRET_KEY") (js "first")
              (world [] (js "A=1"))))
    = (Ok tt, w2)
    /\ files w2
       = files (snd (storeBaseEnvKey platform manager (js "SECRET_KEY") (js "first")
                       (world [] (js "A=1")))).
Proof.
  apply (storeBaseEnvKey_twice platform manager (js "SECRET_KEY") (js "first") (js "second")
           (world [] (js "A=1"))).
  - reflexivity.
  - apply outcome_and_world. vm_compute. reflexivity.
Defined.

Lemma storeBaseEnvKey_ordinary_key_witness :
  (hasLineBeginning (js "A=1") (js "SECRET_KEY" ++ [EQUALS]) = true
   /\ files (snd (storeBaseEnvKey platform manager (js "SECRET_KEY") (js "abc")
                    (world [] (js "A=1"))))
      = files (world [] (js "A=1")))
  \/ (hasLineBeginning (js "A=1") (js "SECRET_KEY" ++ [EQUALS]) = false
      /\ files (snd (storeBaseEnvKey platform manager (js "SECRET_KEY") (js "abc")
                       (world [] (js "A=1"))))
         = fun p =>
             if eqb p (baseEnvironmentFilePath manager)
             then Some (js "A=1" ++ [NEWLINE] ++ js "SECRET_KEY" ++ [EQUALS] ++ js "abc")
             else files (world [] (js "A=1")) p).
Proof.
  apply (storeBaseEnvKey_ordinary_key platform manager (js "SECRET_KEY") (js "abc")
           (js "A=1") (world [] (js "A=1"))).
  - reflexivity.
  - reflexivity.
  - reflexivity.
  - apply outcome_and_world. vm_compute. reflexivity.
Defined.

Lemma getKeyValue_after_store_witness :
  exists before,
    getKeyValue noEngine manager (js "SECRET_KEY") (world [] (js "A=1"))
    = (Ok before, world [] (js "A=1"))
    /\ getKeyValue noEngine manager (js "SECRET_KEY")
         (snd (storeBaseEnvKey platform manager (js "SECRET_KEY") (js "abc")
                 (world [] (js "A=1"))))
       = (Ok (Some (match before with Some v => v | None => js "abc" end)),
          snd (storeBaseEnvKey platform manager (js "SECRET_KEY") (js "abc")
                 (world [] (js "A=1")))).
Proof.
  apply (getKeyValue_after_store platform noEngine manager (js "SECRET_KEY") (js "abc")
           (world [] (js "A=1"))).
  - reflexivity.
  - reflexivity.
  - apply outcome_and_world. vm_compute. reflexivity.
Defined.

(** [A=1 / K=first / K=second]: the first value is read. *)
Lemma getKeyValue_reads_first_line_witness :
  getKeyValue noEngine manager (js "K")
    (world [] (js "A=1" ++ NEWLINE :: js "K=first" ++ NEWLINE :: js "K=second"))
  = (Ok (Some (js "first")),
     world [] (js "A=1" ++ NEWLINE :: js "K=first" ++ NEWLINE :: js "K=second")).
Proof.
  apply (getKeyValue_reads_first_line noEngine manager (js "K") (js "first")
           [js "A=1"] [js "K=second"]
           (world [] (js "A=1" ++ NEWLINE :: js "K=first" ++ NEWLINE :: js "K=second"))).
  - reflexivity.
  - reflexivity.
  - repeat constructor.
  - reflexivity.
Defined.


Lemma createAndSaveSecretKey_generates_first_witness :
  entropyUsed (snd (createAndSaveSecretKey platform manager (js "A") (world [] (js "A=1"))))
  = (entropyUsed (world [] (js "A=1")) + Z.to_nat (SECRET_KEY_LENGTH platform))%nat
  /\ randomCalls (snd (createAndSaveSecretKey platform manager (js "A")
                         (world [] (js "A=1"))))
     = S (randomCalls (world [] (js "A=1")))
  /\ (files (snd (createAndSaveSecretKey platform manager (js "A") (world [] (js "A=1"))))
      = files (world [] (js "A=1"))
      \/ exists old,
           files (world [] (js "A=1")) (baseEnvironmentFilePath manager) = Some old
           /\ files (snd (createAndSaveSecretKey platform manager (js "A")
                            (world [] (js "A=1"))))
                    (baseEnvironmentFilePath manager)
              = Some (old ++ [NEWLINE] ++ js "A" ++ [EQUALS]
                          ++ base64_encode platform
                               (takeEntropy (Z.to_nat (SECRET_KEY_LENGTH platform))
                                            (world [] (js "A=1"))))).
Proof.
  apply (createAndSaveSecretKey_generates_first platform manager (js "A")
           (world [] (js "A=1"))).
  apply outcome_and_world. vm_compute. reflexivity.
Defined.

(** *** The entry point *)

(** A manager as its constructor leaves it, then the entry point for
    [.env.dev] with the secret [passphrase]. *)
Lemma entry_point_rewrites_resolved_file_witness :
  snd (fst (encryptEnvironmentVariables platform joinPath (js "/repo/envs") (js ".env.dev")
              (js "passphrase") (Some [js "PASS"]) (mkManager [] [] basePath)
              (world (js "USER=alice" ++ NEWLINE :: js "PASS=secret123") [])))
  = manager
  /\ files (snd (encryptEnvironmentVariables platform joinPath (js "/repo/envs")
                   (js ".env.dev") (js "passphrase") (Some [js "PASS"])
                   (mkManager [] [] basePath)
                   (world (js "USER=alice" ++ NEWLINE :: js "PASS=secret123") [])))
     = files (snd (rewriteOnce (js "USER=alice" ++ NEWLINE :: js "PASS=secret123")
                               (Some [js "PASS"]))).
Proof.
  destruct (entry_point_rewrites_resolved_file platform joinPath (js "/repo/envs")
              (js ".env.dev") (js "passphrase") (Some [js "PASS"])
              (mkManager [] [] basePath)
              (world (js "USER=alice" ++ NEWLINE :: js "PASS=secret123") [])
              eq_refl) as [_ [Hm [Hf _]]].
  split; [exact Hm | exact Hf].
Defined.

End FurtherExamples.
